(** * VisualPDE data generation pipeline: worker pool, session runner, scheduler

    A shallow embedding of [datagen/browser-pool.ts],
    [datagen/simulation-runner.ts] and [datagen/orchestrator.ts].

    - JavaScript numbers that the pipeline counts with (frame indices, retry
      counters, lease counters) are integers in [Z]; numbers that are only read
      and stored (simulation times, brush coordinates) are carried as [Z]
      tokens, no arithmetic is done on them.
    - Every call that leaves the component (puppeteer, the page's VPDE API, the
      file system, timers, and for the scheduler the pool and the runner) is an
      entry of a chronological log.  Whether such a call rejects, and what it
      returns, is decided by an environment that sees the whole history.
    - [async] code is written in a state-and-exception monad over that log;
      [try]/[catch]/[finally] are combinators with the JavaScript completion
      rules.  Console output is not modelled.
    - Code that several callers run at once (the pool under its callers, the
      jobs of the scheduler's queue) is cut at its [await]s into moves, and
      what is proved of it is proved for every order of the moves. *)

From Stdlib Require Import ZArith Lia Ascii String.
From stdpp Require Import base gmap list strings pretty sorting.

(** ** Data model ([datagen/types.ts]) *)

Definition number := Z.

(** [path.join(a, b)]: paths are kept as their list of segments. *)
Definition path := list string.

Definition Browser := nat.

(** A puppeteer page handle; [page.browser()] is [page_browser]. *)
Record Page := mkPage { page_id : nat; page_browser : Browser }.

#[global] Instance Page_eq_dec : EqDecision Page.
Proof. solve_decision. Defined.

#[global] Instance Page_countable : Countable Page :=
  inj_countable' (fun p => (page_id p, page_browser p))
                 (fun ib => mkPage (fst ib) (snd ib))
                 (fun p => match p with mkPage _ _ => eq_refl end).

Inductive JsValue :=
  | JNum (n : number)
  | JStr (s : string)
  | JBool (b : bool).

Inductive Species := SpU | SpV | SpW | SpQ.
Inductive Shape := Circle | Square.
Inductive BrushAction := Replace | Add.

Record BrushParams := mkBrush {
  bx : number;
  by_ : number;
  species : Species;
  value : number;
  radius : number;
  shape : option Shape;
  action : option BrushAction
}.

(** [type: "brush"] is the only variant the type admits. *)
Inductive InterventionType := Brush.

Record Intervention := mkIntervention {
  frame : number;
  simulationTime : option number;
  type : InterventionType;
  params : BrushParams
}.

Definition set_simulationTime (t : number) (i : Intervention) : Intervention :=
  {| frame := frame i; simulationTime := Some t; type := type i; params := params i |}.

(** [intervention] is a reference to one of the objects of
    [config.interventions], kept as its position in that array. *)
Record FrameAnnotation := mkAnnotation {
  frameIndex : number;
  fa_simulationTime : number;
  intervention : option nat
}.

Record SimulationConfig := mkConfig {
  id : string;
  preset : string;
  options : option (list (string * JsValue));
  totalFrames : number;
  timestepsPerFrame : number;
  interventions : option (list Intervention);
  outputDir : path;
  randomSeed : option number;
  resolution : option (number * number)
}.

(** The document returned by [collectMetadata] and serialised into
    [metadata.json].  The solver-observed groups (equations, parameters,
    visualization) are derived from the [getOptions()] snapshot by string
    parsing that is not modelled: the snapshot itself is kept. *)
Record SimulationMetadata := mkMetadata {
  md_id : string;
  md_preset : string;
  md_timestamp : number;
  md_generatorVersion : string;
  md_solver : list (string * JsValue);
  md_totalFrames : number;
  md_timestepsPerFrame : number;
  md_totalTime : number;
  md_resolution : number * number;
  md_randomSeed : option number;
  md_interventions : list Intervention;
  md_frameAnnotations : list FrameAnnotation
}.

Record IndexEntry := mkEntry {
  ie_id : string;
  ie_preset : string;
  ie_path : path
}.

Record BatchIndex := mkIndex {
  ix_generated : number;
  ix_total_simulations : number;
  ix_completed : number;
  ix_failed : number;
  ix_elapsed_ms : number;
  ix_simulations : list IndexEntry
}.

Record ErrorRecord := mkError {
  er_id : string;
  er_error : string;
  er_retryCount : number;
  er_timestamp : number
}.

(** What [fs.writeFile] is given. *)
Inductive Doc :=
  | FrameImage (base64 : string)
  | MetadataDoc (m : SimulationMetadata)
  | ErrorDoc (e : ErrorRecord)
  | IndexDoc (ix : BatchIndex).

Inductive Status := Pending | Running | Completed | Failed.

Record JobStatus := mkJob {
  js_id : string;
  js_config : SimulationConfig;
  status : Status;
  startTime : option number;
  endTime : option number;
  error : option string;
  retryCount : number
}.

Record BrowserPoolConfig := mkPoolConfig {
  poolSize : number;
  headless : bool;
  width : number;
  height : number;
  htmlPath : string;
  maxSimsPerBrowser : option number;
  useSwiftShader : option bool
}.

(** ** Calls across the component boundary *)

Inductive Url :=
  | SimUrl (html : string) (preset_name : string)
  | AboutBlank.

(** What a function handed to [page.evaluate] does inside the page. *)
Inductive VpdeOp :=
  | SetSeed (seed : number)
  | SetOption (key : string) (v : JsValue)
  | UpdateProblem
  | Reset
  | ApplyBrush (x y : number) (sp : Species) (v r : number)
  | GetTime
  | StepN (n : number)
  | Render
  | CaptureFrame
  | GetOptions.

Inductive Call :=
  | Launch (use_swiftshader : bool)
  | NewPage (b : Browser)
  | SetViewport (p : Page)
  | Goto (p : Page) (u : Url)
  | WaitForReady (p : Page)
  | Evaluate (p : Page) (script : list VpdeOp)
  | PageClose (p : Page)
  | BrowserClose (b : Browser)
  | Mkdir (dir : path)
  | WriteFile (file : path) (d : Doc)
  | Sleep (ms : number)
  | AcquirePage
  | ReleasePage (p : Page)
  | RunSimulation (p : Page) (html : string) (c : SimulationConfig).

Inductive Answer :=
  | AOk
  | ANum (n : number)
  | AStr (s : string)
  | AOptions (o : list (string * JsValue))
  | APage (p : Page)
  | AMetadata (m : SimulationMetadata)
  | ARejected (msg : string).

(** The statement of the source that issued a call. *)
Inductive Site :=
  | InPool
  | InSetup
  | InIntervention (frame_index : number) (ref : nat)
  | InFrame (frame_index : number)
  | InMetadata
  | InAttempt (attempt : number)
  | InBatch.

Record Event := mkEvent { ev_site : Site; ev_call : Call; ev_answer : Answer }.

(** The environment: given the history, does this call reject, and if not,
    what comes back. *)
Record Env := mkEnv {
  env_fails : list Event -> Call -> option string;
  env_num : list Event -> number;
  env_str : list Event -> string;
  env_options : list Event -> list (string * JsValue);
  env_page : list Event -> Page;
  env_metadata : list Event -> SimulationMetadata;
  env_clock : list Event -> number
}.

(** ** The monad of [async] functions *)

Inductive Res (A : Type) :=
  | Done (a : A)
  | Throw (msg : string).
Arguments Done {A} a.
Arguments Throw {A} msg.

Record World (S : Type) := mkWorld { st : S; log : list Event }.
Arguments mkWorld {S} st log.
Arguments st {S} w.
Arguments log {S} w.

Definition M (S A : Type) : Type := World S -> Res A * World S.

Definition ret {S A} (a : A) : M S A := fun w => (Done a, w).

Definition bind {S A B} (m : M S A) (k : A -> M S B) : M S B :=
  fun w => match m w with
           | (Done a, w') => k a w'
           | (Throw e, w') => (Throw e, w')
           end.

Definition throw {S A} (msg : string) : M S A := fun w => (Throw msg, w).

(** [try { m } catch (e) { h e }] *)
Definition try_catch {S A} (m : M S A) (h : string -> M S A) : M S A :=
  fun w => match m w with
           | (Done a, w') => (Done a, w')
           | (Throw e, w') => h e w'
           end.

(** [try { m } finally { f }]: the completion of [m] stands unless [f]
    itself throws. *)
Definition try_finally {S A} (m : M S A) (f : M S unit) : M S A :=
  fun w => match m w with
           | (r, w') => match f w' with
                        | (Done _, w'') => (r, w'')
                        | (Throw e, w'') => (Throw e, w'')
                        end
           end.

Definition get {S} : M S S := fun w => (Done (st w), w).
Definition modify {S} (f : S -> S) : M S unit :=
  fun w => (Done tt, mkWorld (f (st w)) (log w)).

Declare Scope eff_scope.
Delimit Scope eff_scope with eff.
Notation "x <- m ;; k" := (bind m (fun x => k))
  (at level 100, m at next level, right associativity) : eff_scope.
Notation "m ;;; k" := (bind m (fun _ => k))
  (at level 100, right associativity) : eff_scope.

Section Primitives.
Variable env : Env.
Context {S : Type}.

(** A call that may reject: the outcome is logged either way. *)
Definition perform {A} (site : Site) (c : Call)
    (result : list Event -> A) (answer : A -> Answer) : M S A :=
  fun w =>
    match env_fails env (log w) c with
    | Some msg =>
        (Throw msg, mkWorld (st w) (log w ++ [mkEvent site c (ARejected msg)]))
    | None =>
        let a := result (log w) in
        (Done a, mkWorld (st w) (log w ++ [mkEvent site c (answer a)]))
    end.

Definition perform_unit (site : Site) (c : Call) : M S unit :=
  perform site c (fun _ => tt) (fun _ => AOk).
Definition perform_num (site : Site) (c : Call) : M S number :=
  perform site c (env_num env) ANum.
Definition perform_str (site : Site) (c : Call) : M S string :=
  perform site c (env_str env) AStr.
Definition perform_options (site : Site) (c : Call) : M S (list (string * JsValue)) :=
  perform site c (env_options env) AOptions.
Definition perform_page (site : Site) (c : Call) : M S Page :=
  perform site c (env_page env) APage.
Definition perform_metadata (site : Site) (c : Call) : M S SimulationMetadata :=
  perform site c (env_metadata env) AMetadata.

(** A timer: [await new Promise(r => setTimeout(r, ms))] never rejects. *)
Definition sleep (site : Site) (ms : number) : M S unit :=
  fun w => (Done tt, mkWorld (st w) (log w ++ [mkEvent site (Sleep ms) AOk])).

(** [Date.now()] / [new Date()]. *)
Definition now : M S number :=
  fun w => (Done (env_clock env (log w)), w).
End Primitives.

Local Open Scope eff_scope.

(** ** Session runner ([datagen/simulation-runner.ts]) *)

Fixpoint string_rep (n : nat) (c : ascii) : string :=
  match n with
  | O => EmptyString
  | S n' => String c (string_rep n' c)
  end.

(** [s.padStart(n, c)] for a one-character filler. *)
Definition padStart (n : nat) (c : ascii) (s : string) : string :=
  string_rep (n - String.length s) c +:+ s.

Fixpoint drop_prefix (p s : string) : option string :=
  match p with
  | EmptyString => Some s
  | String a p' =>
      match s with
      | EmptyString => None
      | String b s' => if decide (a = b) then drop_prefix p' s' else None
      end
  end.

(** [s.replace(/^p/, "")] for a literal [p]. *)
Definition remove_prefix (p s : string) : string :=
  default s (drop_prefix p s).

(** [`${String(frameIndex).padStart(6, "0")}.png`] *)
Definition frame_filename (frameIndex : number) : string :=
  padStart 6 "0" (pretty frameIndex) +:+ ".png".

(** The key [a.frame] the comparator of [sort] reads through a reference. *)
Definition frame_of (objs : list Intervention) (r : nat) : number :=
  from_option frame 0%Z (objs !! r).

Fixpoint insert_by_frame (objs : list Intervention) (r : nat) (l : list nat) : list nat :=
  match l with
  | [] => [r]
  | r' :: l' =>
      if (frame_of objs r <=? frame_of objs r')%Z then r :: r' :: l'
      else r' :: insert_by_frame objs r l'
  end.

(** [[...config.interventions].sort((a, b) => a.frame - b.frame)]: a fresh
    array holding the same objects, stably sorted by frame. *)
Definition sorted_refs (objs : list Intervention) : list nat :=
  foldr (insert_by_frame objs) [] (seq 0 (length objs)).

(** [interventions.find((i) => i.frame === frame)] *)
Definition find_at_frame (objs : list Intervention) (sorted : list nat) (f : number)
    : option nat :=
  snd <$> list_find (fun r => frame_of objs r = f) sorted.

Section SimulationRunner.
Variable env : Env.
(** The fields of a [SimulationRunner]. *)
Variable page : Page.
Variable html : string.

(** The state is the array [config.interventions]: its objects are written
    through the sorted copy and read again by [collectMetadata]. *)
Abbreviation Run := (M (list Intervention)).

Definition applyIntervention (site : Site) (iv : Intervention) : Run unit :=
  match type iv with
  | Brush =>
      let p := params iv in
      perform_unit env site
        (Evaluate page [ApplyBrush (bx p) (by_ p) (species p) (value p) (radius p)])
  end.

Definition saveFrame (site : Site) (dataUrl : string) (dir : path)
    (frameIndex : number) : Run unit :=
  let base64Data := remove_prefix "data:image/png;base64," dataUrl in
  let filename := frame_filename frameIndex in
  let filepath := dir ++ [filename] in
  perform_unit env site (WriteFile filepath (FrameImage base64Data)).

(** The inner [while]: [pending] is what the sorted array holds from
    [interventionIndex] on. *)
Fixpoint apply_due (f : number) (pending : list nat) : Run (list nat) :=
  match pending with
  | [] => ret []
  | r :: rest =>
      objs <- get ;;
      match objs !! r with
      | None => throw "TypeError"
      | Some iv =>
          if (frame iv =? f)%Z then
            applyIntervention (InIntervention f r) iv ;;;
            simTime <- perform_num env (InIntervention f r) (Evaluate page [GetTime]) ;;
            modify (alter (set_simulationTime simTime) r) ;;;
            apply_due f rest
          else ret pending
      end
  end.

(** The [for] over frames: [k] iterations are left, the next index is [f]. *)
Fixpoint capture_frames (config : SimulationConfig) (framesDir : path)
    (sorted : list nat) (k : nat) (f : number) (pending : list nat)
    (frameAnnotations : list FrameAnnotation) : Run (list FrameAnnotation) :=
  match k with
  | O => ret frameAnnotations
  | S k' =>
      pending' <- apply_due f pending ;;
      perform_unit env (InFrame f)
        (Evaluate page [StepN (timestepsPerFrame config); Render]) ;;;
      dataUrl <- perform_str env (InFrame f) (Evaluate page [CaptureFrame]) ;;
      saveFrame (InFrame f) dataUrl framesDir f ;;;
      simTime <- perform_num env (InFrame f) (Evaluate page [GetTime]) ;;
      objs <- get ;;
      capture_frames config framesDir sorted k' (f + 1)%Z pending'
        (frameAnnotations ++ [mkAnnotation f simTime (find_at_frame objs sorted f)])
  end.

Definition collectMetadata (config : SimulationConfig)
    (frameAnnotations : list FrameAnnotation) : Run SimulationMetadata :=
  opts <- perform_options env InMetadata (Evaluate page [GetOptions]) ;;
  finalTime <- perform_num env InMetadata (Evaluate page [GetTime]) ;;
  timestamp <- now env ;;
  objs <- get ;;
  ret {| md_id := id config;
         md_preset := preset config;
         md_timestamp := timestamp;
         md_generatorVersion := "1.0.0";
         md_solver := opts;
         md_totalFrames := totalFrames config;
         md_timestepsPerFrame := timestepsPerFrame config;
         md_totalTime := finalTime;
         md_resolution := default (512, 512)%Z (resolution config);
         md_randomSeed := randomSeed config;
         md_interventions := objs;
         md_frameAnnotations := frameAnnotations |}.

Definition frames_dir (config : SimulationConfig) : path :=
  outputDir config ++ ["frames"].

Definition run (config : SimulationConfig) : Run SimulationMetadata :=
  let framesDir := frames_dir config in
  perform_unit env InSetup (Mkdir framesDir) ;;;
  perform_unit env InSetup (Goto page (SimUrl html (preset config))) ;;;
  perform_unit env InSetup (WaitForReady page) ;;;
  match randomSeed config with
  | Some seed => perform_unit env InSetup (Evaluate page [SetSeed seed])
  | None => ret tt
  end ;;;
  match options config with
  | None | Some [] => ret tt
  | Some opts =>
      perform_unit env InSetup
        (Evaluate page (map (fun kv => SetOption (fst kv) (snd kv)) opts ++ [UpdateProblem]))
  end ;;;
  perform_unit env InSetup (Evaluate page [Reset]) ;;;
  objs <- get ;;
  let sorted := sorted_refs objs in
  frameAnnotations <-
    capture_frames config framesDir sorted (Z.to_nat (totalFrames config)) 0%Z sorted [] ;;
  metadata <- collectMetadata config frameAnnotations ;;
  perform_unit env InMetadata
    (WriteFile (outputDir config ++ ["metadata.json"]) (MetadataDoc metadata)) ;;;
  ret metadata.

(** A run starts on the objects the job specification came with. *)
Definition run_job (config : SimulationConfig) (history : list Event)
    : Res SimulationMetadata * World (list Intervention) :=
  run config (mkWorld (default [] (interventions config)) history).
End SimulationRunner.

(** ** Worker pool ([datagen/browser-pool.ts]) *)

(** The fields of a [BrowserPool], and the next handles puppeteer will hand
    out: every [launch] and [newPage] yields an object distinct from all
    earlier ones. *)
Record Pool := mkPool {
  browsers : list Browser;
  availablePages : list Page;
  busyPages : gset Page;
  simCountPerBrowser : gmap Browser number;
  isShuttingDown : bool;
  next_browser : nat;
  next_page : nat
}.

Definition empty_pool : Pool :=
  {| browsers := []; availablePages := []; busyPages := ∅;
     simCountPerBrowser := ∅; isShuttingDown := false;
     next_browser := 0; next_page := 0 |}.

Definition with_browsers (f : list Browser -> list Browser) (p : Pool) : Pool :=
  {| browsers := f (browsers p); availablePages := availablePages p;
     busyPages := busyPages p; simCountPerBrowser := simCountPerBrowser p;
     isShuttingDown := isShuttingDown p;
     next_browser := next_browser p; next_page := next_page p |}.

Definition with_available (f : list Page -> list Page) (p : Pool) : Pool :=
  {| browsers := browsers p; availablePages := f (availablePages p);
     busyPages := busyPages p; simCountPerBrowser := simCountPerBrowser p;
     isShuttingDown := isShuttingDown p;
     next_browser := next_browser p; next_page := next_page p |}.

Definition with_busy (f : gset Page -> gset Page) (p : Pool) : Pool :=
  {| browsers := browsers p; availablePages := availablePages p;
     busyPages := f (busyPages p); simCountPerBrowser := simCountPerBrowser p;
     isShuttingDown := isShuttingDown p;
     next_browser := next_browser p; next_page := next_page p |}.

Definition with_simCount (f : gmap Browser number -> gmap Browser number) (p : Pool) : Pool :=
  {| browsers := browsers p; availablePages := availablePages p;
     busyPages := busyPages p; simCountPerBrowser := f (simCountPerBrowser p);
     isShuttingDown := isShuttingDown p;
     next_browser := next_browser p; next_page := next_page p |}.

Definition with_shutting (b : bool) (p : Pool) : Pool :=
  {| browsers := browsers p; availablePages := availablePages p;
     busyPages := busyPages p; simCountPerBrowser := simCountPerBrowser p;
     isShuttingDown := b;
     next_browser := next_browser p; next_page := next_page p |}.

Definition alloc_browser (p : Pool) : Pool :=
  {| browsers := browsers p; availablePages := availablePages p;
     busyPages := busyPages p; simCountPerBrowser := simCountPerBrowser p;
     isShuttingDown := isShuttingDown p;
     next_browser := S (next_browser p); next_page := next_page p |}.

Definition alloc_page (p : Pool) : Pool :=
  {| browsers := browsers p; availablePages := availablePages p;
     busyPages := busyPages p; simCountPerBrowser := simCountPerBrowser p;
     isShuttingDown := isShuttingDown p;
     next_browser := next_browser p; next_page := S (next_page p) |}.

(** [const i = l.indexOf(x); if (i > -1) l.splice(i, 1)] *)
Fixpoint remove_first (x : Browser) (l : list Browser) : list Browser :=
  match l with
  | [] => []
  | y :: l' => if decide (x = y) then l' else y :: remove_first x l'
  end.

(** [this.config.maxSimsPerBrowser || 50] *)
Definition maxSims (config : BrowserPoolConfig) : number :=
  match maxSimsPerBrowser config with
  | Some n => if (n =? 0)%Z then 50%Z else n
  | None => 50%Z
  end.

(** One evaluation of [acquirePage] between two of its timer waits. *)
Inductive Polled :=
  | Suspended
  | Rejected (msg : string)
  | Granted (p : Page) (pool' : Pool).

(** A [releasePage] that is suspended at an [await]. *)
Inductive ReleaseK :=
  | KReset (p : Page)
  | KRestart (oldBrowser : Browser) (oldPage : Page)
  | KCreate (b : Browser).

Section BrowserPool.
Variable env : Env.
Variable config : BrowserPoolConfig.

Abbreviation Pl := (M Pool).

Definition launchBrowser : Pl Browser :=
  let use := default true (useSwiftShader config) in
  perform_unit env InPool (Launch use) ;;;
  pool <- get ;;
  modify alloc_browser ;;;
  ret (next_browser pool).

Definition createPage (browser : Browser) : Pl Page :=
  perform_unit env InPool (NewPage browser) ;;;
  pool <- get ;;
  let page := mkPage (next_page pool) browser in
  modify alloc_page ;;;
  perform_unit env InPool (SetViewport page) ;;;
  ret page.

Fixpoint initialize_from (k : nat) : Pl unit :=
  match k with
  | O => ret tt
  | S k' =>
      browser <- launchBrowser ;;
      modify (with_browsers (fun l => l ++ [browser])) ;;;
      modify (with_simCount (insert browser 0%Z)) ;;;
      page <- createPage browser ;;
      modify (with_available (fun l => l ++ [page])) ;;;
      initialize_from k'
  end.

Definition initialize : Pl unit :=
  initialize_from (Z.to_nat (poolSize config)).

(** The guard of the polling loop, the shutdown test and the [pop] run
    without an [await] between them. *)
Definition acquirePage_poll (pool : Pool) : Polled :=
  match last (availablePages pool) with
  | None => if isShuttingDown pool then Rejected "Browser pool is shutting down"
            else Suspended
  | Some page =>
      if isShuttingDown pool then Rejected "Browser pool is shutting down"
      else Granted page
             (with_busy (fun b => {[page]} ∪ b)
                (with_available (fun l => removelast l) pool))
  end.

Definition restartBrowser (oldBrowser : Browser) (oldPage : Page) : Pl unit :=
  modify (with_browsers (remove_first oldBrowser)) ;;;
  modify (with_simCount (delete oldBrowser)) ;;;
  try_catch (perform_unit env InPool (PageClose oldPage)) (fun _ => ret tt) ;;;
  try_catch (perform_unit env InPool (BrowserClose oldBrowser)) (fun _ => ret tt) ;;;
  newBrowser <- launchBrowser ;;
  modify (with_browsers (fun l => l ++ [newBrowser])) ;;;
  modify (with_simCount (insert newBrowser 0%Z)) ;;;
  newPage <- createPage newBrowser ;;
  modify (with_available (fun l => l ++ [newPage])).

Definition releasePage (page : Page) : Pl unit :=
  modify (with_busy (fun b => b ∖ {[page]})) ;;;
  let browser := page_browser page in
  pool <- get ;;
  let count := (default 0 (simCountPerBrowser pool !! browser) + 1)%Z in
  modify (with_simCount (insert browser count)) ;;;
  if (maxSims config <=? count)%Z then restartBrowser browser page
  else
    try_catch
      (perform_unit env InPool (Goto page AboutBlank) ;;;
       modify (with_available (fun l => l ++ [page])))
      (fun _ =>
         newPage <- createPage browser ;;
         modify (with_available (fun l => l ++ [newPage]))).

(** [releasePage] cut at its [await]s.  [release_begin] is what runs before
    the first one; [release_resume] runs one suspended release up to its
    next suspension ([Some]) or its end ([None]). *)
Definition release_begin (page : Page) : Pl ReleaseK :=
  modify (with_busy (fun b => b ∖ {[page]})) ;;;
  let browser := page_browser page in
  pool <- get ;;
  let count := (default 0 (simCountPerBrowser pool !! browser) + 1)%Z in
  modify (with_simCount (insert browser count)) ;;;
  if (maxSims config <=? count)%Z then
    modify (with_browsers (remove_first browser)) ;;;
    modify (with_simCount (delete browser)) ;;;
    ret (KRestart browser page)
  else ret (KReset page).

Definition release_resume (k : ReleaseK) : Pl (option ReleaseK) :=
  match k with
  | KReset page =>
      try_catch
        (perform_unit env InPool (Goto page AboutBlank) ;;;
         modify (with_available (fun l => l ++ [page])) ;;;
         ret None)
        (fun _ => ret (Some (KCreate (page_browser page))))
  | KRestart oldBrowser oldPage =>
      try_catch (perform_unit env InPool (PageClose oldPage)) (fun _ => ret tt) ;;;
      try_catch (perform_unit env InPool (BrowserClose oldBrowser)) (fun _ => ret tt) ;;;
      newBrowser <- launchBrowser ;;
      modify (with_browsers (fun l => l ++ [newBrowser])) ;;;
      modify (with_simCount (insert newBrowser 0%Z)) ;;;
      ret (Some (KCreate newBrowser))
  | KCreate browser =>
      newPage <- createPage browser ;;
      modify (with_available (fun l => l ++ [newPage])) ;;;
      ret None
  end.

Definition release_finish (k : ReleaseK) : Pl unit :=
  o <- release_resume k ;;
  match o with
  | None => ret tt
  | Some k' => release_resume k' ;;; ret tt
  end.

(** [shutdown] before and after its drain loop.  The drain loop only waits:
    when it ends, by an empty busy set or by its timeout, is not decided
    here.  The [close] calls that follow touch no field of the pool, so they
    are taken in one step with the clearing of the fields that ends
    [shutdown]. *)
Definition shutdown_begin : Pl unit :=
  modify (with_shutting true).

Fixpoint close_all (l : list Browser) : Pl unit :=
  match l with
  | [] => ret tt
  | b :: l' =>
      try_catch (perform_unit env InPool (BrowserClose b)) (fun _ => ret tt) ;;;
      close_all l'
  end.

Definition shutdown_end : Pl unit :=
  pool <- get ;;
  close_all (browsers pool) ;;;
  modify (with_browsers (fun _ => [])) ;;;
  modify (with_available (fun _ => [])) ;;;
  modify (with_busy (fun _ => ∅)).

(** *** The pool under concurrent callers

    Tasks interleave at [await]s only.  A state of the system is the pool,
    the releases that are suspended, and the pages the callers hold; a
    caller releases a page it holds, once. *)
Record PoolSys := mkSys {
  sys_world : World Pool;
  sys_inflight : list ReleaseK;
  sys_leased : list Page
}.

Definition remove_page (p : Page) (l : list Page) : list Page :=
  filter (fun q => q <> p) l.

Inductive pool_step : PoolSys -> PoolSys -> Prop :=
  | step_acquire s page pool' :
      acquirePage_poll (st (sys_world s)) = Granted page pool' ->
      pool_step s (mkSys (mkWorld pool' (log (sys_world s)))
                         (sys_inflight s) (page :: sys_leased s))
  | step_release_begin s page k w' :
      page ∈ sys_leased s ->
      release_begin page (sys_world s) = (Done k, w') ->
      pool_step s (mkSys w' (k :: sys_inflight s) (remove_page page (sys_leased s)))
  | step_release_resume s l1 k l2 o w' :
      sys_inflight s = l1 ++ k :: l2 ->
      release_resume k (sys_world s) = (Done o, w') ->
      pool_step s (mkSys w' (l1 ++ option_list o ++ l2) (sys_leased s))
  | step_release_rejects s l1 k l2 msg w' :
      sys_inflight s = l1 ++ k :: l2 ->
      release_resume k (sys_world s) = (Throw msg, w') ->
      pool_step s (mkSys w' (l1 ++ l2) (sys_leased s))
  | step_shutdown_begin s w' :
      shutdown_begin (sys_world s) = (Done tt, w') ->
      pool_step s (mkSys w' (sys_inflight s) (sys_leased s))
  | step_shutdown_end s w' :
      isShuttingDown (st (sys_world s)) = true ->
      shutdown_end (sys_world s) = (Done tt, w') ->
      pool_step s (mkSys w' (sys_inflight s) (sys_leased s)).

(** States reachable from a pool that [initialize] has set up. *)
Inductive reachable : PoolSys -> Prop :=
  | reach_init history w0 :
      initialize (mkWorld empty_pool history) = (Done tt, w0) ->
      reachable (mkSys w0 [] [])
  | reach_step s s' :
      reachable s -> pool_step s s' -> reachable s'.
End BrowserPool.

(** ** Scheduler ([datagen/orchestrator.ts]) *)

(** [Partial<SimulationConfig>] *)
Record PartialConfig := mkPartial {
  pc_id : option string;
  pc_preset : option string;
  pc_options : option (list (string * JsValue));
  pc_totalFrames : option number;
  pc_timestepsPerFrame : option number;
  pc_interventions : option (list Intervention);
  pc_outputDir : option path;
  pc_randomSeed : option number;
  pc_resolution : option (number * number)
}.

(** An object of [config.simulations], as the spread of [mergeWithDefaults]
    sees it: what its keys read as, and the optional keys it carries with
    the value [undefined] (as the objects that [generateConfigurations]
    returns carry [randomSeed]).  Reading such a key gives [undefined], as
    reading a key the object lacks does, but a spread copies it. *)
Record JobSpec := mkSpec {
  spec_config : SimulationConfig;
  spec_undefined : list string
}.

Record BatchConfig := mkBatch {
  bc_outputDir : path;
  workers : number;
  simulations : list JobSpec;
  defaults : option PartialConfig
}.


Fixpoint assoc (k : string) (l : list (string * JsValue)) : option JsValue :=
  match l with
  | [] => None
  | (k', v) :: l' => if decide (k = k') then Some v else assoc k l'
  end.

(** [{...d, ...c}] on option objects: the keys of [d] keep their place and
    take the value [c] gives them, the other keys of [c] follow. *)
Definition spread (d c : list (string * JsValue)) : list (string * JsValue) :=
  map (fun kv => (fst kv, default (snd kv) (assoc (fst kv) c))) d
  ++ filter (fun kv => assoc (fst kv) d = None) c.

(** The value of the first of two objects that has the key. *)
Definition or_else {A} (c d : option A) : option A :=
  match c with
  | Some x => Some x
  | None => d
  end.

(** [{...d, ...c}] at an optional key other than [options]: the value [c]
    has for the key if it has the key at all, be it with the value
    [undefined], and the value of [d] otherwise. *)
Definition spread_key {A} (job : JobSpec) (key : string) (c d : option A) : option A :=
  match c with
  | Some x => Some x
  | None => if bool_decide (key ∈ spec_undefined job) then None else d
  end.

Definition mergeWithDefaults (job : JobSpec) (dflt : option PartialConfig)
    : SimulationConfig :=
  let config := spec_config job in
  match dflt with
  | None => config
  | Some d =>
      {| id := id config;
         preset := preset config;
         options := Some (spread (default [] (pc_options d)) (default [] (options config)));
         totalFrames := totalFrames config;
         timestepsPerFrame := timestepsPerFrame config;
         interventions :=
           spread_key job "interventions" (interventions config) (pc_interventions d);
         outputDir := outputDir config;
         randomSeed := spread_key job "randomSeed" (randomSeed config) (pc_randomSeed d);
         resolution := spread_key job "resolution" (resolution config) (pc_resolution d) |}
  end.


(** The fields of an [Orchestrator] that its methods write. *)
Record Orch := mkOrch {
  jobs : gmap string JobStatus;
  orch_startTime : number;
  completedCount : number;
  failedCount : number
}.

Definition with_jobs (f : gmap string JobStatus -> gmap string JobStatus) (o : Orch) : Orch :=
  {| jobs := f (jobs o); orch_startTime := orch_startTime o;
     completedCount := completedCount o; failedCount := failedCount o |}.

Definition with_job (job_id : string) (f : JobStatus -> JobStatus) : Orch -> Orch :=
  with_jobs (alter f job_id).

Definition mark_running (t : number) (j : JobStatus) : JobStatus :=
  {| js_id := js_id j; js_config := js_config j; status := Running;
     startTime := Some t; endTime := endTime j; error := error j;
     retryCount := retryCount j |}.

Definition mark_completed (t : number) (j : JobStatus) : JobStatus :=
  {| js_id := js_id j; js_config := js_config j; status := Completed;
     startTime := startTime j; endTime := Some t; error := error j;
     retryCount := retryCount j |}.

Definition mark_failed (t : number) (j : JobStatus) : JobStatus :=
  {| js_id := js_id j; js_config := js_config j; status := Failed;
     startTime := startTime j; endTime := Some t; error := error j;
     retryCount := retryCount j |}.

(** [job.retryCount++; job.error = message] *)
Definition note_failure (msg : string) (j : JobStatus) : JobStatus :=
  {| js_id := js_id j; js_config := js_config j; status := status j;
     startTime := startTime j; endTime := endTime j; error := Some msg;
     retryCount := (retryCount j + 1)%Z |}.

Definition count_completed (o : Orch) : Orch :=
  {| jobs := jobs o; orch_startTime := orch_startTime o;
     completedCount := (completedCount o + 1)%Z; failedCount := failedCount o |}.

Definition count_failed (o : Orch) : Orch :=
  {| jobs := jobs o; orch_startTime := orch_startTime o;
     completedCount := completedCount o; failedCount := (failedCount o + 1)%Z |}.

Definition start_batch (t : number) (o : Orch) : Orch :=
  {| jobs := jobs o; orch_startTime := t; completedCount := 0%Z; failedCount := 0%Z |}.

Definition pending_job (c : SimulationConfig) : JobStatus :=
  {| js_id := id c; js_config := c; status := Pending; startTime := None;
     endTime := None; error := None; retryCount := 0%Z |}.

Section Orchestrator.
Variable env : Env.
(** [this.browserPool.getHtmlPath()] and [this.maxRetries]. *)
Variable pool_html : string.
Variable maxRetries : number.
(** [path.relative] and [path.dirname] of node, the latter on a job id. *)
Variable relative : path -> path -> path.
Variable dirname : string -> path.
(** The [concurrency] that the constructor hands to [PQueue]. *)
Variable concurrency : nat.

Abbreviation Orc := (M Orch).

(** The body of the outer [try]: it yields the value [runWithRetry]
    returns from inside the loop. *)
Definition attempt_once (config : SimulationConfig) (attempt : number)
    : Orc SimulationMetadata :=
  page <- perform_page env (InAttempt attempt) AcquirePage ;;
  try_finally
    (metadata <- perform_metadata env (InAttempt attempt)
                   (RunSimulation page pool_html config) ;;
     t <- now env ;;
     modify (with_job (id config) (mark_completed t)) ;;;
     modify count_completed ;;;
     ret metadata)
    (perform_unit env (InAttempt attempt) (ReleasePage page)).

(** The [catch] block of the outer [try]. *)
Definition on_failure (config : SimulationConfig) (attempt : number) (msg : string)
    : Orc unit :=
  modify (with_job (id config) (note_failure msg)) ;;;
  if (attempt <? maxRetries)%Z then
    sleep (InAttempt attempt) (1000 * (attempt + 1))%Z
  else
    t <- now env ;;
    modify (with_job (id config) (mark_failed t)) ;;;
    modify count_failed ;;;
    try_catch
      (perform_unit env (InAttempt attempt) (Mkdir (outputDir config)) ;;;
       o <- get ;;
       stamp <- now env ;;
       match jobs o !! id config with
       | None => throw "TypeError"
       | Some job =>
           perform_unit env (InAttempt attempt)
             (WriteFile (outputDir config ++ ["error.json"])
                (ErrorDoc {| er_id := id config;
                             er_error := default "" (error job);
                             er_retryCount := retryCount job;
                             er_timestamp := stamp |}))
       end)
      (fun _ => ret tt).

(** The [for] over attempts: [k] iterations are left, the next one is
    [attempt].  [None] is the [return null] after the loop. *)
Fixpoint attempts (config : SimulationConfig) (k : nat) (attempt : number)
    : Orc (option SimulationMetadata) :=
  match k with
  | O => ret None
  | S k' =>
      r <- try_catch
             (metadata <- attempt_once config attempt ;; ret (Some metadata))
             (fun msg => on_failure config attempt msg ;;; ret None) ;;
      match r with
      | Some metadata => ret (Some metadata)
      | None => attempts config k' (attempt + 1)%Z
      end
  end.

Definition runWithRetry (config : SimulationConfig) : Orc (option SimulationMetadata) :=
  o <- get ;;
  match jobs o !! id config with
  | None => throw "TypeError"
  | Some _ =>
      t <- now env ;;
      modify (with_job (id config) (mark_running t)) ;;;
      attempts config (Z.to_nat (maxRetries + 1)) 0%Z
  end.

(** [this.jobs.set(fullConfig.id, {...})] for every specification. *)
Definition register_jobs (sims : list JobSpec) (dflt : option PartialConfig)
    (o : Orch) : Orch :=
  foldl (fun o' job =>
           let fullConfig := mergeWithDefaults job dflt in
           with_jobs (insert (id fullConfig) (pending_job fullConfig)) o')
        o sims.

(** *** The retry wrapper between its [await]s

    The queue runs up to [concurrency] wrappers at once, and between two
    [await]s of one of them the others may go on.  A [RetryK] is a call of
    [runWithRetry] suspended at an [await], or come to its end: [attempt] is
    the iteration of the loop it is in and [k] the number of iterations left
    after that one. *)
Inductive RetryK :=
  | AwaitAcquire (k : nat) (attempt : number)
  | AwaitRun (k : nat) (attempt : number) (page : Page)
  | AwaitRelease (k : nat) (attempt : number) (page : Page)
      (pending : Res SimulationMetadata)
  | AwaitTimer (k : nat) (attempt : number)
  | AwaitMkdir (k : nat) (attempt : number)
  | AwaitWrite (k : nat) (attempt : number) (record : ErrorRecord)
  | Returned (result : option SimulationMetadata).

(** The head of the [for]: with no iteration left the loop is over and the
    wrapper returns [null]; otherwise it awaits a page. *)
Definition next_attempt (k : nat) (attempt : number) : RetryK :=
  match k with
  | O => Returned None
  | S k' => AwaitAcquire k' attempt
  end.

(** From the call of [runWithRetry] to its first [await]. *)
Definition retry_begin (config : SimulationConfig) : Orc RetryK :=
  o <- get ;;
  match jobs o !! id config with
  | None => throw "TypeError"
  | Some _ =>
      t <- now env ;;
      modify (with_job (id config) (mark_running t)) ;;;
      ret (next_attempt (Z.to_nat (maxRetries + 1)) 0%Z)
  end.

(** The [catch] block of the outer [try], up to its first [await]. *)
Definition retry_catch (config : SimulationConfig) (k : nat) (attempt : number)
    (msg : string) : Orc RetryK :=
  modify (with_job (id config) (note_failure msg)) ;;;
  if (attempt <? maxRetries)%Z then
    ret (AwaitTimer k attempt)
  else
    t <- now env ;;
    modify (with_job (id config) (mark_failed t)) ;;;
    modify count_failed ;;;
    ret (AwaitMkdir k attempt).

(** The awaited call settles and the wrapper goes on to its next [await].
    In [AwaitRelease] the completion of the inner [try] is pending: it
    stands if the release in the [finally] block goes through. *)
Definition retry_resume (config : SimulationConfig) (K : RetryK) : Orc RetryK :=
  match K with
  | AwaitAcquire k attempt =>
      try_catch
        (page <- perform_page env (InAttempt attempt) AcquirePage ;;
         ret (AwaitRun k attempt page))
        (retry_catch config k attempt)
  | AwaitRun k attempt page =>
      try_catch
        (metadata <- perform_metadata env (InAttempt attempt)
                       (RunSimulation page pool_html config) ;;
         t <- now env ;;
         modify (with_job (id config) (mark_completed t)) ;;;
         modify count_completed ;;;
         ret (AwaitRelease k attempt page (Done metadata)))
        (fun msg => ret (AwaitRelease k attempt page (Throw msg)))
  | AwaitRelease k attempt page pending =>
      try_catch
        (perform_unit env (InAttempt attempt) (ReleasePage page) ;;;
         match pending with
         | Done metadata => ret (Returned (Some metadata))
         | Throw msg => throw msg
         end)
        (retry_catch config k attempt)
  | AwaitTimer k attempt =>
      sleep (InAttempt attempt) (1000 * (attempt + 1))%Z ;;;
      ret (next_attempt k (attempt + 1)%Z)
  | AwaitMkdir k attempt =>
      try_catch
        (perform_unit env (InAttempt attempt) (Mkdir (outputDir config)) ;;;
         o <- get ;;
         stamp <- now env ;;
         match jobs o !! id config with
         | None => throw "TypeError"
         | Some job =>
             ret (AwaitWrite k attempt
                    {| er_id := id config;
                       er_error := default "" (error job);
                       er_retryCount := retryCount job;
                       er_timestamp := stamp |})
         end)
        (fun _ => ret (next_attempt k (attempt + 1)%Z))
  | AwaitWrite k attempt record =>
      try_catch
        (perform_unit env (InAttempt attempt)
           (WriteFile (outputDir config ++ ["error.json"]) (ErrorDoc record)))
        (fun _ => ret tt) ;;;
      ret (next_attempt k (attempt + 1)%Z)
  | Returned result => ret (Returned result)
  end.

(** One wrapper run on its own from [K] to its end, in at most [fuel]
    resumptions. *)
Fixpoint retry_drive (fuel : nat) (config : SimulationConfig) (K : RetryK)
    : Orc (option SimulationMetadata) :=
  match K, fuel with
  | Returned result, _ => ret result
  | _, O => throw "out of fuel"
  | _, S fuel' => K' <- retry_resume config K ;; retry_drive fuel' config K'
  end.

(** *** The queue

    A task of the queue is the function handed to [queue.add] for the job at
    [task_index] of [config.simulations]: it awaits [runWithRetry] and then
    pushes the metadata, if any, onto [results]. *)
Record Task := mkTask {
  task_index : nat;
  task_config : SimulationConfig;
  task_state : RetryK
}.

(** The batch while its queue is at work.  [q_waiting] are the jobs added
    and not yet started, in the order they were added; [q_running] the tasks
    started and not yet settled; [q_settled] lists, in the order they
    settled, the promises of [promises] by their index, each with the value
    it resolved to; [q_rejected] is set once a task has thrown, which
    rejects the [Promise.all]. *)
Record QueueSys := mkQueue {
  q_world : World Orch;
  q_waiting : list (nat * SimulationConfig);
  q_running : list Task;
  q_results : list SimulationMetadata;
  q_settled : list (nat * option SimulationMetadata);
  q_rejected : option string
}.

(** What the event loop does next: the queue starts the job that has waited
    longest, or the [i]-th running task goes on, the call it awaits having
    settled.  Which move comes next is not up to the scheduler: the awaited
    calls settle in any order, and the queue starts a waiting job once a
    task has left it.  Every order in which [p-queue] runs the tasks is a
    list of these moves. *)
Inductive Move :=
  | Start
  | Continue (i : nat).

Definition queue_reject (msg : string) (w : World Orch) (s : QueueSys) : QueueSys :=
  {| q_world := w; q_waiting := q_waiting s; q_running := q_running s;
     q_results := q_results s; q_settled := q_settled s; q_rejected := Some msg |}.

(** One move.  A job is started only while fewer than [concurrency] tasks
    are running.  A task whose wrapper has returned pushes its metadata
    onto [results], settles its promise and leaves the queue.  A move that
    cannot be made is [None]. *)
Definition queue_move (m : Move) (s : QueueSys) : option QueueSys :=
  match m with
  | Start =>
      match q_waiting s with
      | [] => None
      | (i, c) :: waiting =>
          if decide (length (q_running s) < concurrency) then
            match retry_begin c (q_world s) with
            | (Done K, w) =>
                Some {| q_world := w; q_waiting := waiting;
                        q_running := q_running s ++ [mkTask i c K];
                        q_results := q_results s; q_settled := q_settled s;
                        q_rejected := q_rejected s |}
            | (Throw msg, w) =>
                Some (queue_reject msg w
                        {| q_world := w; q_waiting := waiting;
                           q_running := q_running s; q_results := q_results s;
                           q_settled := q_settled s; q_rejected := q_rejected s |})
            end
          else None
      end
  | Continue i =>
      match q_running s !! i with
      | None => None
      | Some task =>
          match task_state task with
          | Returned result =>
              Some {| q_world := q_world s; q_waiting := q_waiting s;
                      q_running := delete i (q_running s);
                      q_results := q_results s ++ option_list result;
                      q_settled := q_settled s ++ [(task_index task, result)];
                      q_rejected := q_rejected s |}
          | K =>
              match retry_resume (task_config task) K (q_world s) with
              | (Done K', w) =>
                  Some {| q_world := w; q_waiting := q_waiting s;
                          q_running :=
                            <[i := mkTask (task_index task) (task_config task) K']>
                              (q_running s);
                          q_results := q_results s; q_settled := q_settled s;
                          q_rejected := q_rejected s |}
              | (Throw msg, w) =>
                  Some (queue_reject msg w
                          {| q_world := w; q_waiting := q_waiting s;
                             q_running := delete i (q_running s);
                             q_results := q_results s; q_settled := q_settled s;
                             q_rejected := q_rejected s |})
              end
          end
      end
  end.

Fixpoint run_schedule (schedule : list Move) (s : QueueSys) : option QueueSys :=
  match schedule with
  | [] => Some s
  | m :: schedule' =>
      match queue_move m s with
      | None => None
      | Some s' => run_schedule schedule' s'
      end
  end.

(** The jobs of a batch as they are added to the queue. *)
Definition queue_jobs (config : BatchConfig) : list (nat * SimulationConfig) :=
  imap (fun i job => (i, mergeWithDefaults job (defaults config))) (simulations config).

Definition queue_init (config : BatchConfig) (w : World Orch) : QueueSys :=
  {| q_world := w; q_waiting := queue_jobs config; q_running := [];
     q_results := []; q_settled := []; q_rejected := None |}.

(** The queue has nothing left to do. *)
Definition queue_idle (s : QueueSys) : bool :=
  match q_waiting s, q_running s with
  | [], [] => true
  | _, _ => false
  end.

Definition index_entry (config : BatchConfig) (m : SimulationMetadata) : IndexEntry :=
  {| ie_id := md_id m;
     ie_preset := md_preset m;
     ie_path := relative (bc_outputDir config) (dirname (md_id m)) |}.

(** What [runBatch] does before it hands the jobs to the queue. *)
Definition batch_start (config : BatchConfig) : Orc unit :=
  t0 <- now env ;;
  modify (start_batch t0) ;;;
  modify (register_jobs (simulations config) (defaults config)) ;;;
  perform_unit env InBatch (Mkdir (bc_outputDir config)).

(** What [runBatch] does once every queued job has resolved. *)
Definition write_index (config : BatchConfig) (results : list SimulationMetadata)
    : Orc unit :=
  generated <- now env ;;
  o <- get ;;
  t <- now env ;;
  perform_unit env InBatch
    (WriteFile (bc_outputDir config ++ ["index.json"])
       (IndexDoc {| ix_generated := generated;
                    ix_total_simulations := Z.of_nat (length (simulations config));
                    ix_completed := completedCount o;
                    ix_failed := failedCount o;
                    ix_elapsed_ms := (t - orch_startTime o)%Z;
                    ix_simulations := map (index_entry config) results |})).

(** [runBatch] under a schedule, the order in which the event loop lets the
    tasks of the queue go on; the scheduler has no say in it.  The
    [Promise.all] is through when the queue is idle, or as soon as a task has
    thrown.  A schedule with a move that cannot be made, or one that stops
    before the queue is idle, is not a run of the batch: [None]. *)
Definition runBatch (config : BatchConfig) (schedule : list Move)
    : World Orch -> option (Res (list SimulationMetadata) * World Orch) :=
  fun w =>
    match batch_start config w with
    | (Throw msg, w1) => Some (Throw msg, w1)
    | (Done _, w1) =>
        match run_schedule schedule (queue_init config w1) with
        | None => None
        | Some s =>
            match q_rejected s with
            | Some msg => Some (Throw msg, q_world s)
            | None =>
                if queue_idle s then
                  Some ((write_index config (q_results s) ;;; ret (q_results s)) (q_world s))
                else None
            end
        end
    end.
End Orchestrator.

Definition new_orchestrator : Orch :=
  {| jobs := ∅; orch_startTime := 0%Z; completedCount := 0%Z; failedCount := 0%Z |}.

(** ** Reading a log *)

(** What a logged call of the frame loop stands for: the frame it belongs to
    and, inside the intervention loop, the object it concerns. *)
Inductive Step :=
  | Applied (f : number) (r : nat)
  | TimeRead (f : number) (r : nat) (t : option number)
  | Stepped (f : number)
  | Captured (f : number)
  | Saved (f : number) (file : path)
  | Annotated (f : number)
  | Elsewhere.

Definition step_of (e : Event) : Step :=
  match ev_site e, ev_call e with
  | InIntervention f r, Evaluate _ [ApplyBrush _ _ _ _ _] => Applied f r
  | InIntervention f r, Evaluate _ [GetTime] =>
      TimeRead f r (match ev_answer e with ANum t => Some t | _ => None end)
  | InFrame f, Evaluate _ [StepN _; Render] => Stepped f
  | InFrame f, Evaluate _ [CaptureFrame] => Captured f
  | InFrame f, WriteFile p _ => Saved f p
  | InFrame f, Evaluate _ [GetTime] => Annotated f
  | _, _ => Elsewhere
  end.



(** [objs[r].simulationTime] *)
Definition recorded_time (objs : list Intervention) (r : nat) : option number :=
  objs !! r ≫= simulationTime.

(** What one iteration of the frame loop is expected to do. *)
Definition frame_block (objs : list Intervention) (dir : path) (refs : list nat)
    (f : number) : list Step :=
  flat_map (fun r => [Applied f r; TimeRead f r (recorded_time objs r)])
           (filter (fun r => frame_of objs r = f) refs)
  ++ [Stepped f; Captured f; Saved f (dir ++ [frame_filename f]); Annotated f].

(** The name of [file] when it lies directly in [dir]. *)
Definition file_in (dir : path) (file : path) : option string :=
  match last file with
  | Some name => if decide (file = dir ++ [name]) then Some name else None
  | None => None
  end.

(** The files a log shows written into [dir], in the order of the writes. *)
Definition writes_in (dir : path) (evs : list Event) : list string :=
  omap (fun e => match ev_call e, ev_answer e with
                 | WriteFile file _, AOk => file_in dir file
                 | _, _ => None
                 end) evs.

(** A name made of exactly six decimal digits and the extension. *)
Definition is_digit (c : ascii) : bool :=
  (48 <=? nat_of_ascii c) && (nat_of_ascii c <=? 57).


(** An event of the intervention loop of frame [f]: an evaluation in the
    page on behalf of an object scheduled at [f]. *)
Definition intervention_event (objs : list Intervention) (page : Page) (f : number)
    (e : Event) : Prop :=
  exists ref script, ev_site e = InIntervention f ref /\
    ev_call e = Evaluate page script /\ frame_of objs ref = f.

(** An event of one of the [k] frame iterations from [f] on. *)
Definition loop_event (objs : list Intervention) (page : Page) (f : number) (k : nat)
    (e : Event) : Prop :=
  exists g, (f <= g < f + Z.of_nat k)%Z /\
    (intervention_event objs page g e \/ ev_site e = InFrame g).

(** ** Specifications of computations

    [emits P I m]: whatever [m] does and however it ends, it only appends to
    the log, every event it appends satisfies [P] (read against the state
    [m] started in), and the state it ends in is [I]-related to the one it
    started in. *)
Definition emits {S A} (P : S -> Event -> Prop) (I : S -> S -> Prop) (m : M S A) : Prop :=
  forall w r w', m w = (r, w') ->
    exists evs, log w' = log w ++ evs /\ Forall (P (st w)) evs /\ I (st w) (st w').

(** [I] is a preorder and [P] may be read against any earlier state. *)
Class Stable {S} (P : S -> Event -> Prop) (I : S -> S -> Prop) : Prop := {
  stable_refl : forall s, I s s;
  stable_trans : forall s1 s2 s3, I s1 s2 -> I s2 s3 -> I s1 s3;
  stable_mono : forall s s' e, I s s' -> P s' e -> P s e
}.

(** The state relation of a run: no object changes its frame, and an object
    scheduled outside the frames [lo .. lo+k-1] is not written at all. *)
Definition frames_kept (lo : number) (k : nat) (s s' : list Intervention) : Prop :=
  (forall i, frame_of s' i = frame_of s i) /\
  (forall i, ~ (lo <= frame_of s i < lo + Z.of_nat k)%Z -> s' !! i = s !! i).

(** An event of a run over the frames [0 .. k-1]. *)
Definition run_event (page : Page) (k : nat) (objs : list Intervention) (e : Event) : Prop :=
  ev_site e = InSetup \/ ev_site e = InMetadata \/ loop_event objs page 0%Z k e.

(** A call of the set-up phase of a run: none of them writes a file. *)
Definition setup_event (e : Event) : Prop :=
  ev_site e = InSetup /\ forall p d, ev_call e <> WriteFile p d.

(** The number a string of decimal digits denotes. *)
Definition digit_value (c : ascii) : N := (N.of_nat (nat_of_ascii c) - 48)%N.

Fixpoint dec_value_go (acc : N) (s : string) : N :=
  match s with
  | EmptyString => acc
  | String c s' => dec_value_go (10 * acc + digit_value c)%N s'
  end.

Definition dec_value (s : string) : N := dec_value_go 0%N s.

Definition all_digits (s : string) : Prop :=
  forallb is_digit (list_ascii_of_string s) = true.

(** An environment in which no call is ever rejected. *)
Definition never_fails (env : Env) : Prop :=
  forall history c, env_fails env history c = None.

(** ** Sample inputs *)

Definition quiet_env : Env :=
  {| env_fails := fun _ _ => None;
     env_num := fun h => Z.of_nat (length h);
     env_str := fun _ => "data:image/png;base64,AAAA";
     env_options := fun _ => [];
     env_page := fun h => mkPage (length h) 0;
     env_metadata := fun _ =>
       mkMetadata "job" "GrayScott" 0%Z "1.0.0" [] 3%Z 10%Z 0%Z (512, 512)%Z None [] [];
     env_clock := fun h => Z.of_nat (length h) |}.

Definition brush0 : BrushParams := mkBrush 0%Z 0%Z SpU 1%Z 1%Z None None.

(** Three frames; interventions at frames 2, 0, 7 and 2, in that order. *)
Definition demo_config : SimulationConfig :=
  {| id := "job"; preset := "GrayScott"; options := Some [("dt", JNum 1%Z)];
     totalFrames := 3%Z; timestepsPerFrame := 10%Z;
     interventions := Some [mkIntervention 2%Z None Brush brush0;
                            mkIntervention 0%Z None Brush brush0;
                            mkIntervention 7%Z None Brush brush0;
                            mkIntervention 2%Z None Brush brush0];
     outputDir := ["out"; "GrayScott"; "job"]; randomSeed := Some 42%Z;
     resolution := None |}.

Definition demo_page : Page := mkPage 0 0.

(** A job of 1000001 frames. *)
Definition long_config : SimulationConfig :=
  {| id := "long"; preset := "GrayScott"; options := None;
     totalFrames := 1000001%Z; timestepsPerFrame := 1%Z;
     interventions := None;
     outputDir := ["out"; "GrayScott"; "long"]; randomSeed := None;
     resolution := None |}.

(** [completes Inv Q m]: started in a state satisfying [Inv], [m] returns
    normally, with a value satisfying [Q] and in a state satisfying [Inv]. *)
Definition completes {S A} (Inv : S -> Prop) (Q : A -> Prop) (m : M S A) : Prop :=
  forall w, Inv (st w) -> exists a w', m w = (Done a, w') /\ Inv (st w') /\ Q a.

(** ** Frame file names *)

(** [name] is the index [i] written with exactly six decimal digits. *)
Definition six_digit_name (i : number) (name : string) : Prop :=
  exists digits, name = digits +:+ ".png" /\ all_digits digits /\
    Z.of_N (dec_value digits) = i /\ String.length digits = 6.

(** [name] is the index [i] in decimal, filled with zeros on the left up to
    six digits: longer only when [i] does not fit in six. *)
Definition padded_name (i : number) (name : string) : Prop :=
  exists digits, name = digits +:+ ".png" /\ all_digits digits /\
    Z.of_N (dec_value digits) = i /\ 6 <= String.length digits /\
    ((i < 1000000)%Z -> String.length digits = 6).

(** ** Seed injection *)

(** The evaluation that sets [window.VPDE_SEED], answered normally. *)
Definition seed_event (page : Page) (seed : number) : Event :=
  mkEvent InSetup (Evaluate page [SetSeed seed]) AOk.

(** Any other evaluation in the page: option overrides, [updateProblem],
    [reset], and everything the frame loop and the metadata collection do. *)
Definition other_evaluation (seed : number) (e : Event) : Prop :=
  exists p script, ev_call e = Evaluate p script /\ script <> [SetSeed seed].

(** The write of [metadata.json], answered normally. *)
Definition metadata_written (config : SimulationConfig) (md : SimulationMetadata) : Event :=
  mkEvent InMetadata
    (WriteFile (outputDir config ++ ["metadata.json"]) (MetadataDoc md)) AOk.

(** ** Reading the log of the scheduler *)

Definition is_run (e : Event) : bool :=
  match ev_call e with
  | RunSimulation _ _ _ => true
  | _ => false
  end.

(** How many times the runner was invoked. *)
Definition count_runs (evs : list Event) : nat := length (List.filter is_run evs).

(** The writes of the job's [error.json] that were attempted, with the
    document and the answer of each. *)
Definition error_writes (config : SimulationConfig) (evs : list Event)
    : list (Doc * Answer) :=
  omap (fun e => match ev_call e with
                 | WriteFile file d =>
                     if decide (file = outputDir config ++ ["error.json"])
                     then Some (d, ev_answer e) else None
                 | _ => None
                 end) evs.

(** The [error.json] documents that were written. *)
Definition error_docs (config : SimulationConfig) (evs : list Event) : list Doc :=
  omap (fun da => match snd da with AOk => Some (fst da) | _ => None end)
       (error_writes config evs).

(** The three calls of an attempt that obtained a page. *)
Definition attempt_events (html : string) (config : SimulationConfig) (attempt : number)
    (page : Page) (a_run a_release : Answer) : list Event :=
  [mkEvent (InAttempt attempt) AcquirePage (APage page);
   mkEvent (InAttempt attempt) (RunSimulation page html config) a_run;
   mkEvent (InAttempt attempt) (ReleasePage page) a_release].

(** An environment in which the file system never rejects. *)
Definition fs_reliable (env : Env) : Prop :=
  forall history, (forall dir, env_fails env history (Mkdir dir) = None) /\
                  (forall file d, env_fails env history (WriteFile file d) = None).

(** An environment in which every call the scheduler makes is rejected. *)
Definition failing_env : Env :=
  {| env_fails := fun _ _ => Some "rejected";
     env_num := fun _ => 0%Z;
     env_str := fun _ => "";
     env_options := fun _ => [];
     env_page := fun _ => demo_page;
     env_metadata := env_metadata quiet_env;
     env_clock := fun h => Z.of_nat (length h) |}.

(** An orchestrator that has registered [demo_config], as [runBatch] does. *)
Definition demo_orchestrator : World Orch :=
  mkWorld (with_jobs (insert (id demo_config) (pending_job demo_config)) new_orchestrator) [].

Definition is_acquire (e : Event) : bool :=
  match ev_call e with
  | AcquirePage => true
  | _ => false
  end.

(** How many attempts were started. *)
Definition count_attempts (evs : list Event) : nat := length (List.filter is_acquire evs).

(** No attempt in [evs] succeeded: wherever a run returned its metadata, the
    release that followed in the same attempt was rejected. *)
Definition every_attempt_failed (evs : list Event) : Prop :=
  forall site page html config md,
    mkEvent site (RunSimulation page html config) (AMetadata md) ∈ evs ->
    exists msg, mkEvent site (ReleasePage page) (ARejected msg) ∈ evs.

(** What an attempt leaves of the job's entry in [jobs]. *)
Definition entry_kept (job_id : string) (s s' : Orch) : Prop :=
  forall job, jobs s !! job_id = Some job ->
    exists job', jobs s' !! job_id = Some job' /\ retryCount job' = retryCount job.

(** The calls by which a permanently failed job persists its error record:
    the directory is created, then [error.json] is written with retry count
    [n]; a rejection of either is swallowed, and one of the directory
    creation skips the write. *)
Definition persisted (env : Env) (config : SimulationConfig) (n : number)
    (evs : list Event) : Prop :=
  exists site,
    ((exists msg, evs = [mkEvent site (Mkdir (outputDir config)) (ARejected msg)]) \/
     (exists e a,
        evs = [mkEvent site (Mkdir (outputDir config)) AOk;
               mkEvent site (WriteFile (outputDir config ++ ["error.json"]) (ErrorDoc e)) a] /\
        er_id e = id config /\ er_retryCount e = n /\
        (fs_reliable env -> a = AOk))) /\
    (fs_reliable env ->
     exists e, evs = [mkEvent site (Mkdir (outputDir config)) AOk;
                      mkEvent site (WriteFile (outputDir config ++ ["error.json"]) (ErrorDoc e))
                        AOk]).

(** The pages an event list shows handed out by the pool, and the pages it
    shows given back, each in the order of the calls. *)
Definition acquired (evs : list Event) : list Page :=
  omap (fun e => match ev_call e, ev_answer e with
                 | AcquirePage, APage p => Some p
                 | _, _ => None
                 end) evs.

Definition released (evs : list Event) : list Page :=
  omap (fun e => match ev_call e with
                 | ReleasePage p => Some p
                 | _ => None
                 end) evs.

(** The state relation of a job's retry wrapper: no entry of [jobs] is
    removed and the start time of the batch is left alone. *)
Definition jobs_kept (s s' : Orch) : Prop :=
  (forall k, is_Some (jobs s !! k) -> is_Some (jobs s' !! k)) /\
  orch_startTime s' = orch_startTime s.

(** The only file a job's retry wrapper writes is an [error.json]. *)
Definition only_error_writes (_ : Orch) (e : Event) : Prop :=
  forall file d, ev_call e = WriteFile file d -> last file = Some "error.json".

(** The writes of the batch's [index.json] that a log shows. *)
Definition index_writes (config : BatchConfig) (evs : list Event) : list (Doc * Answer) :=
  omap (fun e => match ev_call e with
                 | WriteFile file d =>
                     if decide (file = bc_outputDir config ++ ["index.json"])
                     then Some (d, ev_answer e) else None
                 | _ => None
                 end) evs.




(** Stand-ins for [path.relative] and [path.dirname]. *)
Definition demo_relative (from to : path) : path := to.
Definition demo_dirname (s : string) : path := ["."].

(** What the log [evs] of a batch shows for a job whose retry wrapper came
    back with [o].  When [o] is a metadata document: an attempt of that job
    whose acquisition, run and release all went through, the run returning
    that document; the three calls come in this order, the calls of other
    jobs possibly in between.  When [o] is [null] and [maxRetries >= 0]: the
    job came to the end of its last attempt, number [maxRetries], after
    which it creates its output directory for the error record. *)
Definition job_outcome (html : string) (maxRetries : number) (evs : list Event)
    (c : SimulationConfig) (o : option SimulationMetadata) : Prop :=
  match o with
  | Some md =>
      exists attempt page,
        sublist (attempt_events html c attempt page (AMetadata md) AOk) evs
  | None =>
      (0 <= maxRetries)%Z ->
      exists a, mkEvent (InAttempt maxRetries) (Mkdir (outputDir c)) a ∈ evs
  end.


(** The write of [index.json], answered normally. *)
Definition index_written (config : BatchConfig) (ix : BatchIndex) : Event :=
  mkEvent InBatch (WriteFile (bc_outputDir config ++ ["index.json"]) (IndexDoc ix)) AOk.

(** ** Invariants of the pool *)

(** The browser a suspended release will still put a page of back into the
    pool. *)
Definition k_browsers (k : ReleaseK) : list Browser :=
  match k with
  | KReset p => [page_browser p]
  | KRestart _ _ => []
  | KCreate b => [b]
  end.

(** The browsers that have a page out with a caller, in the available list
    or on its way back. *)
Definition live_browsers (s : PoolSys) : list Browser :=
  map page_browser (sys_leased s)
  ++ map page_browser (availablePages (st (sys_world s)))
  ++ flat_map k_browsers (sys_inflight s).

(** Lease counters and the browsers they belong to. *)
Record counted (config : BrowserPoolConfig) (s : PoolSys) : Prop := {
  (** a lease counter that is stored is below the threshold *)
  inv_counts : forall b c,
    simCountPerBrowser (st (sys_world s)) !! b = Some c -> (0 <= c < maxSims config)%Z;
  (** every browser in use is counted *)
  inv_live : forall b,
    b ∈ live_browsers s -> is_Some (simCountPerBrowser (st (sys_world s)) !! b);
  (** no browser has two pages around *)
  inv_nodup : NoDup (live_browsers s);
  (** the handles that are counted have been handed out by puppeteer *)
  inv_fresh : forall b,
    is_Some (simCountPerBrowser (st (sys_world s)) !! b) ->
    b < next_browser (st (sys_world s))
}.

(** The pages are all accounted for, until [shutdown] clears the sets. *)
Definition accounted (config : BrowserPoolConfig) (s : PoolSys) : Prop :=
  (size (busyPages (st (sys_world s)))
     + length (availablePages (st (sys_world s)))
     + length (sys_inflight s) <= Z.to_nat (poolSize config) /\
   forall p, p ∈ sys_leased s -> p ∈ busyPages (st (sys_world s)))
  \/ (isShuttingDown (st (sys_world s)) = true /\ busyPages (st (sys_world s)) = ∅).

(** The calls by which a browser is torn down and a new one is spawned. *)
Definition is_teardown_or_launch (e : Event) : bool :=
  match ev_call e with
  | Launch _ | BrowserClose _ => true
  | _ => false
  end.

(** One job on the pool, taken alone: acquire a page, hold it, release it.
    The result tells whether the release spawned a browser. *)
Definition lease_cycle (env : Env) (config : BrowserPoolConfig) (w : World Pool)
    : option (bool * World Pool) :=
  match acquirePage_poll (st w) with
  | Granted page pool' =>
      match releasePage env config page (mkWorld pool' (log w)) with
      | (Done _, w') =>
          Some (existsb is_teardown_or_launch (drop (length (log w)) (log w')), w')
      | (Throw _, _) => None
      end
  | _ => None
  end.

(** [n] jobs one after the other: the numbers (from 1) of the leases whose
    release recycled the browser. *)
Fixpoint recycled_leases (env : Env) (config : BrowserPoolConfig) (n i : nat)
    (w : World Pool) : list nat :=
  match n with
  | O => []
  | S n' =>
      match lease_cycle env config w with
      | Some (true, w') => i :: recycled_leases env config n' (S i) w'
      | Some (false, w') => recycled_leases env config n' (S i) w'
      | None => []
      end
  end.

Definition pool_config (n : number) (threshold : option number) : BrowserPoolConfig :=
  {| poolSize := n; headless := true; width := 512%Z; height := 512%Z;
     htmlPath := "index.html"; maxSimsPerBrowser := threshold;
     useSwiftShader := None |}.

(** The pool of [config] once [initialize] has run in a quiet environment. *)
Definition started_pool (config : BrowserPoolConfig) : World Pool :=
  snd (initialize quiet_env config (mkWorld empty_pool [])).

(** What a release that recycles the browser of [page] leaves behind: the
    old handle is no longer counted, the one just launched is counted from
    zero, and its first page is the one that becomes available. *)
Definition recycled (config : BrowserPoolConfig) (page : Page) (w w' : World Pool) : Prop :=
  let b := page_browser page in
  let nb := next_browser (st w) in
  let np := mkPage (next_page (st w)) nb in
  simCountPerBrowser (st w') !! b = None /\
  simCountPerBrowser (st w') !! nb = Some 0%Z /\
  browsers (st w') = remove_first b (browsers (st w)) ++ [nb] /\
  availablePages (st w') = availablePages (st w) ++ [np] /\
  exists a1 a2,
    log w' = log w ++
      [mkEvent InPool (PageClose page) a1; mkEvent InPool (BrowserClose b) a2;
       mkEvent InPool (Launch (default true (useSwiftShader config))) AOk;
       mkEvent InPool (NewPage nb) AOk; mkEvent InPool (SetViewport np) AOk].

(** What a release below the threshold leaves behind: the browser stays, with
    one more lease on its counter, and a page of it becomes available. *)
Definition kept (page : Page) (c : number) (w w' : World Pool) : Prop :=
  let b := page_browser page in
  simCountPerBrowser (st w') = <[b := (c + 1)%Z]> (simCountPerBrowser (st w)) /\
  browsers (st w') = browsers (st w) /\
  next_browser (st w') = next_browser (st w) /\
  (exists p, page_browser p = b /\
     availablePages (st w') = availablePages (st w) ++ [p]) /\
  existsb is_teardown_or_launch (drop (length (log w)) (log w')) = false.

(** The started pool after one caller has taken a page. *)
Definition leased_out (config : BrowserPoolConfig) : PoolSys :=
  match acquirePage_poll (st (started_pool config)) with
  | Granted page pool' =>
      mkSys (mkWorld pool' (log (started_pool config))) [] [page]
  | _ => mkSys (started_pool config) [] []
  end.


(** ** Interrupted runs *)

(** The quiet environment, except that the call made after [n] others is
    rejected. *)
Definition rejecting_at (n : nat) : Env :=
  {| env_fails := fun h _ => if length h =? n then Some "rejected" else None;
     env_num := env_num quiet_env;
     env_str := env_str quiet_env;
     env_options := env_options quiet_env;
     env_page := env_page quiet_env;
     env_metadata := env_metadata quiet_env;
     env_clock := env_clock quiet_env |}.



(** Frame [g]'s stepping, capture, save and annotation. *)
Definition frame_steps (dir : path) (g : number) : list Step :=
  [Stepped g; Captured g; Saved g (dir ++ [frame_filename g]); Annotated g].


(** Events of one phase, and the state relation of a phase that writes no
    object. *)
Definition at_site (site : Site) (_ : list Intervention) (e : Event) : Prop :=
  ev_site e = site.

Definition unchanged (s s' : list Intervention) : Prop := s' = s.

(** ** The pool seen from outside *)

(** [getStats()] *)
Record PoolStats := mkStats { total : nat; available : nat; busy : nat }.

Definition getStats (pool : Pool) : PoolStats :=
  {| total := length (browsers pool);
     available := length (availablePages pool);
     busy := size (busyPages pool) |}.

(** The three calls by which [initialize] sets up its [i]-th worker, when
    the handles handed out so far are [nb] browsers and [np] pages. *)
Definition worker_setup (config : BrowserPoolConfig) (nb np i : nat) : list Event :=
  [mkEvent InPool (Launch (default true (useSwiftShader config))) AOk;
   mkEvent InPool (NewPage (nb + i)) AOk;
   mkEvent InPool (SetViewport (mkPage (np + i) (nb + i))) AOk].

Definition is_close (e : Event) : bool :=
  match ev_call e with
  | PageClose _ | BrowserClose _ => true
  | _ => false
  end.

(** The counter a release of [page] stores, before it compares it with the
    threshold. *)
Definition release_count (pool : Pool) (page : Page) : number :=
  (default 0 (simCountPerBrowser pool !! page_browser page) + 1)%Z.

(** A pool with no page available, none held by a caller and no release
    under way. *)
Definition drained (s : PoolSys) : Prop :=
  availablePages (st (sys_world s)) = [] /\ sys_inflight s = [] /\ sys_leased s = [].

(** The environment of a machine on which no browser can be launched any more
    once the pool is set up. *)
Definition no_relaunch : Env :=
  {| env_fails := fun h c =>
       match c with
       | Launch _ => if 0 <? length h then Some "launch failed" else None
       | _ => None
       end;
     env_num := env_num quiet_env;
     env_str := env_str quiet_env;
     env_options := env_options quiet_env;
     env_page := env_page quiet_env;
     env_metadata := env_metadata quiet_env;
     env_clock := env_clock quiet_env |}.

(** The pages of the pool, wherever they are: held by a caller, available,
    or on their way back. *)
Definition pages_out (s : PoolSys) : nat :=
  length (sys_leased s) + length (availablePages (st (sys_world s)))
  + length (sys_inflight s).

(** ** Frames, annotations and what a run touches *)

(** The order of the sorted copy: by frame, and among equal frames by the
    position in [config.interventions]. *)
Definition frame_then_index (objs : list Intervention) (a b : nat) : Prop :=
  (frame_of objs a < frame_of objs b)%Z \/ (frame_of objs a = frame_of objs b /\ a < b).

Definition is_frame_event (e : Event) : bool :=
  match ev_site e with
  | InFrame _ => true
  | _ => false
  end.

(** The calls of the frame loop outside its intervention loop. *)
Definition frame_events (evs : list Event) : list Event :=
  filter (fun e => is_frame_event e = true) evs.

(** The four calls of frame [g] when its capture comes back as [dataUrl] and
    its time as [t]. *)
Definition frame_calls (page : Page) (config : SimulationConfig) (g : number)
    (shot : string * number) : list Event :=
  [mkEvent (InFrame g) (Evaluate page [StepN (timestepsPerFrame config); Render]) AOk;
   mkEvent (InFrame g) (Evaluate page [CaptureFrame]) (AStr (fst shot));
   mkEvent (InFrame g)
     (WriteFile (frames_dir config ++ [frame_filename g])
        (FrameImage (remove_prefix "data:image/png;base64," (fst shot)))) AOk;
   mkEvent (InFrame g) (Evaluate page [GetTime]) (ANum (snd shot))].

(** Two frames; interventions at frames 1, -1 and 0, in that order. *)
Definition early_config : SimulationConfig :=
  {| id := "early"; preset := "GrayScott"; options := None;
     totalFrames := 2%Z; timestepsPerFrame := 10%Z;
     interventions := Some [mkIntervention 1%Z None Brush brush0;
                            mkIntervention (-1)%Z None Brush brush0;
                            mkIntervention 0%Z None Brush brush0];
     outputDir := ["out"; "GrayScott"; "early"]; randomSeed := None;
     resolution := None |}.

(** A call on the page [page], or one that creates or writes a file under
    [dir]. *)
Definition confined (page : Page) (dir : path) (e : Event) : Prop :=
  match ev_call e with
  | Goto p _ | WaitForReady p | Evaluate p _ => p = page
  | Mkdir f | WriteFile f _ => dir `prefix_of` f
  | _ => False
  end.

Definition any_state (s s' : list Intervention) : Prop := True.

(** ** The books of the scheduler *)

Definition is_returned (e : Event) : bool :=
  match ev_call e, ev_answer e with
  | RunSimulation _ _ _, AMetadata _ => true
  | _, _ => false
  end.

(** How many runs returned their metadata. *)
Definition count_returned (evs : list Event) : nat := length (List.filter is_returned evs).

(** The delays of the timers that were set, in order. *)
Definition sleeps (evs : list Event) : list number :=
  omap (fun e => match ev_call e with Sleep ms => Some ms | _ => None end) evs.

(** From [s] to [s'] the entry of [job_id] gained [dr] retries and kept its
    identity, the counters gained [dc] and [df], and nothing else moved. *)
Definition books (job_id : string) (dr dc df : Z) (s s' : Orch) : Prop :=
  (forall k, k <> job_id -> jobs s' !! k = jobs s !! k) /\
  (forall job, jobs s !! job_id = Some job ->
     exists job', jobs s' !! job_id = Some job' /\
       js_id job' = js_id job /\ js_config job' = js_config job /\
       retryCount job' = (retryCount job + dr)%Z) /\
  completedCount s' = (completedCount s + dc)%Z /\
  failedCount s' = (failedCount s + df)%Z /\
  orch_startTime s' = orch_startTime s.

(** An environment in which every release is rejected and nothing else. *)
Definition leaky_env : Env :=
  {| env_fails := fun _ c => match c with
                             | ReleasePage _ => Some "Navigation failed"
                             | _ => None
                             end;
     env_num := env_num quiet_env;
     env_str := env_str quiet_env;
     env_options := env_options quiet_env;
     env_page := env_page quiet_env;
     env_metadata := env_metadata quiet_env;
     env_clock := env_clock quiet_env |}.

(** ** What a run leaves on disk *)

(** The files a log shows passed to [writeFile], in the order of the calls,
    each with the answer the call got: a write that was rejected is listed
    as such. *)
Definition file_writes (evs : list Event) : list (path * Answer) :=
  omap (fun e => match ev_call e with
                 | WriteFile file _ => Some (file, ev_answer e)
                 | _ => None
                 end) evs.


(** The path of the file of frame [g]. *)
Definition frame_path (config : SimulationConfig) (g : number) : path :=
  frames_dir config ++ [frame_filename g].

(** The one write of [p] that was rejected with [msg], as the last call of
    [evs]. *)
Definition rejected_write (p : path) (msg : string) (evs : list Event)
    (tail : list (path * Answer)) : Prop :=
  tail = [(p, ARejected msg)] /\
  exists site d, last evs = Some (mkEvent site (WriteFile p d) (ARejected msg)).


(** An environment in which the third frame cannot be written. *)
Definition full_disk_env : Env :=
  {| env_fails := fun h c =>
       match c with
       | WriteFile _ (FrameImage _) =>
           if 15 <=? length h then Some "ENOSPC" else None
       | _ => None
       end;
     env_num := env_num quiet_env;
     env_str := env_str quiet_env;
     env_options := env_options quiet_env;
     env_page := env_page quiet_env;
     env_metadata := env_metadata quiet_env;
     env_clock := env_clock quiet_env |}.


(** ** Releases, whatever their outcome *)

(** What a release at the threshold leaves behind when it throws: the old
    browser is torn down and no longer counted, the launch of a replacement
    was attempted, and no page has become available.  Either the launch was
    rejected, and no browser takes the place of the old one, or the making
    of the first page of the new browser was rejected. *)
Definition abandoned (config : BrowserPoolConfig) (page : Page) (msg : string)
    (w w' : World Pool) : Prop :=
  let b := page_browser page in
  let nb := next_browser (st w) in
  let np := mkPage (next_page (st w)) nb in
  let launch := Launch (default true (useSwiftShader config)) in
  simCountPerBrowser (st w') !! b = None /\
  availablePages (st w') = availablePages (st w) /\
  exists a1 a2 tail,
    log w' = log w ++
      [mkEvent InPool (PageClose page) a1; mkEvent InPool (BrowserClose b) a2] ++ tail /\
    ((tail = [mkEvent InPool launch (ARejected msg)] /\
      browsers (st w') = remove_first b (browsers (st w))) \/
     ((tail = [mkEvent InPool launch AOk; mkEvent InPool (NewPage nb) (ARejected msg)] \/
       tail = [mkEvent InPool launch AOk; mkEvent InPool (NewPage nb) AOk;
               mkEvent InPool (SetViewport np) (ARejected msg)]) /\
      browsers (st w') = remove_first b (browsers (st w)) ++ [nb])).

(** What every release below the threshold leaves behind, whether it returns
    or throws: the browser stays, with one more lease on its counter, and
    nothing is closed or launched. *)
Definition stays (page : Page) (c : number) (w w' : World Pool) : Prop :=
  let b := page_browser page in
  simCountPerBrowser (st w') = <[b := (c + 1)%Z]> (simCountPerBrowser (st w)) /\
  browsers (st w') = browsers (st w) /\
  next_browser (st w') = next_browser (st w) /\
  existsb is_teardown_or_launch (drop (length (log w)) (log w')) = false.

(** The pool after [n] jobs have run on it one after the other. *)
Fixpoint after_leases (env : Env) (config : BrowserPoolConfig) (n : nat)
    (w : World Pool) : World Pool :=
  match n with
  | O => w
  | S n' =>
      match lease_cycle env config w with
      | Some (_, w') => after_leases env config n' w'
      | None => w
      end
  end.

(** The pool [w] after one caller has taken a page. *)
Definition holding (w : World Pool) : PoolSys :=
  match acquirePage_poll (st w) with
  | Granted page pool' => mkSys (mkWorld pool' (log w)) [] [page]
  | _ => mkSys w [] []
  end.

(** The 50th lease on a pool of one browser whose configuration leaves the
    threshold out: 49 jobs have run and a caller holds the page again. *)
Definition fiftieth_lease (env : Env) : PoolSys :=
  holding (after_leases env (pool_config 1%Z None) 49 (started_pool (pool_config 1%Z None))).

(** ** A set-up cut short *)

(** The calls of a worker's set-up that was cut short by the rejection [msg]
    of its launch, of the opening of its page or of the sizing of that page;
    [built] tells whether the browser had been launched. *)
Definition broken_setup (config : BrowserPoolConfig) (nb np i : nat) (msg : string)
    (built : bool) (tail : list Event) : Prop :=
  let launch := mkEvent InPool (Launch (default true (useSwiftShader config))) in
  if built then
    tail = [launch AOk; mkEvent InPool (NewPage (nb + i)) (ARejected msg)] \/
    tail = [launch AOk; mkEvent InPool (NewPage (nb + i)) AOk;
            mkEvent InPool (SetViewport (mkPage (np + i) (nb + i))) (ARejected msg)]
  else tail = [launch (ARejected msg)].

(** ** The waits of the retry wrapper in its log *)

(** The calls of attempt [k] when it threw: the acquisition was rejected, or
    a page was obtained and the run or the release that followed was
    rejected. *)
Definition failed_attempt (html : string) (config : SimulationConfig) (k : number)
    (b : list Event) : Prop :=
  (exists msg, b = [mkEvent (InAttempt k) AcquirePage (ARejected msg)]) \/
  (exists page a_run a_release msg,
     b = attempt_events html config k page a_run a_release /\
     (a_release = ARejected msg \/ (a_release = AOk /\ a_run = ARejected msg))).

(** The timer set after attempt [k] threw. *)
Definition backoff_timer (k : number) : Event :=
  mkEvent (InAttempt k) (Sleep (1000 * (k + 1))%Z) AOk.

(** The log of the attempts [k], [k+1], ... that threw and were retried:
    each is followed by its timer. *)
Fixpoint backoff_log (k : number) (failed : list (list Event)) : list Event :=
  match failed with
  | [] => []
  | b :: rest => b ++ [backoff_timer k] ++ backoff_log (k + 1)%Z rest
  end.

(** ** The queue of a batch in the log *)

(** The wrapper has counted its job as failed and not yet left the queue. *)
Definition failing (K : RetryK) : nat :=
  match K with
  | AwaitMkdir _ _ | AwaitWrite _ _ _ | Returned None => 1
  | _ => 0
  end.

(** The wrapper holds the metadata of a run that returned. *)
Definition holding_metadata (K : RetryK) : nat :=
  match K with
  | AwaitRelease _ _ _ (Done _) | Returned (Some _) => 1
  | _ => 0
  end.

(** The iterations of the loop add up: iteration [attempt] with [k] more to
    come, the last one being number [maxRetries]. *)
Definition in_loop (maxRetries : number) (k : nat) (attempt : number) : Prop :=
  (0 <= maxRetries)%Z -> (0 <= attempt)%Z /\ (attempt + Z.of_nat k = maxRetries)%Z.

(** What the log [evs] of the batch shows of the wrapper of [c] suspended
    in [K]. *)
Definition task_ok (html : string) (maxRetries : number) (c : SimulationConfig)
    (K : RetryK) (evs : list Event) : Prop :=
  match K with
  | AwaitAcquire k attempt => in_loop maxRetries k attempt
  | AwaitRun k attempt page =>
      in_loop maxRetries k attempt /\
      sublist [mkEvent (InAttempt attempt) AcquirePage (APage page)] evs
  | AwaitRelease k attempt page pending =>
      in_loop maxRetries k attempt /\
      forall md, pending = Done md ->
        sublist [mkEvent (InAttempt attempt) AcquirePage (APage page);
                 mkEvent (InAttempt attempt) (RunSimulation page html c) (AMetadata md)] evs
  | AwaitTimer k attempt =>
      in_loop maxRetries k attempt /\ ((0 <= maxRetries)%Z -> (attempt < maxRetries)%Z)
  | AwaitMkdir k attempt =>
      (0 <= maxRetries)%Z -> k = 0 /\ attempt = maxRetries
  | AwaitWrite k attempt _ =>
      (0 <= maxRetries)%Z ->
      k = 0 /\ attempt = maxRetries /\
      exists a, mkEvent (InAttempt maxRetries) (Mkdir (outputDir c)) a ∈ evs
  | Returned o => job_outcome html maxRetries evs c o
  end.

(** The tasks that have counted their job as failed, the tasks that hold
    metadata, and the promises that resolved to [null]. *)
Definition failing_tasks (l : list Task) : nat :=
  sum_list_with (fun t => failing (task_state t)) l.

Definition tasks_with_metadata (l : list Task) : nat :=
  sum_list_with (fun t => holding_metadata (task_state t)) l.

Definition count_null (settled : list (nat * option SimulationMetadata)) : nat :=
  sum_list_with (fun io => match snd io with None => 1 | Some _ => 0 end) settled.

(** What holds of the queue of a batch at every moment: [w1] is the world in
    which the jobs were handed to the queue, [evs] the calls made since and
    [m] the number of jobs started. *)
Record queue_inv (html : string) (maxRetries : number) (concurrency : nat)
    (config : BatchConfig) (w1 : World Orch) (s : QueueSys) (evs : list Event) (m : nat)
    : Prop := mkQueueInv {
  qi_log : log (q_world s) = log w1 ++ evs;
  qi_writes : Forall (only_error_writes (st w1)) evs;
  qi_kept : jobs_kept (st w1) (st (q_world s));
  qi_rejected : q_rejected s = None;
  qi_waiting : q_waiting s = drop m (queue_jobs config);
  qi_started : m <= length (simulations config);
  qi_indices : (task_index <$> q_running s) ++ (fst <$> q_settled s) ≡ₚ seq 0 m;
  qi_bound : length (q_running s) <= concurrency;
  qi_results : q_results s = omap snd (q_settled s);
  qi_running :
    Forall (fun t => queue_jobs config !! task_index t = Some (task_index t, task_config t) /\
                     task_ok html maxRetries (task_config t) (task_state t) evs)
           (q_running s);
  qi_settled :
    Forall (fun io => exists c, queue_jobs config !! fst io = Some (fst io, c) /\
                                job_outcome html maxRetries evs c (snd io))
           (q_settled s);
  qi_completed :
    completedCount (st (q_world s))
    = (completedCount (st w1) + Z.of_nat (count_returned evs))%Z;
  qi_metadata :
    tasks_with_metadata (q_running s) + length (q_results s) <= count_returned evs;
  qi_failed :
    (0 <= maxRetries)%Z ->
    failedCount (st (q_world s))
    = (failedCount (st w1)
       + Z.of_nat (failing_tasks (q_running s) + count_null (q_settled s)))%Z
}.

(** The index document [runBatch] builds in the world [w] for [results]. *)
Definition batch_index (env : Env) (relative : path -> path -> path)
    (dirname : string -> path) (config : BatchConfig) (results : list SimulationMetadata)
    (w : World Orch) : BatchIndex :=
  {| ix_generated := env_clock env (log w);
     ix_total_simulations := Z.of_nat (length (simulations config));
     ix_completed := completedCount (st w);
     ix_failed := failedCount (st w);
     ix_elapsed_ms := (env_clock env (log w) - orch_startTime (st w))%Z;
     ix_simulations := map (index_entry relative dirname config) results |}.

(** ** Sample batches *)

(** Every job of a batch under another name and in its own directory. *)
Definition job_named (name : string) (seed : option number) : SimulationConfig :=
  {| id := name; preset := preset demo_config; options := options demo_config;
     totalFrames := totalFrames demo_config;
     timestepsPerFrame := timestepsPerFrame demo_config;
     interventions := interventions demo_config;
     outputDir := ["out"; "GrayScott"; name]; randomSeed := seed;
     resolution := None |}.




(** Two jobs, no defaults. *)
Definition pair_batch : BatchConfig :=
  {| bc_outputDir := ["out"]; workers := 2%Z;
     simulations := [mkSpec (job_named "a" None) []; mkSpec (job_named "b" None) []];
     defaults := None |}.

(** Both jobs are started and go on in turns, one call each, until both
    have come to their end. *)
Definition pair_schedule (calls : nat) : list Move :=
  [Start; Start] ++ concat (replicate calls [Continue 0; Continue 1])
    ++ [Continue 0; Continue 0].

(** An environment in which only the write of the index is rejected. *)
Definition no_index_env : Env :=
  {| env_fails := fun _ c => match c with
                             | WriteFile _ (IndexDoc _) => Some "EACCES"
                             | _ => None
                             end;
     env_num := env_num quiet_env;
     env_str := env_str quiet_env;
     env_options := env_options quiet_env;
     env_page := env_page quiet_env;
     env_metadata := env_metadata quiet_env;
     env_clock := env_clock quiet_env |}.

(** * Properties *)

(** ** Reasoning about monadic code *)

Lemma bind_inv {S A B} (m : M S A) (k : A -> M S B) w r w' :
  bind m k w = (r, w') ->
  (exists a w1, m w = (Done a, w1) /\ k a w1 = (r, w')) \/
  (exists e, m w = (Throw e, w') /\ r = Throw e).
Proof.
  unfold bind. destruct (m w) as [[a|e] w1]; intros H.
  - left. eauto.
  - right. inversion H; subst. eauto.
Qed.

Lemma bind_done {S A B} (m : M S A) (k : A -> M S B) w b w' :
  bind m k w = (Done b, w') ->
  exists a w1, m w = (Done a, w1) /\ k a w1 = (Done b, w').
Proof.
  intros H. apply bind_inv in H as [H|(e & _ & H)]; [done | discriminate].
Qed.

Lemma perform_inv env {S A} site c (result : list Event -> A) answer
    (w : World S) r w' :
  perform env site c result answer w = (r, w') ->
  exists a, w' = mkWorld (st w) (log w ++ [mkEvent site c a]) /\
    ((env_fails env (log w) c = None /\ r = Done (result (log w)) /\
      a = answer (result (log w))) \/
     (exists msg, env_fails env (log w) c = Some msg /\ r = Throw msg /\
      a = ARejected msg)).
Proof.
  unfold perform. destruct (env_fails env (log w) c) as [msg|] eqn:E;
    intros H; inversion H; subst; eexists; split; eauto.
Qed.

Lemma perform_done env {S A} site c (result : list Event -> A) answer
    (w : World S) a w' :
  perform env site c result answer w = (Done a, w') ->
  env_fails env (log w) c = None /\ a = result (log w) /\
  w' = mkWorld (st w) (log w ++ [mkEvent site c (answer a)]).
Proof.
  intros H. apply perform_inv in H as (x & -> & [(? & [= ->] & ->)|(? & ? & ? & ?)]);
    [done | discriminate].
Qed.

Ltac inv_done H :=
  repeat match type of H with
  | bind _ _ _ = (Done _, _) =>
      let a := fresh "a" in let w := fresh "w" in
      let H1 := fresh "Hm" in
      apply bind_done in H as (a & w & H1 & H)
  end.

(** ** The sorted copy of the interventions *)

Lemma frame_of_alter objs t r i :
  frame_of (alter (set_simulationTime t) r objs) i = frame_of objs i.
Proof.
  unfold frame_of. destruct (decide (r = i)) as [->|Hne].
  - rewrite list_lookup_alter_eq. by destruct (objs !! i).
  - by rewrite list_lookup_alter_ne.
Qed.

Lemma insert_by_frame_perm objs r l : insert_by_frame objs r l ≡ₚ r :: l.
Proof.
  induction l as [|r' l IH]; simpl; [done|].
  case_match; [done|]. rewrite IH. apply Permutation_swap.
Qed.

Lemma sorted_refs_perm objs : sorted_refs objs ≡ₚ seq 0 (length objs).
Proof.
  unfold sorted_refs. induction (seq 0 (length objs)) as [|r l IH]; simpl; [done|].
  by rewrite insert_by_frame_perm, IH.
Qed.


Lemma elem_of_sorted_refs objs r : r ∈ sorted_refs objs <-> r < length objs.
Proof. rewrite sorted_refs_perm, elem_of_seq. lia. Qed.








Lemma frame_block_ext objs objs' dir refs f :
  (forall i, frame_of objs' i = frame_of objs i) ->
  (forall r, r ∈ refs -> frame_of objs r = f -> objs' !! r = objs !! r) ->
  frame_block objs' dir refs f = frame_block objs dir refs f.
Proof.
  intros Hfr Hst. unfold frame_block. f_equal.
  induction refs as [|r refs IH]; [done|].
  rewrite !filter_cons, Hfr. destruct (decide (frame_of objs r = f)) as [Hr|Hr].
  - simpl. unfold recorded_time at 1 3. rewrite Hst by (done || set_solver).
    do 2 f_equal. apply IH. intros; apply Hst; set_solver.
  - apply IH. intros; apply Hst; set_solver.
Qed.


Lemma flat_map_ext_in {A B} (f g : A -> list B) (l : list A) :
  (forall x, x ∈ l -> f x = g x) -> flat_map f l = flat_map g l.
Proof.
  induction l as [|x l IH]; intros H; simpl; [done|].
  rewrite H by set_solver. f_equal. apply IH. intros; apply H; set_solver.
Qed.


Lemma applyIntervention_inv env page site iv (w : World (list Intervention)) r w' :
  applyIntervention env page site iv w = (r, w') ->
  exists e script, w' = mkWorld (st w) (log w ++ [e]) /\ ev_site e = site /\
    ev_call e = Evaluate page script.
Proof.
  unfold applyIntervention. destruct (type iv). unfold perform_unit. intros H.
  apply perform_inv in H as (a & -> & _). eexists _, _; split; [done|]. simpl. eauto.
Qed.

Lemma apply_due_safe env page f pending : forall w r w',
  apply_due env page f pending w = (r, w') ->
  exists evs,
    log w' = log w ++ evs /\
    Forall (intervention_event (st w) page f) evs /\
    (forall i, frame_of (st w') i = frame_of (st w) i) /\
    (forall i, frame_of (st w) i <> f -> st w' !! i = st w !! i).
Proof.
  induction pending as [|ref rest IH]; intros w r w' H.
  - inversion H; subst. exists []. rewrite app_nil_r. by repeat split.
  - simpl in H. unfold bind at 1 in H. simpl in H.
    destruct (st w !! ref) as [iv|] eqn:Hiv.
    2:{ inversion H; subst. exists []. rewrite app_nil_r. by repeat split. }
    destruct (Z.eqb_spec (frame iv) f) as [Hf|Hf].
    2:{ inversion H; subst. exists []. rewrite app_nil_r. by repeat split. }
    assert (Href : frame_of (st w) ref = f) by (unfold frame_of; by rewrite Hiv).
    apply bind_inv in H as [(a & w1 & Hm & H)|(e & Hm & ->)];
      apply applyIntervention_inv in Hm as (e1 & s1 & -> & Hs1 & Hc1).
    2:{ exists [e1]. simpl. repeat split; auto.
        repeat constructor. exists ref, s1. done. }
    apply bind_inv in H as [(t & w2 & Hm & H)|(e & Hm & ->)];
      apply perform_inv in Hm as (a2 & -> & _).
    2:{ eexists [e1; _]. simpl. rewrite <- app_assoc. repeat split; auto.
        repeat constructor; eexists ref, _; simpl; eauto. }
    apply bind_inv in H as [(x & w3 & Hm & H)|(e & Hm & ->)]; [|discriminate].
    inversion Hm; subst; clear Hm. simpl in *.
    apply IH in H as (evs & Hlog & Hall & Hfr & Hst). simpl in *.
    eexists (e1 :: _ :: evs). split.
    { rewrite Hlog, <- !app_assoc. reflexivity. }
    split.
    { constructor; [eexists ref, _; eauto|].
      constructor; [eexists ref, _; simpl; eauto|].
      eapply Forall_impl; [exact Hall|].
      intros e (r' & s' & ? & ? & Hr'). exists r', s'.
      rewrite frame_of_alter in Hr'. done. }
    split. { intros i. by rewrite Hfr, frame_of_alter. }
    intros i Hi. rewrite Hst by (by rewrite frame_of_alter).
    apply list_lookup_alter_ne. congruence.
Qed.

Lemma writes_in_interventions dir objs page f evs :
  Forall (intervention_event objs page f) evs -> writes_in dir evs = [].
Proof.
  induction 1 as [|e evs (ref & sc & _ & Hc & _) _ IH]; [done|].
  unfold writes_in in *. simpl. by rewrite Hc.
Qed.

Lemma writes_in_app dir l1 l2 :
  writes_in dir (l1 ++ l2) = writes_in dir l1 ++ writes_in dir l2.
Proof. apply omap_app. Qed.

Lemma loop_event_weaken objs objs' page f f' k k' e :
  (forall i, frame_of objs' i = frame_of objs i) ->
  (f' <= f)%Z -> (f + Z.of_nat k <= f' + Z.of_nat k')%Z ->
  loop_event objs page f k e -> loop_event objs' page f' k' e.
Proof.
  intros Hfr ? ? (g & Hg & H). exists g. split; [lia|].
  destruct H as [(ref & sc & ? & ? & ?)|?]; [left|by right].
  exists ref, sc. by rewrite Hfr.
Qed.

Lemma capture_frames_safe env page config dir sorted k :
  forall f pending annots w r w',
  capture_frames env page config dir sorted k f pending annots w = (r, w') ->
  exists evs,
    log w' = log w ++ evs /\
    Forall (loop_event (st w) page f k) evs /\
    (forall i, frame_of (st w') i = frame_of (st w) i) /\
    (forall i, ~ (f <= frame_of (st w) i < f + Z.of_nat k)%Z -> st w' !! i = st w !! i) /\
    (forall a, r = Done a -> writes_in dir evs = map frame_filename (seqZ f (Z.of_nat k))).
Proof.
  induction k as [|k IH]; intros f pending annots w r w' H.
  - inversion H; subst. exists []. rewrite app_nil_r. by repeat split.
  - simpl in H.
    assert (Hint : forall objs evs, (forall i, frame_of objs i = frame_of (st w) i) ->
              Forall (intervention_event objs page f) evs ->
              Forall (loop_event (st w) page f (S k)) evs).
    { intros objs evs Hfr Hev. eapply Forall_impl; [exact Hev|]. intros e (ref & sc & ? & ? & ?).
      exists f. split; [lia|]. left. exists ref, sc. by rewrite <- Hfr. }
    assert (Hfrm : forall site c a, site = InFrame f ->
              loop_event (st w) page f (S k) (mkEvent site c a)).
    { intros site c a ->. exists f. split; [lia|]. by right. }
    apply bind_inv in H as [(pending' & w1 & Hm & H)|(e & Hm & ->)];
      apply apply_due_safe in Hm as (evs1 & Hlog1 & Hall1 & Hfr1 & Hst1).
    2:{ exists evs1. split; [done|]. split; [by apply (Hint (st w))|]. split; [done|].
        split; [intros i Hi; apply Hst1; lia|]. intros a; discriminate. }
    apply bind_inv in H as [(x2 & w2 & Hm & H)|(e & Hm & ->)];
      apply perform_inv in Hm as (a2 & -> & _).
    2:{ eexists (evs1 ++ [_]). simpl. rewrite Hlog1, <- app_assoc.
        split; [done|]. split; [|split; [done|split; [intros i Hi; apply Hst1; lia|intros a; discriminate]]].
        apply Forall_app; split; [by apply (Hint (st w))|]. repeat constructor. by apply Hfrm. }
    apply bind_inv in H as [(x3 & w3 & Hm & H)|(e & Hm & ->)];
      apply perform_inv in Hm as (a3 & -> & _).
    2:{ eexists (evs1 ++ [_; _]). simpl. rewrite Hlog1, <- !app_assoc.
        split; [done|]. split; [|split; [done|split; [intros i Hi; apply Hst1; lia|intros a; discriminate]]].
        apply Forall_app; split; [by apply (Hint (st w))|].
        repeat constructor; by apply Hfrm. }
    unfold saveFrame in H.
    apply bind_inv in H as [(x4 & w4 & Hm & H)|(e & Hm & ->)];
      apply perform_inv in Hm as (a4 & -> & Ha4).
    2:{ eexists (evs1 ++ [_; _; _]). simpl. rewrite Hlog1, <- !app_assoc.
        split; [done|]. split; [|split; [done|split; [intros i Hi; apply Hst1; lia|intros a; discriminate]]].
        apply Forall_app; split; [by apply (Hint (st w))|].
        repeat constructor; by apply Hfrm. }
    apply bind_inv in H as [(x5 & w5 & Hm & H)|(e & Hm & ->)];
      apply perform_inv in Hm as (a5 & -> & _).
    2:{ eexists (evs1 ++ [_; _; _; _]). simpl. rewrite Hlog1, <- !app_assoc.
        split; [done|]. split; [|split; [done|split; [intros i Hi; apply Hst1; lia|intros a; discriminate]]].
        apply Forall_app; split; [by apply (Hint (st w))|].
        repeat constructor; by apply Hfrm. }
    apply bind_inv in H as [(x6 & w6 & Hm & H)|(e & Hm & ->)]; [|discriminate].
    inversion Hm; subst; clear Hm. simpl in *.
    destruct Ha4 as [(_ & _ & ->)|(msg & _ & ? & _)]; [|discriminate].
    apply IH in H as (evs2 & Hlog2 & Hall2 & Hfr2 & Hst2 & Hwr2). simpl in *.
    eexists (evs1 ++ [_; _; _; _] ++ evs2). split.
    { rewrite Hlog2, Hlog1, <- !app_assoc. reflexivity. }
    split.
    { apply Forall_app; split; [by apply (Hint (st w))|].
      apply Forall_app; split; [repeat constructor; by apply Hfrm|].
      eapply Forall_impl; [exact Hall2|]. intros e.
      apply loop_event_weaken; [|lia..]. intros i. by rewrite Hfr1. }
    split. { intros i. by rewrite Hfr2, Hfr1. }
    split. { intros i Hi. rewrite Hst2 by (rewrite Hfr1; lia). apply Hst1. lia. }
    intros a ->. rewrite !writes_in_app, (Hwr2 a eq_refl).
    rewrite (writes_in_interventions _ _ _ _ _ Hall1).
    rewrite Nat2Z.inj_succ, (seqZ_cons f) by lia.
    rewrite Z.pred_succ. replace (Z.succ f) with (f + 1)%Z by lia.
    simpl. f_equal. unfold writes_in. simpl.
    unfold file_in. rewrite last_snoc. by rewrite decide_True.
Qed.

Section Emits.
Context {S : Type} (P : S -> Event -> Prop) (I : S -> S -> Prop) `{!Stable P I}.

Lemma emits_ret {A} (a : A) : emits P I (ret a).
Proof.
  intros w r w' [= <- <-]. exists []. rewrite app_nil_r.
  split; [done|]. split; [constructor|apply stable_refl].
Qed.

Lemma emits_throw {A} msg : emits P I (@throw S A msg).
Proof.
  intros w r w' [= <- <-]. exists []. rewrite app_nil_r.
  split; [done|]. split; [constructor|apply stable_refl].
Qed.

Lemma emits_get : emits P I get.
Proof.
  intros w r w' [= <- <-]. exists []. rewrite app_nil_r.
  split; [done|]. split; [constructor|apply stable_refl].
Qed.

Lemma emits_now env : emits P I (now env).
Proof.
  intros w r w' [= <- <-]. exists []. rewrite app_nil_r.
  split; [done|]. split; [constructor|apply stable_refl].
Qed.

Lemma emits_modify f : (forall s, I s (f s)) -> emits P I (modify f).
Proof.
  intros Hf w r w' [= <- <-]. exists []. simpl. rewrite app_nil_r.
  split; [done|]. split; [constructor|apply Hf].
Qed.

Lemma emits_perform env {A} site c (result : list Event -> A) answer :
  (forall s a, P s (mkEvent site c a)) ->
  emits P I (perform env site c result answer).
Proof.
  intros HP w r w' H. apply perform_inv in H as (a & -> & _).
  eexists [_]. split; [done|]. split; [repeat constructor; apply HP|apply stable_refl].
Qed.

Lemma emits_sleep site ms :
  (forall s, P s (mkEvent site (Sleep ms) AOk)) -> emits P I (sleep site ms).
Proof.
  intros HP w r w' [= <- <-]. eexists [_]. simpl.
  split; [done|]. split; [repeat constructor; apply HP|apply stable_refl].
Qed.

Lemma emits_seq {A B} (m : M S A) (k : World S -> Res B * World S) w w1 r1 r w' :
  emits P I m -> m w = (r1, w1) ->
  (forall w2, st w2 = st w1 -> log w2 = log w1 ->
     k w1 = (r, w') ->
     exists evs, log w' = log w1 ++ evs /\ Forall (P (st w1)) evs /\ I (st w1) (st w')) ->
  k w1 = (r, w') ->
  exists evs, log w' = log w ++ evs /\ Forall (P (st w)) evs /\ I (st w) (st w').
Proof.
  intros Hm Hmw Hk Hkw. destruct (Hm _ _ _ Hmw) as (evs1 & Hl1 & Hp1 & Hi1).
  destruct (Hk w1 eq_refl eq_refl Hkw) as (evs2 & Hl2 & Hp2 & Hi2).
  exists (evs1 ++ evs2). split; [by rewrite Hl2, Hl1, app_assoc|].
  split; [|by eapply stable_trans].
  apply Forall_app; split; [done|].
  eapply Forall_impl; [exact Hp2|]. intros e. by apply stable_mono.
Qed.

Lemma emits_bind {A B} (m : M S A) (k : A -> M S B) :
  emits P I m -> (forall a, emits P I (k a)) -> emits P I (bind m k).
Proof.
  intros Hm Hk w r w' H.
  apply bind_inv in H as [(a & w1 & Hmw & Hkw)|(e & Hmw & ->)].
  - eapply (emits_seq m (k a)); eauto. intros _ _ _ H. by apply Hk in H.
  - by apply Hm in Hmw.
Qed.

Lemma emits_try_catch {A} (m : M S A) (h : string -> M S A) :
  emits P I m -> (forall e, emits P I (h e)) -> emits P I (try_catch m h).
Proof.
  intros Hm Hh w r w' H. unfold try_catch in H.
  destruct (m w) as [[a|e] w1] eqn:Hmw.
  - inversion H; subst. by apply Hm in Hmw.
  - eapply (emits_seq m (h e)); eauto. intros _ _ _ H'. by apply Hh in H'.
Qed.

Lemma emits_try_finally {A} (m : M S A) (f : M S unit) :
  emits P I m -> emits P I f -> emits P I (try_finally m f).
Proof.
  intros Hm Hf w r w' H. unfold try_finally in H.
  destruct (m w) as [r1 w1] eqn:Hmw.
  destruct (f w1) as [[[]|e] w2] eqn:Hfw; inversion H; subst;
    eapply (emits_seq m f); eauto; intros _ _ _ H'; by apply Hf in H'.
Qed.
End Emits.

Create HintDb emits discriminated.
#[export] Hint Resolve emits_ret emits_throw emits_get emits_now emits_bind
  emits_try_catch emits_try_finally : emits.

#[export] Instance run_stable page k : Stable (run_event page k) (frames_kept 0%Z k).
Proof.
  split.
  - intros s. by split.
  - intros s1 s2 s3 [Hf1 Hu1] [Hf2 Hu2]. split.
    + intros i. by rewrite Hf2, Hf1.
    + intros i Hi. rewrite Hu2, Hu1; [done..|]. by rewrite Hf1.
  - intros s s' e [Hf _] [?|[?|(g & Hg & H)]]; [by left|by right; left|].
    right; right. exists g. split; [done|].
    destruct H as [(ref & sc & ? & ? & ?)|?]; [left|by right].
    exists ref, sc. by rewrite <- Hf.
Qed.

Lemma capture_frames_emits env page config dir sorted k pending annots :
  emits (run_event page k) (frames_kept 0%Z k)
    (capture_frames env page config dir sorted k 0%Z pending annots).
Proof.
  intros w r w' H.
  apply capture_frames_safe in H as (evs & Hlog & Hall & Hfr & Hst & _).
  exists evs. split; [done|]. split; [|by split].
  eapply Forall_impl; [exact Hall|]. intros e He. by right; right.
Qed.


Lemma run_done env page html config w md w' :
  run env page html config w = (Done md, w') ->
  exists pre w0 annots w1 eo et,
    log w0 = log w ++ pre /\ st w0 = st w /\
    Forall setup_event pre /\
    capture_frames env page config (frames_dir config) (sorted_refs (st w))
      (Z.to_nat (totalFrames config)) 0%Z (sorted_refs (st w)) [] w0 = (Done annots, w1) /\
    log w' = log w1 ++
      [eo; et; mkEvent InMetadata
                 (WriteFile (outputDir config ++ ["metadata.json"]) (MetadataDoc md)) AOk] /\
    (ev_site eo = InMetadata /\ ev_call eo = Evaluate page [GetOptions]) /\
    (ev_site et = InMetadata /\ ev_call et = Evaluate page [GetTime]) /\
    st w' = st w1 /\
    md_interventions md = st w1 /\ md_id md = id config /\
    md_preset md = preset config /\ md_frameAnnotations md = annots.
Proof.
  intros H. unfold run in H. inv_done H.
  unfold perform_unit in *.
  apply perform_done in Hm as (_ & _ & ->).
  apply perform_done in Hm0 as (_ & _ & ->).
  apply perform_done in Hm1 as (_ & _ & ->).
  assert (Hseed : exists l, w3 = mkWorld (st w) (log w ++ l) /\ Forall setup_event l).
  { destruct (randomSeed config).
    - apply perform_done in Hm2 as (_ & _ & ->). simpl.
      eexists [_; _; _; _]. rewrite <- !app_assoc. split; [done|].
      repeat constructor; done.
    - inversion Hm2; subst. eexists [_; _; _]. simpl. rewrite <- !app_assoc. split; [done|].
      repeat constructor; done. }
  destruct Hseed as (l1 & -> & Hl1). clear Hm2.
  assert (Hopt : exists l, w4 = mkWorld (st w) (log w ++ l) /\ Forall setup_event l).
  { destruct (options config) as [[|kv opts]|].
    - inversion Hm3; subst. eauto.
    - apply perform_done in Hm3 as (_ & _ & ->). simpl.
      exists (l1 ++ [mkEvent InSetup
        (Evaluate page (map (fun kv => SetOption (fst kv) (snd kv)) (kv :: opts)
                        ++ [UpdateProblem])) AOk]).
      rewrite <- !app_assoc. split; [done|].
      apply Forall_app; split; [done|]. repeat constructor; done.
    - inversion Hm3; subst. eauto. }
  destruct Hopt as (l2 & -> & Hl2). clear Hm3.
  apply perform_done in Hm4 as (_ & _ & ->). simpl in *.
  inversion Hm5; subst; clear Hm5. simpl in *.
  unfold collectMetadata in Hm7. inv_done Hm7.
  apply perform_done in Hm as (_ & _ & ->).
  apply perform_done in Hm0 as (_ & _ & ->).
  inversion Hm1; subst; clear Hm1. inversion Hm2; subst; clear Hm2.
  inversion Hm7; subst; clear Hm7. simpl in *.
  apply perform_done in Hm8 as (_ & _ & ->).
  inversion H; subst; clear H. simpl.
  eexists (l2 ++ [_]), _, _, _, _, _.
  split; [|split; [|split; [|split; [exact Hm6|]]]]; simpl.
  - by rewrite <- app_assoc.
  - done.
  - apply Forall_app; split; [done|]. repeat constructor; done.
  - split; [by rewrite <- !app_assoc|]. done.
Qed.

Lemma run_frame_writes env page html config w md w' :
  run env page html config w = (Done md, w') ->
  exists evs, log w' = log w ++ evs /\
    writes_in (frames_dir config) evs =
    map frame_filename (seqZ 0 (Z.of_nat (Z.to_nat (totalFrames config)))).
Proof.
  intros H. apply run_done in H as
    (pre & w0 & annots & w1 & eo & et & Hpre & _ & Hsetup & Hloop & Hpost
     & [_ Heo] & [_ Het] & _).
  apply capture_frames_safe in Hloop as (evs & Hlog & _ & _ & _ & Hwr).
  eexists. split.
  { rewrite Hpost, Hlog, Hpre, <- !app_assoc. reflexivity. }
  rewrite !writes_in_app, (Hwr _ eq_refl).
  assert (Hnone : writes_in (frames_dir config) pre = []).
  { clear -Hsetup. induction Hsetup as [|e l [_ He] _ IH]; [done|].
    unfold writes_in in *. simpl.
    destruct (ev_call e); try done. by destruct (He file d). }
  rewrite Hnone. simpl. rewrite <- (app_nil_r (map _ _)) at 2. f_equal.
  unfold writes_in. simpl. rewrite Heo, Het. simpl.
  unfold file_in. rewrite last_snoc. rewrite decide_False; [done|].
  unfold frames_dir. intros Heq. apply (f_equal length) in Heq.
  rewrite !length_app in Heq. simpl in Heq. lia.
Qed.

(** ** Decimal rendering and padding *)

Lemma pretty_N_char_digit x :
  (x < 10)%N -> digit_value (pretty_N_char x) = x /\ is_digit (pretty_N_char x) = true.
Proof.
  intros Hx.
  assert (x = 0 \/ x = 1 \/ x = 2 \/ x = 3 \/ x = 4 \/ x = 5 \/ x = 6 \/ x = 7
          \/ x = 8 \/ x = 9)%N as H by lia.
  repeat (destruct H as [->|H]; [by vm_compute|]). subst. by vm_compute.
Qed.

Lemma all_digits_String c s : all_digits (String c s) <-> is_digit c = true /\ all_digits s.
Proof. unfold all_digits. simpl. by rewrite andb_true_iff. Qed.

(** [pretty_N_go x s] puts the [k] digits of [x] in front of [s]. *)
Lemma pretty_N_go_digits x :
  exists k : nat,
    (forall m : nat, (x < 10 ^ N.of_nat m)%N -> k <= m) /\
    ((0 < x)%N -> 1 <= k) /\
    forall acc s,
      dec_value_go acc (pretty_N_go x s) = dec_value_go (acc * 10 ^ N.of_nat k + x)%N s /\
      String.length (pretty_N_go x s) = k + String.length s /\
      (all_digits s -> all_digits (pretty_N_go x s)).
Proof.
  induction (N.lt_wf_0 x) as [x _ IH].
  destruct (decide (x = 0)%N) as [->|Hx].
  - exists 0. split; [intros; lia|]. split; [lia|]. intros acc s. rewrite pretty_N_go_0.
    simpl. split; [f_equal; lia|done].
  - destruct (IH (x `div` 10)%N) as (k & Hk & _ & Hgo).
    { apply N.div_lt; lia. }
    exists (S k). split.
    + intros [|m] Hm; [simpl in Hm; lia|].
      apply le_n_S, Hk.
      rewrite Nat2N.inj_succ, N.pow_succ_r' in Hm.
      apply N.Div0.div_lt_upper_bound. lia.
    + split; [lia|]. intros acc s. rewrite pretty_N_go_step by lia.
      destruct (Hgo acc (String (pretty_N_char (x `mod` 10)) s)) as (Hv & Hl & Hd).
      destruct (pretty_N_char_digit (x `mod` 10)%N) as [Hdv Hdg].
      { apply N.mod_lt. lia. }
      rewrite Hv, Hl. simpl. rewrite Hdv. split; [|split].
      * f_equal. rewrite Nat2N.inj_succ, N.pow_succ_r'.
        pose proof (N.div_mod x 10). lia.
      * lia.
      * intros Hs. apply Hd. by apply all_digits_String.
Qed.

Lemma pretty_N_digits (x : N) :
  dec_value (pretty x) = x /\ all_digits (pretty x) /\
  1 <= String.length (pretty x) /\
  forall m : nat, 1 <= m -> (x < 10 ^ N.of_nat m)%N -> String.length (pretty x) <= m.
Proof.
  unfold pretty, pretty_N. destruct (decide (x = 0)%N) as [->|Hx].
  - split; [done|]. split; [done|]. simpl. split; [lia|]. intros; lia.
  - destruct (pretty_N_go_digits x) as (k & Hk & Hpos & Hgo).
    destruct (Hgo 0%N "") as (Hv & Hl & Hd). unfold dec_value.
    rewrite Hv, Hl. simpl. split; [lia|]. split; [by apply Hd|]. split.
    + assert (1 <= k) by (apply Hpos; lia). lia.
    + intros m _ Hm. specialize (Hk m Hm). lia.
Qed.

Lemma pretty_Z_nonneg (z : Z) :
  (0 <= z)%Z -> pretty z = pretty (Z.to_N z).
Proof. destruct z; [done|done|lia]. Qed.

Lemma string_rep_zero_value n s : dec_value (string_rep n "0" +:+ s) = dec_value s.
Proof. induction n as [|n IH]; [done|]. unfold dec_value in *. simpl. apply IH. Qed.

Lemma string_rep_length n c s :
  String.length (string_rep n c +:+ s) = n + String.length s.
Proof. induction n as [|n IH]; simpl; [done|]. by rewrite IH. Qed.

Lemma string_rep_zero_digits n s : all_digits s -> all_digits (string_rep n "0" +:+ s).
Proof.
  intros Hs. induction n as [|n IH]; [done|]. simpl. by apply all_digits_String.
Qed.

(** The digits of a frame's file name. *)
Lemma frame_digits (i : Z) :
  (0 <= i)%Z ->
  let digits := padStart 6 "0" (pretty i) in
  frame_filename i = digits +:+ ".png" /\
  Z.of_N (dec_value digits) = i /\ all_digits digits /\
  6 <= String.length digits /\
  ((i < 1000000)%Z -> String.length digits = 6).
Proof.
  intros Hi digits. subst digits. rewrite pretty_Z_nonneg by done.
  destruct (pretty_N_digits (Z.to_N i)) as (Hv & Hd & Hl & Hm).
  unfold padStart. rewrite string_rep_zero_value, string_rep_length, Hv.
  split; [by unfold frame_filename; rewrite pretty_Z_nonneg|].
  split; [lia|]. split; [by apply string_rep_zero_digits|].
  split; [lia|]. intros Hlt. specialize (Hm 6). simpl in Hm. lia.
Qed.

Lemma string_app_length s t : String.length (s +:+ t) = String.length s + String.length t.
Proof. induction s as [|c s IH]; simpl; [done|]. by rewrite IH. Qed.

Lemma string_app_inv_tail s1 s2 t : s1 +:+ t = s2 +:+ t -> s1 = s2.
Proof.
  revert s2. induction s1 as [|c s1 IH]; intros [|c2 s2] H; simpl in *.
  - done.
  - apply (f_equal String.length) in H. simpl in H. rewrite !string_app_length in H. simpl in H. lia.
  - apply (f_equal String.length) in H. simpl in H. rewrite !string_app_length in H. simpl in H. lia.
  - injection H as -> H. f_equal. by apply IH.
Qed.

Lemma frame_filename_inj i j :
  (0 <= i)%Z -> (0 <= j)%Z -> frame_filename i = frame_filename j -> i = j.
Proof.
  intros Hi Hj H.
  destruct (frame_digits i Hi) as (Ei & Vi & _). destruct (frame_digits j Hj) as (Ej & Vj & _).
  rewrite Ei, Ej in H. apply string_app_inv_tail in H. congruence.
Qed.

(** ** A run completes when nothing is rejected *)

Section Completes.
Context {S : Type} (Inv : S -> Prop).

Lemma completes_ret {A} (Q : A -> Prop) (a : A) : Q a -> completes Inv Q (ret a).
Proof. intros Ha w Hw. by exists a, w. Qed.

Lemma completes_get_bind {B} (Q : B -> Prop) (k : S -> M S B) :
  (forall s, Inv s -> completes Inv Q (k s)) -> completes Inv Q (bind get k).
Proof. intros Hk w Hw. unfold bind. simpl. by apply Hk. Qed.

Lemma completes_now env : completes Inv (fun _ => True) (now env).
Proof. intros w Hw. by eexists _, w. Qed.

Lemma completes_modify f :
  (forall s, Inv s -> Inv (f s)) -> completes Inv (fun _ => True) (modify f).
Proof. intros Hf w Hw. eexists _, _. split; [done|]. split; [by apply Hf|done]. Qed.

Lemma completes_perform env {A} site c (result : list Event -> A) answer :
  never_fails env -> completes Inv (fun _ => True) (perform env site c result answer).
Proof. intros Hq w Hw. unfold perform. rewrite Hq. by eexists _, _. Qed.

Lemma completes_bind {A B} (Q1 : A -> Prop) (Q : B -> Prop) (m : M S A) (k : A -> M S B) :
  completes Inv Q1 m -> (forall a, Q1 a -> completes Inv Q (k a)) ->
  completes Inv Q (bind m k).
Proof.
  intros Hm Hk w Hw. destruct (Hm w Hw) as (a & w1 & Hmw & Hw1 & Ha).
  unfold bind. rewrite Hmw. by apply Hk.
Qed.
End Completes.

Ltac completes_step Hq :=
  first
    [ apply completes_ret; done
    | apply completes_now
    | apply completes_perform; exact Hq
    | apply completes_get_bind; intros ? ?
    | apply (completes_bind _ (fun _ => True)); [|intros ? _] ].

Lemma apply_due_completes env page n f pending :
  never_fails env ->
  Forall (fun r => r < n) pending ->
  completes (fun s : list Intervention => length s = n)
            (Forall (fun r => r < n))
            (apply_due env page f pending).
Proof.
  intros Hq. induction 1 as [|r rest Hr Hv IH].
  - by apply completes_ret.
  - simpl. apply completes_get_bind. intros s Hs.
    destruct (lookup_lt_is_Some_2 s r) as [iv ->]; [lia|].
    destruct (frame iv =? f)%Z; [|apply completes_ret; by constructor].
    unfold applyIntervention, perform_unit, perform_num. destruct (type iv).
    repeat completes_step Hq; [|exact IH].
    apply completes_modify. intros s' <-. apply length_alter.
Qed.

Lemma capture_frames_completes env page config dir sorted n k :
  never_fails env -> forall f pending annots,
  Forall (fun r => r < n) pending ->
  completes (fun s : list Intervention => length s = n) (fun _ => True)
    (capture_frames env page config dir sorted k f pending annots).
Proof.
  intros Hq. induction k as [|k IH]; intros f pending annots Hv.
  - by apply completes_ret.
  - simpl. eapply completes_bind; [by apply apply_due_completes|].
    intros pending' Hv'.
    unfold saveFrame, perform_unit, perform_str, perform_num.
    repeat completes_step Hq. by apply IH.
Qed.

Lemma run_completes env page html config w :
  never_fails env ->
  exists md w', run env page html config w = (Done md, w').
Proof.
  intros Hq.
  assert (H : completes (fun s : list Intervention => length s = length (st w))
                (fun _ => True) (run env page html config)).
  { unfold run, collectMetadata, perform_unit, perform_options, perform_num.
    repeat first
      [ completes_step Hq
      | match goal with |- completes _ _ (match ?x with _ => _ end) => destruct x end ].
    apply capture_frames_completes; [done|].
    apply Forall_forall. intros r Hr. apply elem_of_sorted_refs in Hr. lia. }
  destruct (H w eq_refl) as (md & w' & Hrun & _). eauto.
Qed.

(** ** Frame files *)

Lemma quiet_env_never_fails : never_fails quiet_env.
Proof. by intros h c. Qed.

Lemma Forall2_map_diag {A B} (P : A -> B -> Prop) (f : A -> B) (l : list A) :
  Forall2 P l (map f l) <-> forall x, x ∈ l -> P x (f x).
Proof.
  induction l as [|x l IH]; simpl.
  - split; [intros _ x Hx; by apply elem_of_nil in Hx|constructor].
  - rewrite Forall2_cons, IH. split.
    + intros [Hx Hl] y Hy. apply elem_of_cons in Hy as [->|Hy]; auto.
    + intros H. split; [apply H; apply elem_of_cons; by left|].
      intros y Hy. apply H. apply elem_of_cons. by right.
Qed.

(** C2 (amended).  A run that completes with [totalFrames = n >= 0] writes
    into the frames directory exactly one file per frame index [0 .. n-1], in
    ascending order of the index and without duplicate, each named by the
    index in decimal padded with zeros to six digits; the name has exactly six
    digits for every index below 1000000. *)
Theorem run_writes_one_file_per_frame env page html config history md w' :
  (0 <= totalFrames config)%Z ->
  run_job env page html config history = (Done md, w') ->
  exists evs, log w' = history ++ evs /\
    let names := writes_in (frames_dir config) evs in
    length names = Z.to_nat (totalFrames config) /\
    Forall2 padded_name (seqZ 0 (totalFrames config)) names /\
    NoDup names.
Proof.
  intros Hn H. unfold run_job in H.
  apply run_frame_writes in H as (evs & Hlog & Hwr). simpl in Hlog.
  exists evs. split; [done|]. simpl. rewrite Hwr, Z2Nat.id by done.
  split; [by rewrite length_map, length_seqZ|]. split.
  - apply Forall2_map_diag. intros i Hi. apply elem_of_seqZ in Hi.
    destruct (frame_digits i) as (E & V & D & L6 & L); [lia|].
    eexists. eauto.
  - apply NoDup_fmap_2_strong; [|apply NoDup_seqZ].
    intros i j Hi Hj. apply elem_of_seqZ in Hi, Hj. apply frame_filename_inj; lia.
Qed.

Lemma run_writes_one_file_per_frame_witness :
  exists md w',
    run_job quiet_env demo_page "index.html" demo_config [] = (Done md, w') /\
    exists evs, log w' = [] ++ evs /\
      let names := writes_in (frames_dir demo_config) evs in
      length names = Z.to_nat (totalFrames demo_config) /\
      Forall2 padded_name (seqZ 0 (totalFrames demo_config)) names /\
      NoDup names.
Proof.
  eexists _, _. split; [vm_compute; reflexivity|].
  eapply (run_writes_one_file_per_frame quiet_env demo_page "index.html" demo_config []);
    [vm_compute; discriminate|vm_compute; reflexivity].
Defined.

(** C2 as the specification states it fails: the 1000001 frames of
    [long_config] are all written, and the last of them is [1000000.png],
    seven digits. *)
Lemma run_frame_names_exceed_six_digits :
  exists md w' evs,
    run_job quiet_env demo_page "index.html" long_config [] = (Done md, w') /\
    log w' = [] ++ evs /\
    "1000000.png" ∈ writes_in (frames_dir long_config) evs /\
    ~ Forall2 six_digit_name (seqZ 0 (totalFrames long_config))
        (writes_in (frames_dir long_config) evs).
Proof.
  destruct (run_completes quiet_env demo_page "index.html" long_config
              (mkWorld (default [] (interventions long_config)) []) quiet_env_never_fails)
    as (md & w' & Hrun).
  pose proof Hrun as H. apply run_frame_writes in H as (evs & Hlog & Hwr).
  change (totalFrames long_config) with 1000001%Z in *.
  rewrite Z2Nat.id in Hwr by done.
  assert (Hname : frame_filename 1000000%Z = "1000000.png") by (by vm_compute).
  exists md, w', evs. split; [exact Hrun|]. split; [exact Hlog|]. rewrite Hwr. split.
  - apply list_elem_of_fmap. exists 1000000%Z. split; [done|].
    apply elem_of_seqZ. lia.
  - intros HF.
    pose proof (proj1 (Forall2_map_diag six_digit_name frame_filename _) HF) as HF'.
    destruct (HF' 1000000%Z) as (digits & E & _ & _ & L).
    { apply elem_of_seqZ. lia. }
    rewrite Hname in E. change "1000000.png" with ("1000000" +:+ ".png") in E.
    apply string_app_inv_tail in E. subst digits. simpl in L. lia.
Qed.

(** ** Order of the set-up calls *)

Lemma emits_weaken {S A} (P P' : S -> Event -> Prop) (I I' : S -> S -> Prop) (m : M S A) :
  emits P I m -> (forall s e, P s e -> P' s e) -> (forall s s', I s s' -> I' s s') ->
  emits P' I' m.
Proof.
  intros Hm HP HI w r w' H. apply Hm in H as (evs & Hlog & Hall & Hi).
  exists evs. split; [done|]. split; [|by apply HI].
  eapply Forall_impl; [exact Hall|]. apply HP.
Qed.

#[export] Instance trivial_stable {S} :
  Stable (fun (_ : S) (_ : Event) => True) (fun _ _ => True).
Proof. by split. Qed.

Lemma run_tail_extends {A} (m : M (list Intervention) A) w r w' :
  emits (fun _ _ => True) (fun _ _ => True) m ->
  m w = (r, w') -> exists evs, log w' = log w ++ evs.
Proof. intros Hm H. apply Hm in H as (evs & ? & _). eauto. Qed.

(** C7.  When the job carries a seed, the evaluation that injects it is the
    first thing the run does inside the page: whatever else is evaluated
    there (the option overrides with their [updateProblem], the [reset], the
    frame loop) comes after the seed was injected; a run that completes has
    injected it. *)
Theorem run_injects_seed_first env page html config history seed r w' :
  randomSeed config = Some seed ->
  run_job env page html config history = (r, w') ->
  exists evs, log w' = history ++ evs /\
    (forall i e, evs !! i = Some e -> other_evaluation seed e ->
       exists j, j < i /\ evs !! j = Some (seed_event page seed)) /\
    (forall md, r = Done md -> seed_event page seed ∈ evs).
Proof.
  intros Hseed H. unfold run_job, run in H. rewrite Hseed in H.
  unfold perform_unit at 1 2 3 4 in H.
  set (objs := default [] (interventions config)) in *.
  assert (Hshort : forall evs : list Event,
    Forall (fun e => ~ other_evaluation seed e) evs ->
    (forall i e, evs !! i = Some e -> other_evaluation seed e ->
       exists j, j < i /\ evs !! j = Some (seed_event page seed))).
  { intros evs Hall i e Hi He. rewrite Forall_forall in Hall.
    destruct (Hall e); [|done]. by eapply list_elem_of_lookup_2. }
  assert (Hno : forall site c a, (forall p sc, c <> Evaluate p sc) ->
            ~ other_evaluation seed (mkEvent site c a)).
  { intros site c a Hc (p & sc & Hcall & _). simpl in Hcall. by eapply Hc. }
  assert (Hself : forall site a,
            ~ other_evaluation seed (mkEvent site (Evaluate page [SetSeed seed]) a)).
  { intros site a (p & sc & Hcall & Hne). simpl in Hcall. congruence. }
  apply bind_inv in H as [(x1 & w1 & Hm & H)|(e & Hm & ->)];
    apply perform_inv in Hm as (a1 & -> & _).
  2:{ eexists [_]. split; [done|]. split; [|discriminate].
      apply Hshort. repeat constructor. by apply Hno. }
  apply bind_inv in H as [(x2 & w2 & Hm & H)|(e & Hm & ->)];
    apply perform_inv in Hm as (a2 & -> & _).
  2:{ eexists [_; _]. simpl. rewrite <- app_assoc. split; [done|]. split; [|discriminate].
      apply Hshort. repeat constructor; by apply Hno. }
  apply bind_inv in H as [(x3 & w3 & Hm & H)|(e & Hm & ->)];
    apply perform_inv in Hm as (a3 & -> & _).
  2:{ eexists [_; _; _]. simpl. rewrite <- !app_assoc. split; [done|]. split; [|discriminate].
      apply Hshort. repeat constructor; by apply Hno. }
  apply bind_inv in H as [(x4 & w4 & Hm & H)|(e & Hm & ->)];
    apply perform_inv in Hm as (a4 & -> & Ha4).
  2:{ eexists [_; _; _; _]. simpl. rewrite <- !app_assoc. split; [done|].
      split; [|discriminate].
      apply Hshort. repeat constructor; (by apply Hno) || apply Hself. }
  destruct Ha4 as [(_ & _ & ->)|(msg & _ & ? & _)]; [|discriminate].
  simpl in H.
  eapply run_tail_extends in H as (rest & Hlog).
  2:{ unfold collectMetadata, perform_unit, perform_options, perform_num.
      repeat first
        [ apply _
        | apply emits_ret | apply emits_get | apply emits_now
        | eapply emits_weaken; [apply capture_frames_emits|done|done]
        | apply emits_perform; [apply _|done]
        | apply emits_bind; [..|intros ?]
        | match goal with |- emits _ _ (match ?x with _ => _ end) => destruct x end ]. }
  simpl in Hlog. rewrite <- !app_assoc in Hlog. simpl in Hlog.
  eexists. split; [exact Hlog|]. split.
  - intros i e Hi He.
    destruct i as [|[|[|[|i]]]]; simpl in Hi.
    + injection Hi as <-. exfalso. eapply Hno; [|exact He]. done.
    + injection Hi as <-. exfalso. eapply Hno; [|exact He]. done.
    + injection Hi as <-. exfalso. eapply Hno; [|exact He]. done.
    + injection Hi as <-. exfalso. eapply Hself. exact He.
    + exists 3. split; [lia|done].
  - intros _ _. apply list_elem_of_lookup. by exists 3.
Qed.

Lemma run_injects_seed_first_witness :
  exists r w',
    run_job quiet_env demo_page "index.html" demo_config [] = (r, w') /\
    exists evs, log w' = [] ++ evs /\
      (forall i e, evs !! i = Some e -> other_evaluation 42%Z e ->
         exists j, j < i /\ evs !! j = Some (seed_event demo_page 42%Z)) /\
      (forall md, r = Done md -> seed_event demo_page 42%Z ∈ evs).
Proof.
  eexists _, _. split; [vm_compute; reflexivity|].
  eapply (run_injects_seed_first quiet_env demo_page "index.html" demo_config []);
    [reflexivity|vm_compute; reflexivity].
Defined.

(** ** Interventions scheduled past the last frame *)



(** ** The timeline of the frame loop *)









(** ** Interrupted runs *)





(** ** The phases of a run *)

#[export] Instance at_site_stable site : Stable (at_site site) unchanged.
Proof.
  split.
  - by intros s.
  - intros s1 s2 s3. unfold unchanged. congruence.
  - by intros s s' e _.
Qed.

Lemma bind_phase {A B} site (m : M (list Intervention) A)
    (k : A -> M (list Intervention) B) w0 w pre r w' :
  emits (at_site site) unchanged m ->
  log w = log w0 ++ pre -> st w = st w0 -> Forall (fun e => ev_site e = site) pre ->
  bind m k w = (r, w') ->
  (exists pre', log w' = log w0 ++ pre' /\ st w' = st w0 /\
     Forall (fun e => ev_site e = site) pre' /\ exists msg, r = Throw msg) \/
  (exists a w1 pre', log w1 = log w0 ++ pre' /\ st w1 = st w0 /\
     Forall (fun e => ev_site e = site) pre' /\ k a w1 = (r, w')).
Proof.
  intros Hm Hlog Hst Hpre H.
  apply bind_inv in H as [(a & w1 & Hmw & Hkw)|(e & Hmw & ->)];
    destruct (Hm _ _ _ Hmw) as (evs & Hl & Hp & Hi); unfold unchanged in Hi.
  - right. exists a, w1, (pre ++ evs). rewrite Hl, Hlog, app_assoc, Hi.
    split; [done|]. split; [done|]. split; [|done]. apply Forall_app. by split.
  - left. exists (pre ++ evs). rewrite Hl, Hlog, app_assoc, Hi.
    split; [done|]. split; [done|]. split; [|eauto]. apply Forall_app. by split.
Qed.

Lemma run_phases env page html config w r w' :
  run env page html config w = (r, w') ->
  exists pre w0,
    log w0 = log w ++ pre /\ st w0 = st w /\ Forall (fun e => ev_site e = InSetup) pre /\
    ((w' = w0 /\ exists msg, r = Throw msg) \/
     (exists msg,
        capture_frames env page config (frames_dir config) (sorted_refs (st w))
          (Z.to_nat (totalFrames config)) 0%Z (sorted_refs (st w)) [] w0 = (Throw msg, w') /\
        r = Throw msg) \/
     (exists annots w1 post,
        capture_frames env page config (frames_dir config) (sorted_refs (st w))
          (Z.to_nat (totalFrames config)) 0%Z (sorted_refs (st w)) [] w0 = (Done annots, w1) /\
        log w' = log w1 ++ post /\ st w' = st w1 /\
        Forall (fun e => ev_site e = InMetadata) post)).
Proof.
  intros H. unfold run in H.
  assert (Hsetup : forall c, emits (at_site InSetup) unchanged
                               (perform_unit env InSetup c : M (list Intervention) unit)).
  { intros c. apply emits_perform; [apply _|done]. }
  assert (Hl0 : log w = log w ++ []) by (by rewrite app_nil_r).
  eapply (bind_phase InSetup) in H; [|apply Hsetup|exact Hl0|done|constructor].
  destruct H as [(pre & Hl & Hs & Hp & Hr)|(x1 & w1 & pre1 & Hl1 & Hs1 & Hp1 & H)];
    [by exists pre, w'; repeat (split; [done|]); left|].
  eapply (bind_phase InSetup) in H; [|apply Hsetup|exact Hl1|done|done].
  destruct H as [(pre & Hl & Hs & Hp & Hr)|(x2 & w2 & pre2 & Hl2 & Hs2 & Hp2 & H)];
    [by exists pre, w'; repeat (split; [done|]); left|].
  eapply (bind_phase InSetup) in H; [|apply Hsetup|exact Hl2|done|done].
  destruct H as [(pre & Hl & Hs & Hp & Hr)|(x3 & w3 & pre3 & Hl3 & Hs3 & Hp3 & H)];
    [by exists pre, w'; repeat (split; [done|]); left|].
  eapply (bind_phase InSetup) in H; [| |exact Hl3|done|done].
  2:{ destruct (randomSeed config); [apply Hsetup|apply emits_ret; apply _]. }
  destruct H as [(pre & Hl & Hs & Hp & Hr)|(x4 & w4 & pre4 & Hl4 & Hs4 & Hp4 & H)];
    [by exists pre, w'; repeat (split; [done|]); left|].
  eapply (bind_phase InSetup) in H; [| |exact Hl4|done|done].
  2:{ destruct (options config) as [[|? ?]|];
        [apply emits_ret; apply _|apply Hsetup|apply emits_ret; apply _]. }
  destruct H as [(pre & Hl & Hs & Hp & Hr)|(x5 & w5 & pre5 & Hl5 & Hs5 & Hp5 & H)];
    [by exists pre, w'; repeat (split; [done|]); left|].
  eapply (bind_phase InSetup) in H; [|apply Hsetup|exact Hl5|done|done].
  destruct H as [(pre & Hl & Hs & Hp & Hr)|(x6 & w6 & pre6 & Hl6 & Hs6 & Hp6 & H)];
    [by exists pre, w'; repeat (split; [done|]); left|].
  unfold bind at 1, get in H. simpl in H. rewrite Hs6 in H.
  exists pre6, w6. split; [done|]. split; [done|]. split; [done|]. right.
  apply bind_inv in H as [(annots & w7 & Hloop & H)|(e & Hloop & ->)]; [right|left; eauto].
  exists annots, w7. 
  assert (Hpost : emits (at_site InMetadata) unchanged
            (metadata <- collectMetadata env page config annots ;;
             perform_unit env InMetadata
               (WriteFile (outputDir config ++ ["metadata.json"]) (MetadataDoc metadata)) ;;;
             ret metadata)).
  { unfold collectMetadata, perform_unit, perform_options, perform_num.
    repeat first
      [ apply _
      | apply emits_ret | apply emits_get | apply emits_now
      | apply emits_perform; [apply _|done]
      | apply emits_bind; [..|intros ?] ]. }
  apply Hpost in H as (post & Hl & Hp & Hi). exists post. done.
Qed.











(** A run of [demo_config] that is interrupted while it reads the time of
    the first intervention of frame 2: frames 0 and 1 are complete, the
    intervention of frame 0 came before them, and nothing of frame 2 was
    stepped. *)
Lemma run_interrupted_in_frame_two :
  fst (run_job (rejecting_at 17) demo_page "index.html" demo_config []) = Throw "rejected" /\
  drop 6 (map step_of (log (snd (run_job (rejecting_at 17) demo_page "index.html"
                                    demo_config [])))) =
    [Applied 0%Z 1; TimeRead 0%Z 1 (Some 7%Z)]
    ++ frame_steps (frames_dir demo_config) 0%Z
    ++ frame_steps (frames_dir demo_config) 1%Z
    ++ [Applied 2%Z 0; TimeRead 2%Z 0 None] /\
  map simulationTime (st (snd (run_job (rejecting_at 17) demo_page "index.html"
                                 demo_config []))) = [None; Some 7%Z; None; None].
Proof. split; [|split]; vm_compute; reflexivity. Qed.

(** ** One attempt of the scheduler *)

Lemma attempt_once_paths env html config attempt w :
  exists r w' evs,
    attempt_once env html config attempt w = (r, w') /\
    log w' = log w ++ evs /\
    entry_kept (id config) (st w) (st w') /\
    ((exists msg, evs = [mkEvent (InAttempt attempt) AcquirePage (ARejected msg)] /\
                  r = Throw msg) \/
     (exists page a_run a_release,
        evs = attempt_events html config attempt page a_run a_release /\
        ((exists md, r = Done md /\ a_run = AMetadata md /\ a_release = AOk) \/
         (exists msg, r = Throw msg /\
            (a_release = ARejected msg \/
             (a_release = AOk /\ a_run = ARejected msg)))))).
Proof.
  unfold attempt_once, bind, try_finally, perform_page, perform_metadata, perform_unit,
    perform, now, modify, ret, attempt_events.
  assert (Hkeep : forall s : Orch, entry_kept (id config) s s).
  { intros s job Hjob. eauto. }
  assert (Hdone : forall (s : Orch) t, entry_kept (id config) s
                    (count_completed (with_job (id config) (mark_completed t) s))).
  { intros s t job Hjob. exists (mark_completed t job). split; [|done].
    simpl. by rewrite lookup_alter_eq, Hjob. }
  destruct (env_fails env (log w) AcquirePage) as [msg|] eqn:Hacq; simpl.
  { eexists _, _, [_]. split; [done|]. simpl. split; [done|]. split; [apply Hkeep|].
    left. eauto. }
  set (page := env_page env (log w)).
  set (l1 := log w ++ [mkEvent (InAttempt attempt) AcquirePage (APage page)]).
  destruct (env_fails env l1 (RunSimulation page html config)) as [msg|] eqn:Hrun; simpl.
  - set (l2 := l1 ++ [_]).
    destruct (env_fails env l2 (ReleasePage page)) as [msg'|] eqn:Hrel; simpl;
      eexists _, _, [_; _; _]; (split; [done|]); simpl; subst l2 l1;
      rewrite <- !app_assoc; simpl; (split; [done|]); (split; [apply Hkeep|]);
      right; eexists _, _, _; (split; [done|]); right; eauto 10.
  - set (l2 := l1 ++ [_]).
    destruct (env_fails env l2 (ReleasePage page)) as [msg'|] eqn:Hrel; simpl;
      eexists _, _, [_; _; _]; (split; [done|]); simpl; subst l2 l1;
      rewrite <- !app_assoc; simpl; (split; [done|]); (split; [apply Hdone|]);
      right; eexists _, _, _; (split; [done|]); [right|left]; eauto 10.
Qed.

Lemma on_failure_spec env maxRetries config attempt msg w job :
  jobs (st w) !! id config = Some job ->
  exists w' evs job',
    on_failure env maxRetries config attempt msg w = (Done tt, w') /\
    log w' = log w ++ evs /\
    jobs (st w') !! id config = Some job' /\
    retryCount job' = (retryCount job + 1)%Z /\
    if (attempt <? maxRetries)%Z
    then evs = [mkEvent (InAttempt attempt) (Sleep (1000 * (attempt + 1))%Z) AOk]
    else persisted env config (retryCount job + 1)%Z evs.
Proof.
  intros Hjob. unfold on_failure.
  unfold bind at 1, modify at 1. simpl.
  destruct (attempt <? maxRetries)%Z.
  - unfold sleep. simpl. eexists _, [_], (note_failure msg job).
    split; [done|]. split; [done|]. simpl. rewrite lookup_alter_eq, Hjob. done.
  - unfold bind, now, modify, try_catch, perform_unit, perform, get, ret, throw. simpl.
    set (s1 := count_failed _).
    assert (Hj1 : jobs s1 !! id config =
                  Some (mark_failed (env_clock env (log w)) (note_failure msg job))).
    { subst s1. simpl. by rewrite !lookup_alter_eq, Hjob. }
    destruct (env_fails env (log w) (Mkdir (outputDir config))) as [m1|] eqn:Hmk; simpl.
    + eexists _, [_], _. split; [done|]. split; [done|]. split; [exact Hj1|].
      split; [done|]. exists (InAttempt attempt). split; [left; eauto|].
      intros Hfs. destruct (Hfs (log w)) as [Hd _]. by rewrite Hd in Hmk.
    + rewrite !lookup_alter_eq, Hjob. simpl.
      match goal with |- context [env_fails env ?l (WriteFile ?f ?d)] =>
        destruct (env_fails env l (WriteFile f d)) as [m2|] eqn:Hwr end; simpl.
      * eexists _, [_; _], _. split; [done|]. simpl. rewrite <- app_assoc.
        split; [done|]. split; [exact Hj1|]. split; [done|].
        exists (InAttempt attempt). split.
        -- right. eexists _, _. split; [done|]. split; [done|]. split; [done|].
           intros Hfs. destruct (Hfs (log w ++ [mkEvent (InAttempt attempt)
                                   (Mkdir (outputDir config)) AOk])) as [_ Hw].
           by rewrite Hw in Hwr.
        -- intros Hfs. destruct (Hfs (log w ++ [mkEvent (InAttempt attempt)
                                   (Mkdir (outputDir config)) AOk])) as [_ Hw].
           by rewrite Hw in Hwr.
      * eexists _, [_; _], _. split; [done|]. simpl. rewrite <- app_assoc.
        split; [done|]. split; [exact Hj1|]. split; [done|].
        exists (InAttempt attempt). split; [|eauto].
        right. eexists _, _. split; [done|]. done.
Qed.

(** ** The retry loop *)

Lemma count_runs_app l1 l2 : count_runs (l1 ++ l2) = count_runs l1 + count_runs l2.
Proof. unfold count_runs. by rewrite List.filter_app, length_app. Qed.

Lemma count_attempts_app l1 l2 :
  count_attempts (l1 ++ l2) = count_attempts l1 + count_attempts l2.
Proof. unfold count_attempts. by rewrite List.filter_app, length_app. Qed.

Lemma error_writes_app config l1 l2 :
  error_writes config (l1 ++ l2) = error_writes config l1 ++ error_writes config l2.
Proof. apply omap_app. Qed.

Lemma persisted_counts env config n evs :
  persisted env config n evs ->
  count_runs evs = 0 /\ count_attempts evs = 0 /\
  length (error_writes config evs) <= 1 /\
  Forall (fun da => exists e, fst da = ErrorDoc e /\ er_id e = id config /\
                              er_retryCount e = n) (error_writes config evs) /\
  (fs_reliable env ->
   exists e, error_docs config evs = [ErrorDoc e] /\ er_id e = id config /\
             er_retryCount e = n).
Proof.
  intros (site & [(msg & ->)|(e & a & -> & Hid & Hn & Ha)] & Hfs).
  - split; [done|]. split; [done|]. split; [simpl; lia|]. split; [apply Forall_nil_2|].
    intros H. destruct (Hfs H) as (e & He). discriminate.
  - unfold error_docs, error_writes. simpl. rewrite decide_True by done. simpl.
    split; [done|]. split; [done|]. split; [lia|]. split.
    + apply Forall_cons. split; [eauto|apply Forall_nil_2].
    + intros H. rewrite (Ha H). simpl. eauto.
Qed.

(** The result of a retry loop whose entry in [jobs] exists: [k] attempts are
    left, the next is number [attempt], and the last has number [maxRetries]. *)
Lemma attempts_spec env html maxRetries config k : forall attempt w job,
  (attempt + Z.of_nat k = maxRetries + 1)%Z ->
  jobs (st w) !! id config = Some job ->
  exists o w' evs,
    attempts env html maxRetries config k attempt w = (Done o, w') /\
    log w' = log w ++ evs /\
    count_runs evs <= k /\
    match o with
    | Some md =>
        error_writes config evs = [] /\
        exists pre att page,
          evs = pre ++ attempt_events html config att page (AMetadata md) AOk
    | None =>
        count_attempts evs = k /\
        (k = 0 -> evs = []) /\
        (0 < k -> exists pre last,
           evs = pre ++ last /\ error_writes config pre = [] /\
           persisted env config (retryCount job + Z.of_nat k)%Z last)
    end.
Proof.
  induction k as [|k IH]; intros attempt w job Hk Hjob.
  - exists None, w, []. simpl. rewrite app_nil_r. repeat split; auto; lia.
  - simpl.
    destruct (attempt_once_paths env html config attempt w)
      as (r1 & w1 & evs1 & Hrun1 & Hlog1 & Hkeep & Hpaths).
    unfold bind at 1. unfold try_catch. unfold bind at 1. rewrite Hrun1.
    assert (Hev1 : count_runs evs1 <= 1 /\ count_attempts evs1 = 1 /\
                   error_writes config evs1 = []).
    { destruct Hpaths as [(msg & -> & _)|(page & a1 & a2 & -> & _)];
        unfold count_runs, count_attempts, error_writes, attempt_events; simpl;
        (split; [lia|done]). }
    destruct Hev1 as (Hruns1 & Hatt1 & Herr1).
    destruct r1 as [md|msg].
    + (* the attempt returned *)
      exists (Some md), w1, evs1. simpl. split; [done|]. split; [done|].
      split; [lia|]. split; [done|].
      destruct Hpaths as [(msg & _ & ?)|(page & a1 & a2 & -> & Hr)]; [discriminate|].
      destruct Hr as [(md' & [= <-] & -> & ->)|(msg & ? & _)]; [|discriminate].
      exists [], attempt, page. done.
    + (* the attempt threw: the catch block, then the next iteration *)
      destruct (Hkeep job Hjob) as (job1 & Hjob1 & Hc1).
      destruct (on_failure_spec env maxRetries config attempt msg w1 job1 Hjob1)
        as (w2 & evs2 & job2 & Hrun2 & Hlog2 & Hjob2 & Hc2 & Hbranch).
      unfold bind at 1. rewrite Hrun2. simpl.
      destruct (IH (attempt + 1)%Z w2 job2) as (o & w3 & evs3 & -> & Hlog3 & Hruns3 & Ho);
        [lia|done|].
      exists o, w3, (evs1 ++ evs2 ++ evs3). split; [done|].
      split. { by rewrite Hlog3, Hlog2, Hlog1, <- !app_assoc. }
      destruct (Z.ltb_spec attempt maxRetries) as [Hlt|Hge].
      * (* attempts remain: the timer *)
        subst evs2. rewrite !count_runs_app. split; [change (count_runs [_]) with 0; lia|].
        destruct o as [md|].
        -- destruct Ho as (Herr3 & pre & att & page & ->). split.
           ++ rewrite !error_writes_app, Herr1. simpl. rewrite error_writes_app in Herr3.
              exact Herr3.
           ++ exists (evs1 ++ [mkEvent (InAttempt attempt)
                                 (Sleep (1000 * (attempt + 1))%Z) AOk] ++ pre), att, page.
              by rewrite <- !app_assoc.
        -- destruct Ho as (Hatt3 & _ & Hlast). split; [|split; [lia|]].
           ++ rewrite !count_attempts_app, Hatt1, Hatt3. by vm_compute.
           ++ intros _. destruct Hlast as (pre & last & -> & Herr3 & Hper); [lia|].
              exists (evs1 ++ [mkEvent (InAttempt attempt)
                                 (Sleep (1000 * (attempt + 1))%Z) AOk] ++ pre), last.
              rewrite <- !app_assoc.
              split; [done|]. split.
              ** rewrite !error_writes_app, Herr1, Herr3. done.
              ** replace (retryCount job + Z.of_nat (S k))%Z
                   with (retryCount job2 + Z.of_nat k)%Z by lia. done.
      * (* this was the last attempt: the error record *)
        assert (k = 0) as -> by lia.
        destruct (persisted_counts _ _ _ _ Hbranch) as (Hr2 & Ha2 & _).
        destruct o as [md|].
        -- destruct Ho as (_ & pre & att & page & ->). exfalso.
           rewrite count_runs_app in Hruns3.
           change (count_runs (attempt_events _ _ _ _ _ _)) with 1 in Hruns3. lia.
        -- destruct Ho as (_ & Hnil & _). rewrite (Hnil eq_refl), !app_nil_r.
           rewrite count_runs_app, Hr2. split; [lia|].
           rewrite count_attempts_app, Hatt1, Ha2. split; [done|]. split; [done|].
           intros _. exists evs1, evs2. split; [done|]. split; [done|].
           replace (retryCount job + Z.of_nat 1)%Z with (retryCount job1 + 1)%Z by lia.
           done.
Qed.

(** A retry loop that comes back with [null] has seen every attempt fail. *)
Lemma attempts_none_failed env html maxRetries config k : forall attempt w job w',
  jobs (st w) !! id config = Some job ->
  attempts env html maxRetries config k attempt w = (Done None, w') ->
  exists evs, log w' = log w ++ evs /\ every_attempt_failed evs.
Proof.
  induction k as [|k IH]; intros attempt w job w' Hjob H.
  - injection H as <-. exists []. split; [by rewrite app_nil_r|].
    intros site page h c md Hin. by apply elem_of_nil in Hin.
  - simpl in H.
    destruct (attempt_once_paths env html config attempt w)
      as (r1 & w1 & evs1 & Hrun1 & Hlog1 & Hkeep & Hpaths).
    unfold bind at 1, try_catch, bind at 1 in H. rewrite Hrun1 in H.
    destruct r1 as [md|msg]; [discriminate|].
    destruct (Hkeep job Hjob) as (job1 & Hjob1 & _).
    destruct (on_failure_spec env maxRetries config attempt msg w1 job1 Hjob1)
      as (w2 & evs2 & job2 & Hrun2 & Hlog2 & Hjob2 & _ & Hbranch).
    unfold bind at 1 in H. rewrite Hrun2 in H. simpl in H.
    destruct (IH _ _ _ _ Hjob2 H) as (evs3 & Hlog3 & Hfail3).
    exists (evs1 ++ evs2 ++ evs3). split.
    { by rewrite Hlog3, Hlog2, Hlog1, <- !app_assoc. }
    intros site page h c md Hin. rewrite !elem_of_app in Hin.
    destruct Hin as [Hin|[Hin|Hin]].
    + destruct Hpaths as [(m & -> & _)|(p & a1 & a2 & -> & Hr)].
      * apply list_elem_of_singleton in Hin. discriminate.
      * destruct Hr as [(? & ? & _)|(m & _ & Hr)]; [discriminate|].
        unfold attempt_events in Hin.
        apply elem_of_cons in Hin as [Hin|Hin]; [discriminate|].
        apply elem_of_cons in Hin as [Hin|Hin].
        -- simplify_eq.
           destruct Hr as [-> | [_ ?]]; [|discriminate].
           exists m. rewrite !elem_of_app. left. unfold attempt_events.
           do 2 (apply elem_of_cons; right). apply elem_of_cons. by left.
        -- apply list_elem_of_singleton in Hin. discriminate.
    + exfalso. destruct (attempt <? maxRetries)%Z.
      * subst evs2. apply list_elem_of_singleton in Hin. discriminate.
      * destruct Hbranch as (s & [(m & ->)|(e & a & -> & _)] & _).
        -- apply list_elem_of_singleton in Hin. discriminate.
        -- apply elem_of_cons in Hin as [Hin|Hin]; [discriminate|].
           apply list_elem_of_singleton in Hin. discriminate.
    + destruct (Hfail3 _ _ _ _ _ Hin) as (m & Hm). exists m.
      rewrite !elem_of_app. auto.
Qed.

(** C1 (amended).  For a job registered with retry count 0 and a retry budget
    [maxRetries >= 0], the retry wrapper always returns; it invokes the runner
    at most [maxRetries + 1] times; when it returns the metadata of an attempt
    (whose acquisition, run and release all completed normally) no write of
    [error.json] was even attempted; when it returns [null], every attempt
    failed, all [maxRetries + 1] attempts were made, at most one write of
    [error.json] was attempted, with retry count [maxRetries + 1], and
    exactly one [error.json] document was written provided the file system
    rejects nothing (a rejected directory creation or write is swallowed and
    leaves no document). *)
Theorem runWithRetry_bounded_and_error_record env html maxRetries config w job :
  (0 <= maxRetries)%Z ->
  jobs (st w) !! id config = Some job ->
  retryCount job = 0%Z ->
  exists o w' evs,
    runWithRetry env html maxRetries config w = (Done o, w') /\
    log w' = log w ++ evs /\
    (Z.of_nat (count_runs evs) <= maxRetries + 1)%Z /\
    match o with
    | Some md =>
        error_writes config evs = [] /\
        exists pre att page,
          evs = pre ++ attempt_events html config att page (AMetadata md) AOk
    | None =>
        every_attempt_failed evs /\
        Z.of_nat (count_attempts evs) = (maxRetries + 1)%Z /\
        length (error_writes config evs) <= 1 /\
        Forall (fun da => exists e, fst da = ErrorDoc e /\ er_id e = id config /\
                                    er_retryCount e = (maxRetries + 1)%Z)
               (error_writes config evs) /\
        (fs_reliable env ->
         exists e, error_docs config evs = [ErrorDoc e] /\
                   er_retryCount e = (maxRetries + 1)%Z)
    end.
Proof.
  intros Hmax Hjob Hzero. unfold runWithRetry.
  unfold bind at 1. simpl. rewrite Hjob. unfold bind at 1. simpl.
  unfold bind at 1. simpl.
  set (w1 := mkWorld _ _).
  assert (Hjob1 : jobs (st w1) !! id config
                  = Some (mark_running (env_clock env (log w)) job)).
  { subst w1. simpl. by rewrite lookup_alter_eq, Hjob. }
  destruct (attempts_spec env html maxRetries config (Z.to_nat (maxRetries + 1)) 0%Z w1
              (mark_running (env_clock env (log w)) job))
    as (o & w' & evs & Hrun & Hlog & Hruns & Ho); [lia|done|].
  exists o, w', evs. split; [done|]. split; [done|]. split; [lia|].
  destruct o as [md|]; [done|].
  destruct (attempts_none_failed _ _ _ _ _ _ _ _ _ Hjob1 Hrun) as (evs' & Hlog' & Hfail).
  rewrite Hlog in Hlog'. apply app_inv_head in Hlog'. subst evs'.
  split; [exact Hfail|].
  destruct Ho as (Hatt & _ & Hlast). split; [lia|].
  destruct Hlast as (pre & last & -> & Hpre & Hper); [lia|].
  simpl in Hper. rewrite Hzero in Hper.
  replace (0 + Z.of_nat (Z.to_nat (maxRetries + 1)))%Z with (maxRetries + 1)%Z in Hper by lia.
  destruct (persisted_counts _ _ _ _ Hper) as (_ & _ & Hlen & Hall & Hfs).
  unfold error_docs in *. rewrite error_writes_app, Hpre. simpl.
  split; [done|]. split; [done|].
  intros H. destruct (Hfs H) as (e & He & _ & Hn). eauto.
Qed.

Lemma runWithRetry_bounded_and_error_record_witness :
  exists o w' evs,
    runWithRetry failing_env "index.html" 2%Z demo_config demo_orchestrator = (Done o, w') /\
    log w' = log demo_orchestrator ++ evs /\
    (Z.of_nat (count_runs evs) <= 2 + 1)%Z /\
    match o with
    | Some md =>
        error_writes demo_config evs = [] /\
        exists pre att page,
          evs = pre ++ attempt_events "index.html" demo_config att page (AMetadata md) AOk
    | None =>
        every_attempt_failed evs /\
        Z.of_nat (count_attempts evs) = (2 + 1)%Z /\
        length (error_writes demo_config evs) <= 1 /\
        Forall (fun da => exists e, fst da = ErrorDoc e /\ er_id e = id demo_config /\
                                    er_retryCount e = (2 + 1)%Z)
               (error_writes demo_config evs) /\
        (fs_reliable failing_env ->
         exists e, error_docs demo_config evs = [ErrorDoc e] /\
                   er_retryCount e = (2 + 1)%Z)
    end.
Proof.
  apply (runWithRetry_bounded_and_error_record failing_env "index.html" 2%Z demo_config
           demo_orchestrator (pending_job demo_config)); [lia|reflexivity|reflexivity].
Defined.

(** C1 as the specification states it fails: every attempt of the job fails
    (the pool hands out no page), the creation of the job directory is
    rejected as well, and no [error.json] document is written at all. *)
Lemma runWithRetry_error_record_lost :
  exists w',
    runWithRetry failing_env "index.html" 0%Z demo_config demo_orchestrator
      = (Done None, w') /\
    count_attempts (log w') = 1 /\
    count_runs (log w') = 0 /\
    ~ exists e, error_docs demo_config (log w') = [ErrorDoc e] /\
                er_retryCount e = (0 + 1)%Z.
Proof.
  eexists. split; [vm_compute; reflexivity|]. split; [by vm_compute|].
  split; [by vm_compute|]. intros (e & He & _). vm_compute in He. discriminate.
Qed.

(** C5.  An attempt makes exactly the calls of one of two paths.  Either the
    acquisition is rejected, and the attempt throws without any release; or a
    page is acquired, and then, whether the run returns or throws, that page
    is released exactly once, after the run. *)
Theorem attempt_releases_what_it_acquired env html config attempt w :
  exists evs,
    log (snd (attempt_once env html config attempt w)) = log w ++ evs /\
    ((exists msg,
        evs = [mkEvent (InAttempt attempt) AcquirePage (ARejected msg)] /\
        fst (attempt_once env html config attempt w) = Throw msg /\
        acquired evs = [] /\ released evs = []) \/
     (exists page a_run a_release,
        evs = attempt_events html config attempt page a_run a_release /\
        acquired evs = [page] /\ released evs = [page])).
Proof.
  destruct (attempt_once_paths env html config attempt w)
    as (r & w' & evs & -> & Hlog & _ & Hpaths).
  exists evs. split; [done|]. simpl.
  destruct Hpaths as [(msg & -> & ->)|(page & a1 & a2 & -> & _)].
  - left. exists msg. done.
  - right. exists page, a1, a2. done.
Qed.

(** ** A batch *)

#[export] Instance orch_stable : Stable only_error_writes jobs_kept.
Proof.
  split.
  - intros s. by split.
  - intros s1 s2 s3 [H1 T1] [H2 T2]. split; [|congruence].
    intros k Hk. by apply H2, H1.
  - by intros s s' e _.
Qed.

Lemma jobs_kept_with_job job_id f s : jobs_kept s (with_job job_id f s).
Proof.
  split; [|done].
  intros k [j Hj]. simpl. destruct (decide (job_id = k)) as [->|Hne].
  - rewrite lookup_alter_eq, Hj. by eexists.
  - rewrite lookup_alter_ne by done. by eexists.
Qed.

Ltac orc_emits :=
  repeat match goal with
  | |- Stable _ _ => apply _
  | |- emits _ _ (bind _ _) => apply emits_bind; [apply _|..|intros ?]
  | |- emits _ _ (try_catch _ _) => apply emits_try_catch; [apply _|..|intros ?]
  | |- emits _ _ (try_finally _ _) => apply emits_try_finally; [apply _|..]
  | |- emits _ _ (ret _) => apply emits_ret; apply _
  | |- emits _ _ get => apply emits_get; apply _
  | |- emits _ _ (now _) => apply emits_now; apply _
  | |- emits _ _ (throw _) => apply emits_throw; apply _
  | |- emits _ _ (perform _ _ _ _ _) =>
      apply emits_perform;
        [apply _|intros ? ? ? ? Hcall; simpl in Hcall;
                 first [discriminate Hcall
                       |injection Hcall as <- <-; apply last_snoc]]
  | |- emits _ _ (sleep _ _) => apply emits_sleep; [apply _|intros ? ? ? Hcall; discriminate Hcall]
  | |- emits _ _ (modify _) =>
      apply emits_modify; intros ?; first [apply jobs_kept_with_job | by split]
  | |- emits _ _ (match ?x with _ => _ end) => destruct x
  end.

Lemma attempts_emits env html maxRetries config k attempt :
  emits only_error_writes jobs_kept (attempts env html maxRetries config k attempt).
Proof.
  revert attempt. induction k as [|k IH]; intros attempt; simpl.
  - orc_emits.
  - unfold attempt_once, on_failure, perform_page, perform_metadata, perform_unit.
    orc_emits. apply IH.
Qed.

Lemma runWithRetry_emits env html maxRetries config :
  emits only_error_writes jobs_kept (runWithRetry env html maxRetries config).
Proof. unfold runWithRetry. orc_emits. apply attempts_emits. Qed.

Lemma runWithRetry_returns env html maxRetries config w :
  is_Some (jobs (st w) !! id config) ->
  exists o w' evs,
    runWithRetry env html maxRetries config w = (Done o, w') /\
    log w' = log w ++ evs /\
    Forall (only_error_writes (st w)) evs /\
    jobs_kept (st w) (st w') /\
    (forall md, o = Some md ->
       exists pre att page,
         evs = pre ++ attempt_events html config att page (AMetadata md) AOk).
Proof.
  intros [job Hjob].
  assert (Hrun : exists o w' evs,
            runWithRetry env html maxRetries config w = (Done o, w') /\
            log w' = log w ++ evs /\
            (forall md, o = Some md ->
               exists pre att page,
                 evs = pre ++ attempt_events html config att page (AMetadata md) AOk)).
  { unfold runWithRetry. unfold bind at 1. simpl. rewrite Hjob. unfold bind at 1. simpl.
    unfold bind at 1. simpl. set (w1 := mkWorld _ _).
    destruct (decide (0 <= maxRetries + 1)%Z) as [Hm|Hm].
    - destruct (attempts_spec env html maxRetries config (Z.to_nat (maxRetries + 1)) 0%Z w1
                  (mark_running (env_clock env (log w)) job))
        as (o & w' & evs & Hrun & Hlog & _ & Ho).
      { lia. }
      { subst w1. simpl. by rewrite lookup_alter_eq, Hjob. }
      exists o, w', evs. split; [done|]. split; [done|].
      intros md ->. by destruct Ho as [_ ?].
    - replace (Z.to_nat (maxRetries + 1)) with 0 by lia. simpl.
      exists None, w1, []. split; [done|]. split; [by rewrite app_nil_r|]. done. }
  destruct Hrun as (o & w' & evs & Hrun & Hlog & Ho).
  destruct (runWithRetry_emits env html maxRetries config w _ _ Hrun)
    as (evs' & Hlog' & Hall & Hkept).
  rewrite Hlog in Hlog'. apply app_inv_head in Hlog'. subst evs'.
  exists o, w', evs. done.
Qed.

Lemma index_writes_none config s evs :
  Forall (only_error_writes s) evs -> index_writes config evs = [].
Proof.
  induction 1 as [|e evs He _ IH]; [done|].
  unfold index_writes in *. simpl.
  destruct (ev_call e) eqn:Hc; try done.
  rewrite decide_False; [done|]. intros ->.
  specialize (He _ _ Hc). rewrite last_snoc in He. discriminate.
Qed.

Lemma register_jobs_startTime dflt sims : forall o,
  orch_startTime (register_jobs sims dflt o) = orch_startTime o.
Proof.
  unfold register_jobs. induction sims as [|c sims IH]; intros o; simpl; [done|].
  by rewrite IH.
Qed.

(** ** What the pool operations do to the pool *)

Ltac case_env :=
  repeat match goal with
  | |- context [env_fails ?e ?l ?c] =>
      let E := fresh "E" in destruct (env_fails e l c) eqn:E; simpl
  end.

Lemma release_begin_eq config page w :
  release_begin config page w =
  let b := page_browser page in
  let c := (default 0 (simCountPerBrowser (st w) !! b) + 1)%Z in
  let pool1 := with_simCount (insert b c) (with_busy (fun s => s ∖ {[page]}) (st w)) in
  if (maxSims config <=? c)%Z
  then (Done (KRestart b page),
        mkWorld (with_simCount (delete b) (with_browsers (remove_first b) pool1)) (log w))
  else (Done (KReset page), mkWorld pool1 (log w)).
Proof.
  unfold release_begin, bind, modify, get, ret. simpl.
  by destruct (maxSims config <=? _)%Z.
Qed.

Lemma release_resume_effect env config k w r w' :
  release_resume env config k w = (r, w') ->
  busyPages (st w') = busyPages (st w) /\
  isShuttingDown (st w') = isShuttingDown (st w) /\
  match r with
  | Done None =>
      exists page, k_browsers k = [page_browser page] /\
        availablePages (st w') = availablePages (st w) ++ [page] /\
        simCountPerBrowser (st w') = simCountPerBrowser (st w) /\
        next_browser (st w') = next_browser (st w)
  | Done (Some k') =>
      availablePages (st w') = availablePages (st w) /\
      ((k_browsers k' = k_browsers k /\
        simCountPerBrowser (st w') = simCountPerBrowser (st w) /\
        next_browser (st w') = next_browser (st w)) \/
       (k_browsers k = [] /\ k' = KCreate (next_browser (st w)) /\
        simCountPerBrowser (st w') =
          <[next_browser (st w) := 0%Z]> (simCountPerBrowser (st w)) /\
        next_browser (st w') = S (next_browser (st w))))
  | Throw _ =>
      availablePages (st w') = availablePages (st w) /\
      simCountPerBrowser (st w') = simCountPerBrowser (st w) /\
      next_browser (st w') = next_browser (st w)
  end.
Proof.
  destruct k as [page|old oldp|b];
    unfold release_resume, launchBrowser, createPage, bind, try_catch, perform_unit,
      perform, modify, get, ret; simpl; case_env;
    intros H; inversion H; subst; simpl; repeat split; eauto 10.
  by eexists (mkPage _ _).
Qed.

Lemma releasePage_split env config page w :
  releasePage env config page w =
  (k <- release_begin config page ;; release_finish env config k) w.
Proof.
  unfold releasePage, release_begin, release_finish, restartBrowser, release_resume,
    launchBrowser, createPage, bind, try_catch, perform_unit, perform, modify, get, ret.
  simpl. destruct (maxSims config <=? _)%Z; simpl; case_env; reflexivity.
Qed.

Lemma acquirePage_poll_granted pool page pool' :
  acquirePage_poll pool = Granted page pool' ->
  isShuttingDown pool = false /\
  exists l, availablePages pool = l ++ [page] /\
    pool' = with_busy (fun b => {[page]} ∪ b) (with_available (fun _ => l) pool).
Proof.
  unfold acquirePage_poll. destruct (last (availablePages pool)) as [p|] eqn:Hlast;
    destruct (isShuttingDown pool); try discriminate.
  intros [= <- <-]. split; [done|].
  apply last_Some in Hlast as [l Hl]. exists l. split; [done|].
  unfold with_busy, with_available; simpl. rewrite Hl, removelast_last. done.
Qed.

Lemma acquirePage_poll_empty pool :
  availablePages pool = [] ->
  acquirePage_poll pool =
    if isShuttingDown pool then Rejected "Browser pool is shutting down" else Suspended.
Proof. unfold acquirePage_poll. by intros ->. Qed.

Lemma close_all_done env l (w : World Pool) :
  exists w', close_all env l w = (Done tt, w') /\ st w' = st w.
Proof.
  revert w. induction l as [|b l IH]; intros w; simpl.
  - by exists w.
  - unfold bind, try_catch, perform_unit, perform, ret; simpl.
    destruct (env_fails env (log w) (BrowserClose b)); simpl;
      match goal with |- context [close_all env l ?w1] =>
        destruct (IH w1) as (w' & -> & Hst) end; eauto.
Qed.

Lemma shutdown_end_effect env w r w' :
  shutdown_end env w = (r, w') ->
  r = Done tt /\
  st w' = with_busy (fun _ => ∅)
            (with_available (fun _ => []) (with_browsers (fun _ => []) (st w))).
Proof.
  unfold shutdown_end, bind at 1, get. simpl.
  destruct (close_all_done env (browsers (st w)) w) as (w1 & H1 & Hst).
  unfold bind at 1. rewrite H1. unfold bind, modify; simpl.
  intros [= <- <-]. simpl. by rewrite Hst.
Qed.

Lemma initialize_from_effect env config k w w' :
  initialize_from env config k w = (Done tt, w') ->
  busyPages (st w') = busyPages (st w) /\
  isShuttingDown (st w') = isShuttingDown (st w) /\
  next_browser (st w') = next_browser (st w) + k /\
  (forall b, simCountPerBrowser (st w') !! b =
     if decide (next_browser (st w) <= b < next_browser (st w) + k) then Some 0%Z
     else simCountPerBrowser (st w) !! b) /\
  exists pages, availablePages (st w') = availablePages (st w) ++ pages /\
    map page_browser pages = seq (next_browser (st w)) k.
Proof.
  revert w. induction k as [|k IH]; intros w; simpl.
  - unfold ret. intros [= <-]. split; [done|]. split; [done|]. split; [lia|]. split.
    + intros b. destruct (decide _); [lia|done].
    + exists []. by rewrite app_nil_r.
  - unfold launchBrowser, createPage, bind, perform_unit, perform, modify, get, ret;
      simpl; case_env; try discriminate.
    intros H. apply IH in H as (Hb & Hs & Hn & Hc & pages & Hav & Hpb). simpl in *.
    split; [done|]. split; [done|]. split; [lia|]. split.
    + intros b. rewrite Hc. unfold Browser in *.
      destruct (decide (b = next_browser (st w))) as [-> | Hne].
      * rewrite lookup_insert_eq. repeat destruct (decide _); try lia; done.
      * rewrite lookup_insert_ne by done.
        repeat destruct (decide _); try lia; done.
    + eexists (_ :: pages). rewrite Hav, <- app_assoc. split; [done|].
      simpl. by rewrite Hpb.
Qed.

Lemma NoDup_submseteq {A} (l k : list A) : l ⊆+ k -> NoDup k -> NoDup l.
Proof.
  induction 1 as [|x l k H IH|x y l|x l k H IH|l k m H1 IH1 H2 IH2]; intros Hk; auto.
  - apply NoDup_cons in Hk as [Hx Hk]. apply NoDup_cons. split; [|auto].
    intros Hin. apply Hx. eapply elem_of_submseteq; eauto.
  - eapply NoDup_Permutation_proper; [|exact Hk]. apply perm_swap.
  - apply NoDup_cons in Hk as [_ Hk]; auto.
Qed.

Lemma remove_page_absent page (l : list Page) :
  page_browser page ∉ map page_browser l -> remove_page page l = l.
Proof.
  unfold remove_page. induction l as [|q l IH]; intros Hq; [done|].
  simpl in Hq. apply not_elem_of_cons in Hq as [Hne Hq].
  rewrite filter_cons_True by congruence. by rewrite IH.
Qed.

Lemma remove_page_perm page (l : list Page) :
  NoDup (map page_browser l) -> page ∈ l ->
  map page_browser l ≡ₚ page_browser page :: map page_browser (remove_page page l).
Proof.
  induction l as [|q l IH]; intros Hnd Hin; [by apply elem_of_nil in Hin|].
  simpl in Hnd. apply NoDup_cons in Hnd as [Hq Hnd].
  unfold remove_page at 1. rewrite filter_cons. fold (remove_page page l).
  destruct (decide (q <> page)) as [Hne|Heq].
  - apply elem_of_cons in Hin as [-> | Hin]; [done|].
    simpl. rewrite (IH Hnd Hin). apply perm_swap.
  - assert (q = page) as -> by (destruct (decide (q = page)); [done|contradiction]).
    simpl. f_equiv. 
    by rewrite (remove_page_absent page l Hq).
Qed.

(** ** The invariants hold in every reachable state *)

Ltac perm_middle :=
  rewrite <- ?app_assoc; simpl; rewrite <- ?Permutation_middle; done.

Lemma counted_shrink config s s' :
  counted config s ->
  live_browsers s' ⊆+ live_browsers s ->
  simCountPerBrowser (st (sys_world s')) = simCountPerBrowser (st (sys_world s)) ->
  next_browser (st (sys_world s')) = next_browser (st (sys_world s)) ->
  counted config s'.
Proof.
  intros [Hc Hl Hn Hf] Hsub Hsc Hnb. split; rewrite ?Hsc, ?Hnb; auto.
  - intros b Hb. apply Hl. eapply elem_of_submseteq; eauto.
  - eapply NoDup_submseteq; eauto.
Qed.

Lemma flat_map_app {A B} (f : A -> list B) l1 l2 :
  flat_map f (l1 ++ l2) = flat_map f l1 ++ flat_map f l2.
Proof. induction l1 as [|x l1 IH]; simpl; [done|]. by rewrite IH, app_assoc. Qed.

Lemma counted_initialize env config history w0 :
  (1 <= maxSims config)%Z ->
  initialize env config (mkWorld empty_pool history) = (Done tt, w0) ->
  counted config (mkSys w0 [] []).
Proof.
  intros HT H. apply initialize_from_effect in H as (_ & _ & Hn & Hc & pages & Hav & Hpb).
  simpl in *. split; simpl.
  - intros b c. rewrite Hc. destruct (decide _); [|by rewrite lookup_empty].
    intros [= <-]. lia.
  - unfold live_browsers. simpl. rewrite app_nil_r, Hav, Hpb.
    intros b Hb. apply elem_of_seq in Hb. rewrite Hc.
    destruct (decide _); [done|lia].
  - unfold live_browsers. simpl. rewrite app_nil_r, Hav, Hpb. apply NoDup_seq.
  - intros b. rewrite Hc, Hn. destruct (decide _); [lia|].
    rewrite lookup_empty. by intros [? ?].
Qed.

Lemma counted_step env config s s' :
  (1 <= maxSims config)%Z ->
  counted config s -> pool_step env config s s' -> counted config s'.
Proof.
  intros HT Hinv Hstep. destruct Hstep as
    [s page pool' Hacq|s page k w' Hin Hrel|s l1 k l2 o w' Hfl Hres
    |s l1 k l2 msg w' Hfl Hres|s w' Hsh|s w' Hflag Hsh].
  - (* acquire *)
    apply acquirePage_poll_granted in Hacq as (_ & l & Hav & ->).
    eapply counted_shrink; [exact Hinv| |done|done].
    unfold live_browsers; simpl. rewrite Hav, map_app. simpl.
    apply Permutation_submseteq.
    perm_middle.
  - (* the synchronous part of a release *)
    destruct Hinv as [Hc Hl Hn Hf].
    assert (Hperm : live_browsers s ≡ₚ
              page_browser page ::
                map page_browser (remove_page page (sys_leased s))
                ++ map page_browser (availablePages (st (sys_world s)))
                ++ flat_map k_browsers (sys_inflight s)).
    { unfold live_browsers. rewrite (remove_page_perm page (sys_leased s)); [done| |done].
      unfold live_browsers in Hn. by apply NoDup_app in Hn as [? _]. }
    assert (Hb : is_Some (simCountPerBrowser (st (sys_world s)) !! page_browser page)).
    { apply Hl. rewrite Hperm. apply elem_of_cons; by left. }
    destruct Hb as [c Hb]. pose proof (Hc _ _ Hb) as Hcb.
    rewrite release_begin_eq in Hrel. cbv zeta in Hrel.
    unfold number in *. rewrite Hb in Hrel.
    simpl in Hrel.
    rewrite Hperm in Hn. apply NoDup_cons in Hn as [Hfresh Hn].
    destruct (maxSims config <=? c + 1)%Z eqn:Hle; injection Hrel as <- <-.
    + (* the browser is dropped *)
      apply Z.leb_le in Hle. split; simpl.
      * intros b c'. destruct (decide (b = page_browser page)) as [-> | Hne].
        -- by rewrite lookup_delete_eq.
        -- rewrite lookup_delete_ne, lookup_insert_ne by done. apply Hc.
      * unfold live_browsers; simpl. intros b Hb'.
        assert (b <> page_browser page) by (intros ->; contradiction).
        rewrite lookup_delete_ne, lookup_insert_ne by done.
        apply Hl. rewrite Hperm. apply elem_of_cons; by right.
      * exact Hn.
      * intros b. destruct (decide (b = page_browser page)) as [-> | Hne].
        -- rewrite lookup_delete_eq. by intros [? ?].
        -- rewrite lookup_delete_ne, lookup_insert_ne by done. apply Hf.
    + apply Z.leb_gt in Hle. split; simpl.
      * intros b c'. destruct (decide (b = page_browser page)) as [-> | Hne].
        -- rewrite lookup_insert_eq. intros [= <-]. lia.
        -- rewrite lookup_insert_ne by done. apply Hc.
      * unfold live_browsers; simpl. intros b Hb'.
        destruct (decide (b = page_browser page)) as [-> | Hne].
        -- by rewrite lookup_insert_eq.
        -- rewrite lookup_insert_ne by done. apply Hl. rewrite Hperm.
           apply elem_of_cons; right.
           rewrite !elem_of_app in Hb'. rewrite !elem_of_app.
           destruct Hb' as [?|[?|Hb']]; auto.
           apply elem_of_cons in Hb' as [?|?]; [done|auto].
      * unfold live_browsers; simpl.
        eapply NoDup_Permutation_proper; [|apply NoDup_cons; split; [exact Hfresh|exact Hn]].
        perm_middle.
      * intros b. destruct (decide (b = page_browser page)) as [-> | Hne].
        -- intros _. apply Hf. by exists c.
        -- rewrite lookup_insert_ne by done. apply Hf.
  - (* a suspended release goes on *)
    pose proof (release_resume_effect _ _ _ _ _ _ Hres) as (_ & _ & Heff).
    destruct o as [k'|].
    + destruct Heff as (Hav & [(Hk & Hsc & Hnb)|(Hk & -> & Hsc & Hnb)]).
      * eapply counted_shrink; [exact Hinv| |done|done].
        unfold live_browsers; simpl. rewrite Hav, Hfl, !flat_map_app. simpl.
        by rewrite Hk.
      * destruct Hinv as [Hc Hl Hn Hf].
        assert (Hlive : live_browsers
                   (mkSys w' (l1 ++ option_list (Some (KCreate (next_browser (st (sys_world s))))) ++ l2)
                      (sys_leased s))
                 ≡ₚ next_browser (st (sys_world s)) :: live_browsers s).
        { unfold live_browsers; simpl. rewrite Hav, Hfl, !flat_map_app. simpl.
          rewrite Hk. simpl. perm_middle. }
        split; simpl; rewrite ?Hsc, ?Hnb.
        -- intros b c. destruct (decide (b = next_browser (st (sys_world s)))) as [-> | Hne].
           ++ rewrite lookup_insert_eq. intros [= <-]. lia.
           ++ rewrite lookup_insert_ne by done. apply Hc.
        -- intros b. rewrite Hlive. intros Hb.
           destruct (decide (b = next_browser (st (sys_world s)))) as [-> | Hne].
           ++ by rewrite lookup_insert_eq.
           ++ rewrite lookup_insert_ne by done. apply Hl.
              apply elem_of_cons in Hb as [?|?]; [done|auto].
        -- rewrite Hlive. apply NoDup_cons. split; [|done].
           intros Hb. apply Hl, Hf in Hb. unfold Browser in *. lia.
        -- intros b. destruct (decide (b = next_browser (st (sys_world s)))) as [-> | Hne].
           ++ unfold Browser in *. lia.
           ++ rewrite lookup_insert_ne by done. intros Hb. apply Hf in Hb.
              unfold Browser in *. lia.
    + destruct Heff as (page & Hk & Hav & Hsc & Hnb).
      eapply counted_shrink; [exact Hinv| |done|done].
      unfold live_browsers; simpl. rewrite Hav, Hfl, map_app, !flat_map_app. simpl.
      rewrite Hk. simpl. apply Permutation_submseteq.
      perm_middle.
  - (* a suspended release is rejected *)
    pose proof (release_resume_effect _ _ _ _ _ _ Hres) as (_ & _ & Hav & Hsc & Hnb).
    eapply counted_shrink; [exact Hinv| |done|done].
    unfold live_browsers; simpl. rewrite Hav, Hfl, !flat_map_app. simpl.
    apply submseteq_skips_l, submseteq_skips_l, submseteq_skips_l.
    apply submseteq_inserts_l. done.
  - injection Hsh as <-. eapply counted_shrink; [exact Hinv|done|done|done].
  - apply shutdown_end_effect in Hsh as (_ & Hst).
    eapply counted_shrink; [exact Hinv| |simpl; by rewrite Hst|simpl; by rewrite Hst].
    unfold live_browsers; simpl. rewrite Hst. simpl.
    apply submseteq_skips_l, submseteq_inserts_l. done.
Qed.

Lemma reachable_counted env config s :
  (1 <= maxSims config)%Z -> reachable env config s -> counted config s.
Proof.
  intros HT. induction 1 as [history w0 Hinit|s s' _ IH Hstep].
  - eapply counted_initialize; eauto.
  - eapply counted_step; eauto.
Qed.

Lemma accounted_initialize env config history w0 :
  initialize env config (mkWorld empty_pool history) = (Done tt, w0) ->
  accounted config (mkSys w0 [] []) /\
  length (availablePages (st w0)) = Z.to_nat (poolSize config) /\
  busyPages (st w0) = ∅.
Proof.
  intros H. apply initialize_from_effect in H as (Hb & _ & _ & _ & pages & Hav & Hpb).
  simpl in *. assert (Hlen : length pages = Z.to_nat (poolSize config)).
  { rewrite <- (length_map page_browser), Hpb. apply length_seq. }
  split; [|by rewrite Hav].
  left. simpl. rewrite Hb, Hav, size_empty. split; [lia|].
  intros p Hp. by apply elem_of_nil in Hp.
Qed.

Lemma accounted_step env config s s' :
  accounted config s -> pool_step env config s s' -> accounted config s'.
Proof.
  intros Hinv Hstep. destruct Hstep as
    [s page pool' Hacq|s page k w' Hin Hrel|s l1 k l2 o w' Hfl Hres
    |s l1 k l2 msg w' Hfl Hres|s w' Hsh|s w' Hflag Hsh].
  - apply acquirePage_poll_granted in Hacq as (Hflag & l & Hav & ->).
    destruct Hinv as [[Hsize Hleased]|[Hshut _]]; [|congruence].
    left. simpl. rewrite Hav, length_app in Hsize. simpl in Hsize. split.
    + rewrite size_union_alt, size_singleton.
      assert (size (busyPages (st (sys_world s)) ∖ {[page]})
                <= size (busyPages (st (sys_world s))))
        by (apply subseteq_size; set_solver).
      lia.
    + intros p Hp. apply elem_of_cons in Hp as [-> | Hp]; [set_solver|].
      apply Hleased in Hp. set_solver.
  - rewrite release_begin_eq in Hrel. cbv zeta in Hrel.
    assert (Hst : busyPages (st w') = busyPages (st (sys_world s)) ∖ {[page]} /\
                  availablePages (st w') = availablePages (st (sys_world s)) /\
                  isShuttingDown (st w') = isShuttingDown (st (sys_world s))).
    { destruct (maxSims config <=? _)%Z; injection Hrel as <- <-; done. }
    destruct Hst as (Hb & Hav & Hflag).
    destruct Hinv as [[Hsize Hleased]|[Hshut Hempty]].
    + left. simpl. rewrite Hb, Hav. split.
      * rewrite size_difference by (apply singleton_subseteq_l; auto).
        rewrite size_singleton.
        assert (0 < size (busyPages (st (sys_world s)))).
        { assert (size (busyPages (st (sys_world s))) <> 0); [|lia].
          intros Hz. apply size_empty_inv in Hz. apply Hleased in Hin. set_solver. }
        lia.
      * intros p Hp. unfold remove_page in Hp. apply list_elem_of_filter in Hp as [Hne Hp].
        apply Hleased in Hp. set_solver.
    + right. simpl. rewrite Hb, Hflag, Hempty. split; [done|set_solver].
  - pose proof (release_resume_effect _ _ _ _ _ _ Hres) as (Hb & Hflag & Heff).
    destruct Hinv as [[Hsize Hleased]|[Hshut Hempty]]; [|right; simpl; by rewrite Hb, Hflag].
    left. simpl. rewrite Hb. split; [|done].
    rewrite Hfl, length_app in Hsize. simpl in Hsize. rewrite !length_app.
    destruct o as [k'|]; simpl.
    + destruct Heff as (-> & _). lia.
    + destruct Heff as (page & _ & -> & _). rewrite length_app. simpl. lia.
  - pose proof (release_resume_effect _ _ _ _ _ _ Hres) as (Hb & Hflag & Hav & _).
    destruct Hinv as [[Hsize Hleased]|[Hshut Hempty]]; [|right; simpl; by rewrite Hb, Hflag].
    left. simpl. rewrite Hb, Hav. split; [|done].
    rewrite Hfl, length_app in Hsize. simpl in Hsize. rewrite length_app. lia.
  - injection Hsh as <-. destruct Hinv as [?|[_ ?]]; [by left|by right].
  - apply shutdown_end_effect in Hsh as (_ & Hst). right. simpl. rewrite Hst. simpl.
    done.
Qed.

Lemma reachable_accounted env config s :
  reachable env config s -> accounted config s.
Proof.
  induction 1 as [history w0 Hinit|s s' _ IH Hstep].
  - by apply accounted_initialize in Hinit as [? _].
  - eapply accounted_step; eauto.
Qed.

Lemma accounted_busy config s :
  accounted config s ->
  size (busyPages (st (sys_world s))) <= Z.to_nat (poolSize config).
Proof.
  intros [[Hsize _]|[_ ->]]; [lia|]. rewrite size_empty. lia.
Qed.

(** ** Releases and the recycle threshold *)

Lemma releasePage_returns env config page w :
  never_fails env -> exists w', releasePage env config page w = (Done tt, w').
Proof.
  intros Hnf.
  unfold releasePage, restartBrowser, launchBrowser, createPage, bind, try_catch,
    perform_unit, perform, modify, get, ret. simpl.
  destruct (maxSims config <=? _)%Z; rewrite ?Hnf; simpl; rewrite ?Hnf; simpl; rewrite ?Hnf; simpl; rewrite ?Hnf; simpl; rewrite ?Hnf; eauto.
Qed.

Lemma started_pool_reachable config :
  reachable quiet_env config (mkSys (started_pool config) [] []).
Proof.
  unfold started_pool.
  destruct (initialize quiet_env config (mkWorld empty_pool [])) as [r w0] eqn:E.
  assert (r = Done tt) as ->.
  { clear -E. unfold initialize in E. revert E. generalize (mkWorld empty_pool []).
    induction (Z.to_nat (poolSize config)) as [|k IH]; intros w; simpl.
    - by intros [= <- _].
    - unfold launchBrowser, createPage, bind, perform_unit, perform, modify, get, ret;
        simpl. apply IH. }
  simpl. by apply (reach_init quiet_env config [] w0).
Qed.

Lemma leased_out_reachable config :
  reachable quiet_env config (leased_out config).
Proof.
  unfold leased_out.
  destruct (acquirePage_poll (st (started_pool config))) as [| |page pool'] eqn:E;
    try apply started_pool_reachable.
  eapply reach_step; [apply started_pool_reachable|].
  by apply (step_acquire quiet_env config (mkSys (started_pool config) [] [])).
Qed.

(** With the threshold left out, or given as 0, of 120 leases on a pool of
    one browser the 50th and the 100th recycle it. *)
Lemma default_threshold_scenario :
  recycled_leases quiet_env (pool_config 1%Z None) 120 1
    (started_pool (pool_config 1%Z None)) = [50; 100] /\
  recycled_leases quiet_env (pool_config 1%Z (Some 0%Z)) 120 1
    (started_pool (pool_config 1%Z (Some 0%Z))) = [50; 100].
Proof. split; vm_compute; reflexivity. Qed.

(** C6: in every state a pool of [poolSize = N] can reach, the busy set
    holds at most [N] pages.  When it holds [N], one evaluation of
    [acquirePage] hands out nothing: the call stays suspended, or is rejected
    if the pool is shutting down.  A page is granted only from a non-empty
    available list of a pool that is not shutting down, and the available
    list becomes non-empty only by a release running to its end and pushing
    its page. *)
Theorem pool_busy_bounded_and_acquire_waits env config s :
  reachable env config s ->
  size (busyPages (st (sys_world s))) <= Z.to_nat (poolSize config) /\
  (size (busyPages (st (sys_world s))) = Z.to_nat (poolSize config) ->
   acquirePage_poll (st (sys_world s)) =
     if isShuttingDown (st (sys_world s))
     then Rejected "Browser pool is shutting down" else Suspended) /\
  (forall page pool',
     acquirePage_poll (st (sys_world s)) = Granted page pool' ->
     isShuttingDown (st (sys_world s)) = false /\
     last (availablePages (st (sys_world s))) = Some page /\
     size (busyPages (st (sys_world s))) < Z.to_nat (poolSize config)) /\
  (forall s',
     pool_step env config s s' ->
     availablePages (st (sys_world s)) = [] ->
     availablePages (st (sys_world s')) <> [] ->
     exists l1 k l2 page,
       sys_inflight s = l1 ++ k :: l2 /\
       release_resume env config k (sys_world s) = (Done None, sys_world s') /\
       k_browsers k = [page_browser page] /\
       availablePages (st (sys_world s')) = [page]).
Proof.
  intros Hreach. pose proof (reachable_accounted _ _ _ Hreach) as Hacc.
  split; [by apply accounted_busy|].
  assert (Hfull : size (busyPages (st (sys_world s))) = Z.to_nat (poolSize config) ->
            acquirePage_poll (st (sys_world s)) =
              if isShuttingDown (st (sys_world s))
              then Rejected "Browser pool is shutting down" else Suspended).
  { intros Hsize. destruct Hacc as [[Hle _]|[Hshut _]].
    - apply acquirePage_poll_empty.
      destruct (availablePages (st (sys_world s))); [done|simpl in Hle; lia].
    - unfold acquirePage_poll. rewrite Hshut. by destruct (last _). }
  split; [exact Hfull|]. split.
  - intros page pool' Hacq.
    pose proof (acquirePage_poll_granted _ _ _ Hacq) as (Hflag & l & Hav & _).
    split; [done|]. split; [rewrite Hav; apply last_snoc|].
    pose proof (accounted_busy _ _ Hacc) as Hle.
    destruct (decide (size (busyPages (st (sys_world s))) = Z.to_nat (poolSize config)))
      as [Heq|Hne]; [|lia].
    rewrite (Hfull Heq), Hflag in Hacq. discriminate.
  - intros s' Hstep Hnil Hne. destruct Hstep as
      [s page pool' Hacq|s page k w' Hin Hrel|s l1 k l2 o w' Hfl Hres
      |s l1 k l2 msg w' Hfl Hres|s w' Hsh|s w' Hflag Hsh]; simpl in *.
    + apply acquirePage_poll_granted in Hacq as (_ & l & Hav & _).
      rewrite Hnil in Hav. by destruct l.
    + rewrite release_begin_eq in Hrel. cbv zeta in Hrel.
      destruct (maxSims config <=? _)%Z; injection Hrel as <- <-; simpl in Hne; congruence.
    + pose proof (release_resume_effect _ _ _ _ _ _ Hres) as (_ & _ & Heff).
      destruct o as [k'|].
      * destruct Heff as (Hav & _). congruence.
      * destruct Heff as (page & Hk & Hav & _). exists l1, k, l2, page.
        rewrite Hnil in Hav. done.
    + pose proof (release_resume_effect _ _ _ _ _ _ Hres) as (_ & _ & Hav & _). congruence.
    + injection Hsh as <-. simpl in Hne. congruence.
    + apply shutdown_end_effect in Hsh as (_ & Hst). rewrite Hst in Hne. done.
Qed.

Lemma pool_busy_bounded_and_acquire_waits_witness :
  size (busyPages (st (sys_world (leased_out (pool_config 1%Z (Some 2%Z))))))
    = Z.to_nat (poolSize (pool_config 1%Z (Some 2%Z))) /\
  acquirePage_poll (st (sys_world (leased_out (pool_config 1%Z (Some 2%Z))))) = Suspended.
Proof.
  destruct (pool_busy_bounded_and_acquire_waits quiet_env (pool_config 1%Z (Some 2%Z))
              (leased_out (pool_config 1%Z (Some 2%Z)))
              (leased_out_reachable (pool_config 1%Z (Some 2%Z)))) as (_ & Hfull & _).
  assert (Hsize : size (busyPages (st (sys_world (leased_out (pool_config 1%Z (Some 2%Z))))))
                  = Z.to_nat (poolSize (pool_config 1%Z (Some 2%Z))))
    by (vm_compute; reflexivity).
  split; [exact Hsize|]. rewrite (Hfull Hsize). reflexivity.
Defined.

(** * Further properties of the pipeline *)

(** ** Setting up the pool *)

Lemma flat_map_seq_shift {B} (f : nat -> list B) k : forall a,
  flat_map f (seq (S a) k) = flat_map (fun i => f (S i)) (seq a k).
Proof. induction k as [|k IH]; intros a; simpl; [done|]. by rewrite IH. Qed.

Lemma initialize_from_outcome env config k : forall w r w',
  initialize_from env config k w = (r, w') ->
  exists j evs,
    j <= k /\ log w' = log w ++ evs /\
    availablePages (st w') =
      availablePages (st w)
      ++ map (fun i => mkPage (next_page (st w) + i) (next_browser (st w) + i)) (seq 0 j) /\
    busyPages (st w') = busyPages (st w) /\
    isShuttingDown (st w') = isShuttingDown (st w) /\
    forallb (fun e => negb (is_close e)) evs = true /\
    match r with
    | Done _ =>
        j = k /\
        browsers (st w') = browsers (st w) ++ seq (next_browser (st w)) k /\
        (forall b, simCountPerBrowser (st w') !! b =
           if decide (next_browser (st w) <= b < next_browser (st w) + k) then Some 0%Z
           else simCountPerBrowser (st w) !! b) /\
        evs = flat_map (worker_setup config (next_browser (st w)) (next_page (st w))) (seq 0 k)
    | Throw msg =>
        j < k /\
        (browsers (st w') = browsers (st w) ++ seq (next_browser (st w)) j \/
         browsers (st w') = browsers (st w) ++ seq (next_browser (st w)) (S j)) /\
        exists c, last evs = Some (mkEvent InPool c (ARejected msg))
    end.
Proof.
  induction k as [|k IH]; intros w r w' H.
  - injection H as <- <-. exists 0, []. simpl. rewrite !app_nil_r.
    split; [lia|]. do 5 (split; [done|]). split; [done|]. split; [done|]. split; [|done].
    intros b. destruct (decide _); [lia|done].
  - simpl in H. revert H.
    unfold launchBrowser, createPage, bind, perform_unit, perform, modify, get, ret.
    simpl. case_env; intros H.
    all: try (injection H as <- <-;
      first
        [ eexists 0, [_]; simpl; rewrite <- ?app_assoc, ?app_nil_r;
          (split; [lia|]); (split; [reflexivity|]); do 4 (split; [done|]);
          (split; [lia|]); (split; [(by left) || (by right)|eauto])
        | eexists 0, [_; _]; simpl; rewrite <- ?app_assoc, ?app_nil_r;
          (split; [lia|]); (split; [reflexivity|]); do 4 (split; [done|]);
          (split; [lia|]); (split; [(by left) || (by right)|eauto])
        | eexists 0, [_; _; _]; simpl; rewrite <- ?app_assoc, ?app_nil_r;
          (split; [lia|]); (split; [reflexivity|]); do 4 (split; [done|]);
          (split; [lia|]); (split; [(by left) || (by right)|eauto]) ]).
    apply IH in H as (j & evs & Hj & Hlog & Hav & Hb & Hs & Hnc & Hr). simpl in *.
    exists (S j), (worker_setup config (next_browser (st w)) (next_page (st w)) 0 ++ evs).
    split; [lia|]. split.
    { rewrite Hlog. unfold worker_setup. rewrite !Nat.add_0_r, <- !app_assoc. reflexivity. }
    split.
    { rewrite Hav, <- app_assoc. f_equal. simpl. rewrite !Nat.add_0_r. f_equal.
      rewrite <- fmap_S_seq, <- list_fmap_compose. apply list_fmap_ext.
      intros _ i _. simpl. f_equal; lia. }
    split; [done|]. split; [done|]. split; [done|].
    destruct r as [[]|msg].
    + destruct Hr as (-> & Hbr & Hc & ->). split; [done|]. split.
      { rewrite Hbr, <- app_assoc. done. }
      split.
      { intros b. rewrite Hc. unfold Browser in *.
        destruct (decide (b = next_browser (st w))) as [-> | Hne].
        - rewrite lookup_insert_eq. repeat destruct (decide _); try lia; done.
        - rewrite lookup_insert_ne by done. repeat destruct (decide _); try lia; done. }
      unfold worker_setup at 1. simpl. rewrite !Nat.add_0_r. do 3 f_equal.
      rewrite flat_map_seq_shift. apply flat_map_ext_in.
      intros i _. unfold worker_setup. by rewrite !Nat.add_succ_comm.
    + destruct Hr as (Hlt & Hbr & c & Hlast). split; [lia|]. split.
      { destruct Hbr as [-> | ->]; [left|right]; by rewrite <- app_assoc. }
      exists c. destruct evs as [|e evs]; [done|].
      unfold worker_setup. simpl. simpl in Hlast. done.
Qed.

Lemma worker_setup_shift config nb np j :
  flat_map (worker_setup config nb np) (seq 0 (S j))
  = worker_setup config nb np 0
    ++ flat_map (worker_setup config (S nb) (S np)) (seq 0 j).
Proof.
  change (seq 0 (S j)) with (0 :: seq 1 j).
  change (flat_map (worker_setup config nb np) (0 :: seq 1 j))
    with (worker_setup config nb np 0 ++ flat_map (worker_setup config nb np) (seq 1 j)).
  f_equal. rewrite flat_map_seq_shift. apply flat_map_ext_in.
  intros i _. unfold worker_setup. by rewrite !Nat.add_succ_comm.
Qed.

Lemma worker_setup_first config nb np :
  worker_setup config nb np 0
  = [mkEvent InPool (Launch (default true (useSwiftShader config))) AOk;
     mkEvent InPool (NewPage nb) AOk;
     mkEvent InPool (SetViewport (mkPage np nb)) AOk].
Proof. unfold worker_setup. by rewrite !Nat.add_0_r. Qed.

Lemma initialize_from_throws env config k : forall w msg w',
  initialize_from env config k w = (Throw msg, w') ->
  exists j built tail,
    j < k /\
    log w' = log w
      ++ flat_map (worker_setup config (next_browser (st w)) (next_page (st w))) (seq 0 j)
      ++ tail /\
    broken_setup config (next_browser (st w)) (next_page (st w)) j msg built tail /\
    availablePages (st w')
      = availablePages (st w)
        ++ map (fun i => mkPage (next_page (st w) + i) (next_browser (st w) + i)) (seq 0 j) /\
    busyPages (st w') = busyPages (st w) /\
    browsers (st w')
      = browsers (st w) ++ seq (next_browser (st w)) (if built then S j else j) /\
    (forall b, simCountPerBrowser (st w') !! b =
       if decide (next_browser (st w) <= b
                  < next_browser (st w) + (if built then S j else j))
       then Some 0%Z else simCountPerBrowser (st w) !! b).
Proof.
  induction k as [|k IH]; intros w msg w' H; [discriminate|].
  simpl in H. revert H.
  unfold launchBrowser, createPage, bind, perform_unit, perform, modify, get, ret.
  simpl. case_env; intros H.
  - (* the launch is rejected *)
    injection H as <- <-. eexists 0, false, [_]. simpl.
    split; [lia|]. split; [done|]. split; [done|]. rewrite !app_nil_r.
    split; [done|]. split; [done|]. split; [done|].
    intros b. destruct (decide _); [lia|done].
  - (* the page cannot be opened *)
    injection H as <- <-. eexists 0, true, [_; _]. simpl.
    rewrite <- !app_assoc. split; [lia|]. split; [reflexivity|].
    split; [left; by rewrite Nat.add_0_r|]. rewrite app_nil_r.
    split; [done|]. split; [done|]. split; [done|].
    intros b. unfold Browser in *.
    destruct (decide (b = next_browser (st w))) as [-> | Hne].
    + rewrite lookup_insert_eq. destruct (decide _); [done|lia].
    + rewrite lookup_insert_ne by done. destruct (decide _); [lia|done].
  - (* the page cannot be sized *)
    injection H as <- <-. eexists 0, true, [_; _; _]. simpl.
    rewrite <- !app_assoc. split; [lia|]. split; [reflexivity|].
    split; [right; by rewrite !Nat.add_0_r|]. rewrite app_nil_r.
    split; [done|]. split; [done|]. split; [done|].
    intros b. unfold Browser in *.
    destruct (decide (b = next_browser (st w))) as [-> | Hne].
    + rewrite lookup_insert_eq. destruct (decide _); [done|lia].
    + rewrite lookup_insert_ne by done. destruct (decide _); [lia|done].
  - (* the worker is set up: the rejection comes later *)
    apply IH in H as (j & built & tail & Hj & Hlog & Htail & Hav & Hbusy & Hbr & Hc).
    simpl in *.
    exists (S j), built, tail. split; [lia|]. split.
    { rewrite Hlog, worker_setup_shift, worker_setup_first, <- !app_assoc. reflexivity. }
    split.
    { unfold broken_setup in *. rewrite <- !Nat.add_succ_comm. exact Htail. }
    split.
    { rewrite Hav, <- app_assoc. f_equal. simpl. rewrite !Nat.add_0_r. f_equal.
      rewrite <- fmap_S_seq, <- list_fmap_compose. apply list_fmap_ext.
      intros _ i _. simpl. f_equal; lia. }
    split; [done|]. split.
    { rewrite Hbr, <- app_assoc. simpl. by destruct built. }
    intros b. rewrite Hc. unfold Browser in *.
    destruct (decide (b = next_browser (st w))) as [-> | Hne].
    + rewrite lookup_insert_eq. destruct built; repeat destruct (decide _); try lia; done.
    + rewrite lookup_insert_ne by done.
      destruct built; repeat destruct (decide _); try lia; done.
Qed.

Lemma worker_setup_no_close config nb np l :
  forallb (fun e => negb (is_close e)) (flat_map (worker_setup config nb np) l) = true.
Proof. induction l as [|i l IH]; simpl; [done|exact IH]. Qed.

(** X1.  [initialize] on a new pool sets up [poolSize] workers one after the
    other, each by the three calls launch, newPage and setViewport: browser
    [i] with its one page [i], available, counted from zero, nothing busy.
    It stops at the first call that is rejected and throws that rejection.
    The workers set up before are left as they are, available and counted
    from zero, after exactly their own calls; of the worker whose set-up was
    cut short the browser is kept and counted if its launch had gone
    through, without a page in the pool.  Nothing is closed. *)
Theorem initialize_outcome env config history r w0 :
  initialize env config (mkWorld empty_pool history) = (r, w0) ->
  exists j evs,
    j <= Z.to_nat (poolSize config) /\
    log w0 = history ++ evs /\
    availablePages (st w0) = map (fun i => mkPage i i) (seq 0 j) /\
    busyPages (st w0) = ∅ /\
    forallb (fun e => negb (is_close e)) evs = true /\
    match r with
    | Done _ =>
        j = Z.to_nat (poolSize config) /\
        browsers (st w0) = seq 0 j /\
        (forall b, simCountPerBrowser (st w0) !! b = if decide (b < j) then Some 0%Z else None) /\
        evs = flat_map (worker_setup config 0 0) (seq 0 j) /\
        getStats (st w0) = mkStats j j 0
    | Throw msg =>
        j < Z.to_nat (poolSize config) /\
        exists built tail,
          evs = flat_map (worker_setup config 0 0) (seq 0 j) ++ tail /\
          broken_setup config 0 0 j msg built tail /\
          browsers (st w0) = seq 0 (if built then S j else j) /\
          (forall b, simCountPerBrowser (st w0) !! b
                     = if decide (b < (if built then S j else j)) then Some 0%Z else None)
    end.
Proof.
  intros H. unfold initialize in H. destruct r as [[]|msg].
  - apply initialize_from_outcome in H as (j & evs & Hj & Hlog & Hav & Hb & _ & Hnc & Hr).
    simpl in *. exists j, evs. split; [done|]. split; [done|]. split; [done|].
    split; [done|]. split; [done|].
    destruct Hr as (-> & Hbr & Hc & ->). split; [done|]. split; [done|]. split.
    { intros b. rewrite Hc, lookup_empty. repeat destruct (decide _); try lia; done. }
    split; [done|]. unfold getStats. rewrite Hbr, Hav, Hb, length_map.
    by rewrite size_empty, !length_seq.
  - apply initialize_from_throws in H
      as (j & built & tail & Hj & Hlog & Htail & Hav & Hb & Hbr & Hc).
    simpl in *. exists j, (flat_map (worker_setup config 0 0) (seq 0 j) ++ tail).
    split; [lia|]. split; [done|]. split; [done|]. split; [done|]. split.
    { rewrite forallb_app, worker_setup_no_close. simpl.
      unfold broken_setup in Htail. destruct built; [destruct Htail as [-> | ->]|subst tail];
        reflexivity. }
    split; [done|]. exists built, tail. split; [done|]. split; [done|]. split; [done|].
    intros b. rewrite Hc, lookup_empty. repeat destruct (decide _); try lia; done.
Qed.

Lemma initialize_outcome_witness :
  exists r w0,
    initialize no_relaunch (pool_config 2%Z None) (mkWorld empty_pool []) = (r, w0) /\
    exists j evs,
      j <= Z.to_nat (poolSize (pool_config 2%Z None)) /\
      log w0 = [] ++ evs /\
      availablePages (st w0) = map (fun i => mkPage i i) (seq 0 j) /\
      busyPages (st w0) = ∅ /\
      forallb (fun e => negb (is_close e)) evs = true /\
      match r with
      | Done _ =>
          j = Z.to_nat (poolSize (pool_config 2%Z None)) /\
          browsers (st w0) = seq 0 j /\
          (forall b, simCountPerBrowser (st w0) !! b
                     = if decide (b < j) then Some 0%Z else None) /\
          evs = flat_map (worker_setup (pool_config 2%Z None) 0 0) (seq 0 j) /\
          getStats (st w0) = mkStats j j 0
      | Throw msg =>
          j < Z.to_nat (poolSize (pool_config 2%Z None)) /\
          exists built tail,
            evs = flat_map (worker_setup (pool_config 2%Z None) 0 0) (seq 0 j) ++ tail /\
            broken_setup (pool_config 2%Z None) 0 0 j msg built tail /\
            browsers (st w0) = seq 0 (if built then S j else j) /\
            (forall b, simCountPerBrowser (st w0) !! b
                       = if decide (b < (if built then S j else j)) then Some 0%Z else None)
      end.
Proof.
  eexists _, _. split; [vm_compute; reflexivity|].
  eapply (initialize_outcome no_relaunch (pool_config 2%Z None) []).
  vm_compute; reflexivity.
Defined.


(** ** Release and acquire, one after the other *)

Lemma releasePage_reset env config page w r w' :
  (release_count (st w) page < maxSims config)%Z ->
  releasePage env config page w = (r, w') ->
  let b := page_browser page in
  let fresh := mkPage (next_page (st w)) b in
  let pool1 := with_simCount (insert b (release_count (st w) page))
                 (with_busy (fun s => s ∖ {[page]}) (st w)) in
  match env_fails env (log w) (Goto page AboutBlank) with
  | None =>
      r = Done tt /\
      st w' = with_available (fun l => l ++ [page]) pool1 /\
      log w' = log w ++ [mkEvent InPool (Goto page AboutBlank) AOk]
  | Some msg =>
      let tried := mkEvent InPool (Goto page AboutBlank) (ARejected msg) in
      match r with
      | Done _ =>
          st w' = with_available (fun l => l ++ [fresh]) (alloc_page pool1) /\
          log w' = log w ++ [tried; mkEvent InPool (NewPage b) AOk;
                             mkEvent InPool (SetViewport fresh) AOk]
      | Throw m =>
          (st w' = pool1 \/ st w' = alloc_page pool1) /\
          exists c, (log w' = log w ++ [tried; mkEvent InPool c (ARejected m)] \/
                     log w' = log w ++ [tried; mkEvent InPool (NewPage b) AOk;
                                        mkEvent InPool c (ARejected m)]) /\
                    (c = NewPage b \/ c = SetViewport fresh)
      end
  end.
Proof.
  intros Hlt. unfold release_count in *.
  assert (Hleb : (maxSims config <=? default 0 (simCountPerBrowser (st w) !! page_browser page) + 1)%Z
                 = false) by (apply Z.leb_gt; lia).
  unfold releasePage, restartBrowser, launchBrowser, createPage, bind, try_catch,
    perform_unit, perform, modify, get, ret. simpl. rewrite Hleb. simpl.
  destruct (env_fails env (log w) (Goto page AboutBlank)) as [msg|] eqn:E; simpl.
  - case_env; intros [= <- <-]; simpl; rewrite <- ?app_assoc; simpl.
    + split; [by left|]. eexists. split; [left; reflexivity|by left].
    + split; [by right|]. eexists. split; [right; reflexivity|by right].
    + done.
  - intros [= <- <-]. done.
Qed.

Lemma releasePage_pushes env config page w w' :
  releasePage env config page w = (Done tt, w') ->
  exists p, availablePages (st w') = availablePages (st w) ++ [p] /\
            busyPages (st w') = busyPages (st w) ∖ {[page]} /\
            isShuttingDown (st w') = isShuttingDown (st w).
Proof.
  unfold releasePage, restartBrowser, launchBrowser, createPage, bind, try_catch,
    perform_unit, perform, modify, get, ret. simpl.
  destruct (maxSims config <=? _)%Z; case_env; intros [= <-]; simpl; eauto.
Qed.

(** X2.  The page a release returns to the pool is the one the next
    [acquirePage] hands out: pages are pushed and popped at the same end of
    [availablePages].  Below the threshold, with a reset that is not
    rejected, this is the released page itself. *)
Theorem released_page_is_next_acquired env config page w w' :
  releasePage env config page w = (Done tt, w') ->
  isShuttingDown (st w) = false ->
  exists p pool',
    availablePages (st w') = availablePages (st w) ++ [p] /\
    acquirePage_poll (st w') = Granted p pool' /\
    availablePages pool' = availablePages (st w) /\
    busyPages pool' = {[p]} ∪ (busyPages (st w) ∖ {[page]}) /\
    ((release_count (st w) page < maxSims config)%Z ->
     env_fails env (log w) (Goto page AboutBlank) = None -> p = page).
Proof.
  intros Hrel Hflag.
  destruct (releasePage_pushes _ _ _ _ _ Hrel) as (p & Hav & Hbusy & Hsh).
  exists p. eexists. split; [done|]. split; [|split; [|split]].
  - unfold acquirePage_poll. rewrite Hav, last_snoc, Hsh, Hflag. reflexivity.
  - simpl. by rewrite Hav, removelast_last.
  - simpl. by rewrite Hbusy.
  - intros Hlt Hgoto. pose proof (releasePage_reset _ _ _ _ _ _ Hlt Hrel) as Hcase.
    simpl in Hcase. rewrite Hgoto in Hcase. destruct Hcase as (_ & Hst & _).
    rewrite Hst in Hav. simpl in Hav. apply app_inv_head in Hav. congruence.
Qed.

Lemma released_page_is_next_acquired_witness :
  exists w' p pool',
    releasePage quiet_env (pool_config 1%Z None) (mkPage 0 0)
      (sys_world (leased_out (pool_config 1%Z None))) = (Done tt, w') /\
    availablePages (st w') =
      availablePages (st (sys_world (leased_out (pool_config 1%Z None)))) ++ [p] /\
    acquirePage_poll (st w') = Granted p pool' /\
    p = mkPage 0 0.
Proof.
  eexists.
  destruct (released_page_is_next_acquired quiet_env (pool_config 1%Z None) (mkPage 0 0)
              (sys_world (leased_out (pool_config 1%Z None)))
              (snd (releasePage quiet_env (pool_config 1%Z None) (mkPage 0 0)
                      (sys_world (leased_out (pool_config 1%Z None))))))
    as (p & pool' & Hav & Hacq & _ & _ & Hp).
  - vm_compute. reflexivity.
  - vm_compute. reflexivity.
  - exists p, pool'. split; [vm_compute; reflexivity|]. split; [exact Hav|].
    split; [exact Hacq|]. apply Hp; [vm_compute; reflexivity|reflexivity].
Defined.

(** X3.  When the reset of a released page ([goto about:blank]) is rejected
    below the threshold, the release makes a new page on the same browser and
    returns that one instead: the lease is counted all the same, the browser
    stays, and the page that could not be reset is not closed.  Only a
    rejection while the new page is made lets the release throw, and then no
    page comes back. *)
Theorem failed_reset_replaces_page env config page w r w' msg :
  (release_count (st w) page < maxSims config)%Z ->
  env_fails env (log w) (Goto page AboutBlank) = Some msg ->
  releasePage env config page w = (r, w') ->
  let fresh := mkPage (next_page (st w)) (page_browser page) in
  browsers (st w') = browsers (st w) /\
  simCountPerBrowser (st w') !! page_browser page = Some (release_count (st w) page) /\
  busyPages (st w') = busyPages (st w) ∖ {[page]} /\
  forallb (fun e => negb (is_close e)) (drop (length (log w)) (log w')) = true /\
  match r with
  | Done _ =>
      availablePages (st w') = availablePages (st w) ++ [fresh] /\
      log w' = log w ++ [mkEvent InPool (Goto page AboutBlank) (ARejected msg);
                         mkEvent InPool (NewPage (page_browser page)) AOk;
                         mkEvent InPool (SetViewport fresh) AOk]
  | Throw m =>
      availablePages (st w') = availablePages (st w) /\
      exists c, last (log w') = Some (mkEvent InPool c (ARejected m)) /\
                (c = NewPage (page_browser page) \/ c = SetViewport fresh)
  end.
Proof.
  intros Hlt Hgoto Hrel. pose proof (releasePage_reset _ _ _ _ _ _ Hlt Hrel) as Hcase.
  simpl in Hcase. rewrite Hgoto in Hcase. simpl.
  destruct r as [[]|m].
  - destruct Hcase as (-> & ->). simpl. rewrite lookup_insert_eq, drop_app_length.
    done.
  - destruct Hcase as (Hst & c & Hlog & Hc).
    assert (Hfields : browsers (st w') = browsers (st w) /\
              simCountPerBrowser (st w') !! page_browser page
                = Some (release_count (st w) page) /\
              busyPages (st w') = busyPages (st w) ∖ {[page]} /\
              availablePages (st w') = availablePages (st w)).
    { destruct Hst as [-> | ->]; simpl; by rewrite lookup_insert_eq. }
    destruct Hfields as (? & ? & ? & ?).
    split; [done|]. split; [done|]. split; [done|].
    destruct Hlog as [-> | ->]; rewrite drop_app_length;
      (split; [by destruct Hc as [-> | ->]|]); (split; [done|]);
      exists c; (split; [|done]).
    + by rewrite (last_app_cons _ [_] _).
    + by rewrite (last_app_cons _ [_; _] _).
Qed.

Lemma failed_reset_replaces_page_witness :
  exists r w',
    releasePage (rejecting_at 3) (pool_config 1%Z None) (mkPage 0 0)
      (sys_world (leased_out (pool_config 1%Z None))) = (r, w') /\
    r = Done tt /\
    availablePages (st w') = [mkPage 1 0].
Proof.
  eexists _, _. split; [vm_compute; reflexivity|].
  destruct (failed_reset_replaces_page (rejecting_at 3) (pool_config 1%Z None) (mkPage 0 0)
              (sys_world (leased_out (pool_config 1%Z None)))
              (Done tt)
              (snd (releasePage (rejecting_at 3) (pool_config 1%Z None) (mkPage 0 0)
                      (sys_world (leased_out (pool_config 1%Z None)))))
              "rejected") as (_ & _ & _ & _ & Hav & _).
  - vm_compute. reflexivity.
  - vm_compute. reflexivity.
  - vm_compute. reflexivity.
  - split; [reflexivity|]. vm_compute. reflexivity.
Defined.

(** ** Workers that are lost *)

Lemma drained_step env config s s' :
  drained s -> pool_step env config s s' -> drained s'.
Proof.
  intros (Hav & Hfl & Hle) Hstep. destruct Hstep as
    [s page pool' Hacq|s page k w' Hin Hrel|s l1 k l2 o w' Hfl' Hres
    |s l1 k l2 msg w' Hfl' Hres|s w' Hsh|s w' Hflag Hsh].
  - apply acquirePage_poll_granted in Hacq as (_ & l & Hl & _).
    rewrite Hav in Hl. by destruct l.
  - rewrite Hle in Hin. by apply elem_of_nil in Hin.
  - rewrite Hfl in Hfl'. by destruct l1.
  - rewrite Hfl in Hfl'. by destruct l1.
  - injection Hsh as <-. done.
  - apply shutdown_end_effect in Hsh as (_ & Hst). split; [|done]. simpl. by rewrite Hst.
Qed.

Lemma release_resume_next env config k w k' w' :
  release_resume env config k w = (Done (Some k'), w') -> exists b, k' = KCreate b.
Proof.
  destruct k as [p|b p|b];
    unfold release_resume, launchBrowser, createPage, bind, try_catch, perform_unit,
      perform, modify, get, ret; simpl; case_env; intros H; inversion H; eauto.
Qed.

Lemma release_resume_create env config b w o w' :
  release_resume env config (KCreate b) w = (Done o, w') -> o = None.
Proof.
  unfold release_resume, createPage, bind, perform_unit, perform, modify, get, ret;
    simpl; case_env; intros H; by inversion H.
Qed.

Lemma releasePage_steps env config s page r w' :
  sys_inflight s = [] -> page ∈ sys_leased s ->
  releasePage env config page (sys_world s) = (r, w') ->
  rtc (pool_step env config) s (mkSys w' [] (remove_page page (sys_leased s))).
Proof.
  intros Hfl Hin Hrel. rewrite releasePage_split in Hrel.
  apply bind_inv in Hrel as [(k & w1 & Hbegin & Hfinish)|(e & Hbegin & _)].
  2:{ rewrite release_begin_eq in Hbegin. cbv zeta in Hbegin.
      destruct (maxSims config <=? _)%Z; discriminate. }
  eapply rtc_l; [by eapply step_release_begin|]. rewrite Hfl.
  unfold release_finish in Hfinish.
  apply bind_inv in Hfinish as [(o & w2 & Hres & Hrest)|(e & Hres & _)].
  2:{ apply rtc_once.
      by apply (step_release_rejects env config (mkSys w1 [k] _) [] k [] e w'). }
  eapply rtc_l.
  { by apply (step_release_resume env config (mkSys w1 [k] _) [] k [] o w2). }
  simpl. destruct o as [k'|].
  - simpl. destruct (release_resume_next _ _ _ _ _ _ Hres) as [b ->].
    apply bind_inv in Hrest as [(o' & w3 & Hres' & Hret)|(e & Hres' & _)].
    + injection Hret as _ <-.
      pose proof (release_resume_create _ _ _ _ _ _ Hres') as ->.
      apply rtc_once.
      by apply (step_release_resume env config (mkSys w2 [KCreate b] _) [] (KCreate b) []
                  None w3).
    + apply rtc_once.
      by apply (step_release_rejects env config (mkSys w2 [KCreate b] _) []
                  (KCreate b) [] e w').
  - injection Hrest as _ <-. apply rtc_refl.
Qed.

Lemma releasePage_throws env config page w msg w' :
  releasePage env config page w = (Throw msg, w') ->
  availablePages (st w') = availablePages (st w) /\
  busyPages (st w') = busyPages (st w) ∖ {[page]} /\
  exists c, last (log w') = Some (mkEvent InPool c (ARejected msg)) /\
    match c with Launch _ | NewPage _ | SetViewport _ => True | _ => False end.
Proof.
  unfold releasePage, restartBrowser, launchBrowser, createPage, bind, try_catch,
    perform_unit, perform, modify, get, ret. simpl.
  destruct (maxSims config <=? _)%Z; simpl; case_env; intros [= <- <-]; simpl;
    (split; [done|]); (split; [done|]); eexists; rewrite last_snoc; done.
Qed.

Lemma drained_rtc env config s s' :
  drained s -> rtc (pool_step env config) s s' -> drained s'.
Proof. intros Hd Hsteps. induction Hsteps; eauto using drained_step. Qed.

(** X4.  Workers lost to a failed release are never replaced.  When the one
    page that is out is released while no page is available and no other
    release is under way, and that release throws, the pool is left without
    a page and stays so for good: whatever happens next, no [acquirePage] is
    ever granted a page again. *)
Theorem lost_worker_is_never_replaced env config s page msg w' :
  sys_leased s = [page] -> sys_inflight s = [] ->
  availablePages (st (sys_world s)) = [] ->
  releasePage env config page (sys_world s) = (Throw msg, w') ->
  availablePages (st w') = [] /\
  rtc (pool_step env config) s (mkSys w' [] []) /\
  forall s', rtc (pool_step env config) (mkSys w' [] []) s' ->
    availablePages (st (sys_world s')) = [] /\
    forall p pool', acquirePage_poll (st (sys_world s')) <> Granted p pool'.
Proof.
  intros Hle Hfl Hav Hrel.
  destruct (releasePage_throws _ _ _ _ _ _ Hrel) as (Hav' & _).
  rewrite Hav in Hav'. split; [done|]. split.
  - assert (Hin : page ∈ sys_leased s) by (rewrite Hle; apply elem_of_cons; by left).
    pose proof (releasePage_steps _ _ _ _ _ _ Hfl Hin Hrel) as Hsteps.
    rewrite Hle in Hsteps. unfold remove_page in Hsteps.
    rewrite filter_cons_False, filter_nil in Hsteps by (intros Hne; by apply Hne).
    exact Hsteps.
  - intros s' Hsteps.
    assert (Hd : drained s') by (eapply drained_rtc; [|exact Hsteps]; done).
    destruct Hd as (Hav'' & _). split; [done|]. intros p pool' Hacq.
    apply acquirePage_poll_granted in Hacq as (_ & l & Hl & _).
    rewrite Hav'' in Hl. by destruct l.
Qed.

Lemma lost_worker_is_never_replaced_witness :
  exists w',
    releasePage no_relaunch (pool_config 1%Z (Some 1%Z)) (mkPage 0 0)
      (sys_world (leased_out (pool_config 1%Z (Some 1%Z)))) = (Throw "launch failed", w') /\
    availablePages (st w') = [] /\
    rtc (pool_step no_relaunch (pool_config 1%Z (Some 1%Z)))
        (leased_out (pool_config 1%Z (Some 1%Z))) (mkSys w' [] []) /\
    forall s', rtc (pool_step no_relaunch (pool_config 1%Z (Some 1%Z))) (mkSys w' [] []) s' ->
      availablePages (st (sys_world s')) = [] /\
      forall p pool', acquirePage_poll (st (sys_world s')) <> Granted p pool'.
Proof.
  eexists. split; [vm_compute; reflexivity|].
  eapply (lost_worker_is_never_replaced no_relaunch (pool_config 1%Z (Some 1%Z))
            (leased_out (pool_config 1%Z (Some 1%Z))) (mkPage 0 0) "launch failed").
  - vm_compute. reflexivity.
  - vm_compute. reflexivity.
  - vm_compute. reflexivity.
  - vm_compute. reflexivity.
Defined.

(** ** Shutdown *)

Lemma close_all_calls env l (w : World Pool) :
  exists w' evs, close_all env l w = (Done tt, w') /\ st w' = st w /\
    log w' = log w ++ evs /\
    map ev_call evs = map BrowserClose l /\ Forall (fun e => ev_site e = InPool) evs.
Proof.
  revert w. induction l as [|b l IH]; intros w; simpl.
  - exists w, []. by rewrite app_nil_r.
  - unfold bind, try_catch, perform_unit, perform, ret; simpl.
    destruct (env_fails env (log w) (BrowserClose b)); simpl;
      match goal with |- context [close_all env l ?w1] =>
        destruct (IH w1) as (w' & evs & -> & Hst & Hlog & Hcalls & Hsites) end;
      simpl in *; eexists w', (_ :: evs);
      (split; [done|]); (split; [done|]);
      (split; [by rewrite Hlog, <- app_assoc|]); simpl; rewrite Hcalls;
      (split; [done|]); by constructor.
Qed.

(** X5.  The closing part of [shutdown] never throws.  It calls [close] once
    on every browser of the [browsers] array, in order, whether or not an
    earlier [close] was rejected, and then empties [browsers],
    [availablePages] and [busyPages], pages still held by callers included.
    The lease counters are left as they are. *)
Theorem shutdown_closes_every_browser env w r w' :
  shutdown_end env w = (r, w') ->
  r = Done tt /\
  browsers (st w') = [] /\ availablePages (st w') = [] /\ busyPages (st w') = ∅ /\
  simCountPerBrowser (st w') = simCountPerBrowser (st w) /\
  isShuttingDown (st w') = isShuttingDown (st w) /\
  getStats (st w') = mkStats 0 0 0 /\
  exists evs, log w' = log w ++ evs /\
    map ev_call evs = map BrowserClose (browsers (st w)).
Proof.
  unfold shutdown_end, bind at 1, get. simpl.
  destruct (close_all_calls env (browsers (st w)) w) as (w1 & evs & H1 & Hst & Hlog & Hcalls & _).
  unfold bind at 1. rewrite H1. unfold bind, modify; simpl.
  intros [= <- <-]. simpl. rewrite Hst.
  split; [done|]. do 5 (split; [done|]). split.
  - unfold getStats. simpl. by f_equal.
  - by exists evs.
Qed.

Lemma shutdown_closes_every_browser_witness :
  exists w',
    shutdown_end failing_env (started_pool (pool_config 2%Z None)) = (Done tt, w') /\
    getStats (st w') = mkStats 0 0 0 /\
    map ev_call (drop 6 (log w')) = [BrowserClose 0; BrowserClose 1].
Proof.
  eexists.
  destruct (shutdown_closes_every_browser failing_env (started_pool (pool_config 2%Z None))
              (Done tt)
              (snd (shutdown_end failing_env (started_pool (pool_config 2%Z None)))))
    as (_ & _ & _ & _ & _ & _ & Hstats & _).
  - vm_compute. reflexivity.
  - split; [vm_compute; reflexivity|]. split; [exact Hstats|]. vm_compute. reflexivity.
Defined.

Lemma shutting_step env config s s' :
  isShuttingDown (st (sys_world s)) = true -> pool_step env config s s' ->
  isShuttingDown (st (sys_world s')) = true.
Proof.
  intros Hflag Hstep. destruct Hstep as
    [s page pool' Hacq|s page k w' Hin Hrel|s l1 k l2 o w' Hfl' Hres
    |s l1 k l2 msg w' Hfl' Hres|s w' Hsh|s w' Hflag' Hsh]; simpl.
  - apply acquirePage_poll_granted in Hacq as (Hf & _). congruence.
  - rewrite release_begin_eq in Hrel. cbv zeta in Hrel.
    destruct (maxSims config <=? _)%Z; injection Hrel as <- <-; done.
  - destruct (release_resume_effect _ _ _ _ _ _ Hres) as (_ & -> & _). done.
  - destruct (release_resume_effect _ _ _ _ _ _ Hres) as (_ & -> & _). done.
  - injection Hsh as <-. done.
  - apply shutdown_end_effect in Hsh as (_ & ->). done.
Qed.

(** X6.  Once [shutdown] has set [isShuttingDown], nothing resets it: in
    every later state of the pool an [acquirePage] is rejected, also when
    releases that were under way put pages back into the available list. *)
Theorem no_page_after_shutdown env config s s' :
  isShuttingDown (st (sys_world s)) = true ->
  rtc (pool_step env config) s s' ->
  isShuttingDown (st (sys_world s')) = true /\
  acquirePage_poll (st (sys_world s')) = Rejected "Browser pool is shutting down".
Proof.
  intros Hflag Hsteps.
  assert (Hflag' : isShuttingDown (st (sys_world s')) = true).
  { induction Hsteps; eauto using shutting_step. }
  split; [done|]. unfold acquirePage_poll. rewrite Hflag'. by destruct (last _).
Qed.

Lemma no_page_after_shutdown_witness :
  acquirePage_poll
    (st (snd (shutdown_begin (started_pool (pool_config 1%Z None)))))
  = Rejected "Browser pool is shutting down".
Proof.
  apply (no_page_after_shutdown quiet_env (pool_config 1%Z None)
           (mkSys (snd (shutdown_begin (started_pool (pool_config 1%Z None)))) [] [])
           (mkSys (snd (shutdown_begin (started_pool (pool_config 1%Z None)))) [] [])).
  - reflexivity.
  - apply rtc_refl.
Defined.

(** ** Pool statistics *)

Lemma remove_page_length page (l : list Page) :
  page ∈ l -> length (remove_page page l) < length l.
Proof.
  unfold remove_page. induction l as [|q l IH]; intros Hin; [by apply elem_of_nil in Hin|].
  rewrite filter_cons. destruct (decide (q <> page)) as [Hne|Heq]; simpl.
  - apply elem_of_cons in Hin as [-> | Hin]; [done|]. specialize (IH Hin). lia.
  - pose proof (length_filter (fun q => q <> page) l). lia.
Qed.

Lemma pages_out_step env config s s' :
  pool_step env config s s' -> pages_out s' <= pages_out s.
Proof.
  unfold pages_out. intros Hstep. destruct Hstep as
    [s page pool' Hacq|s page k w' Hin Hrel|s l1 k l2 o w' Hfl Hres
    |s l1 k l2 msg w' Hfl Hres|s w' Hsh|s w' Hflag Hsh]; simpl.
  - apply acquirePage_poll_granted in Hacq as (_ & l & Hl & ->). simpl.
    rewrite Hl, length_app. simpl. lia.
  - pose proof (remove_page_length _ _ Hin).
    rewrite release_begin_eq in Hrel. cbv zeta in Hrel.
    destruct (maxSims config <=? _)%Z; injection Hrel as <- <-; simpl; lia.
  - destruct (release_resume_effect _ _ _ _ _ _ Hres) as (_ & _ & Heff).
    rewrite Hfl, !length_app. simpl. destruct o as [k'|]; simpl.
    + destruct Heff as (-> & _). lia.
    + destruct Heff as (p & _ & -> & _). rewrite length_app. simpl. lia.
  - destruct (release_resume_effect _ _ _ _ _ _ Hres) as (_ & _ & -> & _).
    rewrite Hfl, !length_app. simpl. lia.
  - injection Hsh as <-. simpl. lia.
  - apply shutdown_end_effect in Hsh as (_ & ->). simpl. lia.
Qed.

Lemma reachable_pages_out env config s :
  reachable env config s -> pages_out s <= Z.to_nat (poolSize config).
Proof.
  induction 1 as [history w0 Hinit|s s' _ IH Hstep].
  - apply accounted_initialize in Hinit as (_ & Hlen & _).
    unfold pages_out. simpl. lia.
  - pose proof (pages_out_step _ _ _ _ Hstep). lia.
Qed.

(** X7.  In every state the pool can reach from a completed [initialize],
    [getStats] reports no more available and busy pages together than the
    pool has workers ([poolSize]). *)
Theorem getStats_bounded env config s :
  reachable env config s ->
  available (getStats (st (sys_world s))) + busy (getStats (st (sys_world s)))
    <= Z.to_nat (poolSize config).
Proof.
  intros Hreach. unfold getStats. simpl.
  pose proof (reachable_pages_out _ _ _ Hreach) as Hout. unfold pages_out in Hout.
  destruct (reachable_accounted _ _ _ Hreach) as [[Hsize _]|[_ ->]].
  - lia.
  - rewrite size_empty. lia.
Qed.

Lemma getStats_bounded_witness :
  available (getStats (st (sys_world (leased_out (pool_config 1%Z None)))))
  + busy (getStats (st (sys_world (leased_out (pool_config 1%Z None))))) <= 1.
Proof.
  apply (getStats_bounded quiet_env (pool_config 1%Z None)
           (leased_out (pool_config 1%Z None))).
  apply leased_out_reachable.
Defined.

(** ** The sort is stable *)

Lemma insert_by_frame_stable objs r l :
  StronglySorted (frame_then_index objs) l ->
  Forall (fun x => r < x) l ->
  StronglySorted (frame_then_index objs) (insert_by_frame objs r l).
Proof.
  induction 1 as [|x l Hl IH Hall]; intros Hgt; simpl.
  - repeat constructor.
  - apply Forall_cons in Hgt as [Hx Hgt].
    destruct (Z.leb_spec (frame_of objs r) (frame_of objs x)) as [Hle|Hlt].
    + constructor; [by constructor|]. constructor.
      * unfold frame_then_index. lia.
      * rewrite Forall_forall in Hall, Hgt. apply Forall_forall. intros y Hy.
        specialize (Hall y Hy). specialize (Hgt y Hy).
        unfold frame_then_index in *. lia.
    + constructor; [by apply IH|].
      apply Forall_forall. intros y Hy.
      rewrite insert_by_frame_perm in Hy. apply elem_of_cons in Hy as [-> | Hy].
      * unfold frame_then_index. lia.
      * rewrite Forall_forall in Hall. by apply Hall.
Qed.

Lemma sorted_refs_stable objs :
  StronglySorted (frame_then_index objs) (sorted_refs objs).
Proof.
  unfold sorted_refs. generalize 0 as a.
  induction (length objs) as [|n IH]; intros a; simpl; [constructor|].
  apply insert_by_frame_stable; [apply IH|].
  apply Forall_forall. intros x Hx.
  assert (Hperm : foldr (insert_by_frame objs) [] (seq (S a) n) ≡ₚ seq (S a) n).
  { clear. generalize (S a) as b. induction n as [|n IHn]; intros b; simpl; [done|].
    by rewrite insert_by_frame_perm, IHn. }
  rewrite Hperm in Hx. apply elem_of_seq in Hx. lia.
Qed.

Lemma StronglySorted_lookup {A} (R : relation A) (l : list A) : forall i j x y,
  StronglySorted R l -> i < j -> l !! i = Some x -> l !! j = Some y -> R x y.
Proof.
  induction l as [|z l IH]; intros i j x y Hs Hij Hi Hj; [done|].
  apply StronglySorted_inv in Hs as [Hs Hall].
  destruct j as [|j]; [lia|]. simpl in Hj. destruct i as [|i]; simpl in Hi.
  - injection Hi as ->. rewrite Forall_forall in Hall. apply Hall.
    by eapply list_elem_of_lookup_2.
  - eapply (IH i j); eauto. lia.
Qed.

(** [interventions.find(i => i.frame === f)] on the sorted copy yields the
    first object of [config.interventions] scheduled at [f]. *)
Lemma find_at_frame_first objs f :
  match find_at_frame objs (sorted_refs objs) f with
  | Some r =>
      (exists iv, objs !! r = Some iv /\ frame iv = f) /\
      (forall r' iv', r' < r -> objs !! r' = Some iv' -> frame iv' <> f)
  | None => forall r iv, objs !! r = Some iv -> frame iv <> f
  end.
Proof.
  unfold find_at_frame.
  destruct (list_find (fun r => frame_of objs r = f) (sorted_refs objs)) as [[i r]|] eqn:Hfind;
    simpl.
  - apply list_find_Some in Hfind as (Hi & Hr & Hbefore).
    assert (Hin : r < length objs).
    { apply elem_of_sorted_refs. by eapply list_elem_of_lookup_2. }
    destruct (lookup_lt_is_Some_2 objs r Hin) as [iv Hiv].
    split.
    { exists iv. split; [done|]. unfold frame_of in Hr. by rewrite Hiv in Hr. }
    intros r' iv' Hlt Hiv' Hf.
    assert (Hr' : r' ∈ sorted_refs objs).
    { apply elem_of_sorted_refs. by eapply lookup_lt_Some. }
    apply list_elem_of_lookup in Hr' as [j Hj].
    assert (Hfr' : frame_of objs r' = f) by (unfold frame_of; by rewrite Hiv').
    destruct (decide (j < i)) as [Hji|Hji]; [by apply (Hbefore j r')|].
    assert (j <> i) by (intros ->; rewrite Hi in Hj; injection Hj as ->; lia).
    pose proof (sorted_refs_stable objs) as Hs.
    assert (Hord : frame_then_index objs r r').
    { eapply (StronglySorted_lookup _ _ i j); eauto. lia. }
    unfold frame_then_index in Hord. lia.
  - apply list_find_None in Hfind. intros r iv Hiv Hf.
    rewrite Forall_forall in Hfind. apply (Hfind r).
    + apply elem_of_sorted_refs. by eapply lookup_lt_Some.
    + unfold frame_of. by rewrite Hiv.
Qed.

(** ** What a completed run leaves for each frame *)

Lemma find_at_frame_ext objs objs' refs f :
  (forall i, frame_of objs' i = frame_of objs i) ->
  find_at_frame objs' refs f = find_at_frame objs refs f.
Proof.
  intros Hfr. unfold find_at_frame. f_equal.
  induction refs as [|r refs IH]; [done|]. simpl.
  rewrite Hfr. destruct (decide (frame_of objs r = f)); [done|]. by rewrite IH.
Qed.

Lemma frame_events_app l1 l2 : frame_events (l1 ++ l2) = frame_events l1 ++ frame_events l2.
Proof. apply filter_app. Qed.

Lemma frame_events_interventions objs page f evs :
  Forall (intervention_event objs page f) evs -> frame_events evs = [].
Proof.
  induction 1 as [|e evs (ref & sc & Hs & _) _ IH]; [done|].
  unfold frame_events in *. rewrite filter_cons_False; [done|].
  unfold is_frame_event. by rewrite Hs.
Qed.

Lemma capture_frames_shots env page config sorted k :
  forall f pending annots w annots' w',
  capture_frames env page config (frames_dir config) sorted k f pending annots w
    = (Done annots', w') ->
  exists evs shots,
    log w' = log w ++ evs /\ length shots = k /\
    frame_events evs
      = concat (zip_with (frame_calls page config) (seqZ f (Z.of_nat k)) shots) /\
    annots' = annots ++
      zip_with (fun g shot => mkAnnotation g (snd shot) (find_at_frame (st w) sorted g))
        (seqZ f (Z.of_nat k)) shots.
Proof.
  induction k as [|k IH]; intros f pending annots w annots' w' H.
  - injection H as <- <-. exists [], []. simpl. by rewrite !app_nil_r.
  - simpl in H. inv_done H.
    pose proof (apply_due_safe _ _ _ _ _ _ _ Hm) as (evs1 & Hlog1 & Hall1 & Hfr1 & _).
    apply perform_done in Hm0 as (_ & _ & ->).
    apply perform_done in Hm1 as (_ & -> & ->).
    unfold saveFrame in Hm2. apply perform_done in Hm2 as (_ & _ & ->).
    apply perform_done in Hm3 as (_ & -> & ->).
    inversion Hm4; subst; clear Hm4. simpl in *.
    apply IH in H as (evs2 & shots & Hlog2 & Hlen & Hev2 & ->). simpl in *.
    set (d := env_str env _) in *. set (t := env_num env _) in *.
    exists (evs1 ++ frame_calls page config f (d, t) ++ evs2), ((d, t) :: shots).
    split.
    { rewrite Hlog2, Hlog1. unfold frame_calls. simpl. rewrite <- !app_assoc. reflexivity. }
    split; [simpl; lia|].
    rewrite Nat2Z.inj_succ, (seqZ_cons f) by lia.
    rewrite Z.pred_succ. replace (Z.succ f) with (f + 1)%Z by lia. simpl.
    split.
    { rewrite frame_events_app, (frame_events_interventions _ _ _ _ Hall1).
      change (frame_events (frame_calls page config f (d, t) ++ evs2)
              = frame_calls page config f (d, t) ++
                concat (zip_with (frame_calls page config) (seqZ (f + 1) (Z.of_nat k)) shots)).
      rewrite frame_events_app, Hev2. reflexivity. }
    rewrite <- app_assoc. simpl. do 2 f_equal.
    + f_equal. by apply find_at_frame_ext.
    + apply zip_with_ext; [|done|done]. intros g shot. f_equal.
      apply find_at_frame_ext. intros i. by rewrite Hfr1.
Qed.

Lemma drop_prefix_app p s : drop_prefix p (p +:+ s) = Some s.
Proof.
  induction p as [|a p IH]; simpl; [done|]. by rewrite decide_True.
Qed.

Lemma remove_prefix_app p s : remove_prefix p (p +:+ s) = s.
Proof. unfold remove_prefix. by rewrite drop_prefix_app. Qed.

Lemma frame_events_at_site site evs :
  (forall g, site <> InFrame g) ->
  Forall (fun e => ev_site e = site) evs -> frame_events evs = [].
Proof.
  intros Hsite. induction 1 as [|e evs He _ IH]; [done|].
  unfold frame_events in *. rewrite filter_cons_False; [done|].
  unfold is_frame_event. rewrite He. destruct site; try done.
  intros _. by eapply Hsite.
Qed.

Lemma setup_events_no_frame pre : Forall setup_event pre -> frame_events pre = [].
Proof.
  induction 1 as [|e evs [He _] _ IH]; [done|].
  unfold frame_events in *. rewrite filter_cons_False; [done|].
  unfold is_frame_event. by rewrite He.
Qed.

(** The frame loop of a run that completes, and what follows from it. *)
Lemma run_shots env page html config w md w' :
  run env page html config w = (Done md, w') ->
  exists evs shots,
    log w' = log w ++ evs /\
    length shots = Z.to_nat (totalFrames config) /\
    frame_events evs
      = concat (zip_with (frame_calls page config)
                  (seqZ 0 (Z.of_nat (Z.to_nat (totalFrames config)))) shots) /\
    md_frameAnnotations md
      = zip_with (fun g shot =>
                    mkAnnotation g (snd shot)
                      (find_at_frame (st w) (sorted_refs (st w)) g))
          (seqZ 0 (Z.of_nat (Z.to_nat (totalFrames config)))) shots.
Proof.
  intros H. apply run_done in H as
    (pre & w0 & annots & w1 & eo & et & Hpre & Hst0 & Hsetup & Hloop & Hpost
     & [Heo _] & [Het _] & _ & _ & _ & _ & Hannots).
  apply capture_frames_shots in Hloop as (evs & shots & Hlog & Hlen & Hev & ->).
  exists (pre ++ evs ++
          [eo; et; mkEvent InMetadata
                     (WriteFile (outputDir config ++ ["metadata.json"]) (MetadataDoc md)) AOk]),
         shots.
  split; [by rewrite Hpost, Hlog, Hpre, <- !app_assoc|]. split; [done|]. split.
  - rewrite !frame_events_app, (setup_events_no_frame _ Hsetup), Hev. simpl.
    unfold frame_events. rewrite !filter_cons_False, filter_nil, app_nil_r; try done;
      unfold is_frame_event; simpl; by rewrite ?Heo, ?Het.
  - rewrite Hannots, Hst0. reflexivity.
Qed.

(** X8.  In a run that completes, the calls of the frame loop outside its
    intervention loop are, for each frame 0 .. totalFrames-1 in turn, exactly
    four: the step and render, the capture, the write of
    frames/<padded index>.png and the reading of the time.  The file holds
    the capture of that same frame with one leading data:image/png;base64,
    removed (a capture that is this prefix followed by s is saved as s), and
    the time read is the simulationTime of the frame's annotation. *)
Theorem run_saves_each_capture env page html config history md w' :
  run_job env page html config history = (Done md, w') ->
  exists evs shots,
    log w' = history ++ evs /\
    length shots = Z.to_nat (totalFrames config) /\
    frame_events evs
      = concat (zip_with (frame_calls page config)
                  (seqZ 0 (Z.of_nat (Z.to_nat (totalFrames config)))) shots) /\
    map fa_simulationTime (md_frameAnnotations md) = map snd shots /\
    (forall g s t,
       (g, ("data:image/png;base64," +:+ s, t))
         ∈ zip (seqZ 0 (Z.of_nat (Z.to_nat (totalFrames config)))) shots ->
       mkEvent (InFrame g)
         (WriteFile (frames_dir config ++ [frame_filename g]) (FrameImage s)) AOk ∈ evs).
Proof.
  unfold run_job. intros H.
  apply run_shots in H as (evs & shots & Hlog & Hlen & Hev & Hannots). simpl in *.
  exists evs, shots. split; [done|]. split; [done|]. split; [done|]. split.
  - rewrite Hannots. clear -Hlen.
    assert (Hl : length (seqZ 0 (Z.of_nat (Z.to_nat (totalFrames config)))) = length shots)
      by (rewrite length_seqZ; lia).
    revert Hl. generalize (seqZ 0 (Z.of_nat (Z.to_nat (totalFrames config)))).
    clear Hlen. induction shots as [|shot shots IH]; intros [|g gs] Hl; try done.
    simpl in *. f_equal. apply IH. lia.
  - intros g s t Hin.
    assert (Hcalls : frame_calls page config g ("data:image/png;base64," +:+ s, t)
                       ∈ zip_with (frame_calls page config)
                           (seqZ 0 (Z.of_nat (Z.to_nat (totalFrames config)))) shots).
    { apply list_elem_of_lookup in Hin as [i Hi].
      apply lookup_zip_with_Some in Hi as (x & y & [= <- <-] & Hx & Hy).
      apply (list_elem_of_lookup_2 _ i). apply lookup_zip_with_Some. by eexists _, _. }
    assert (He : mkEvent (InFrame g)
                   (WriteFile (frames_dir config ++ [frame_filename g]) (FrameImage s)) AOk
                 ∈ frame_events evs).
    { rewrite Hev. apply list_elem_of_In, in_concat. eexists.
      split; [apply list_elem_of_In; exact Hcalls|].
      unfold frame_calls. simpl fst. rewrite remove_prefix_app. simpl. tauto. }
    unfold frame_events in He. by apply list_elem_of_filter in He as [_ He].
Qed.

Lemma run_saves_each_capture_witness :
  exists md w',
    run_job quiet_env demo_page "index.html" demo_config [] = (Done md, w') /\
    exists evs shots,
      log w' = [] ++ evs /\
      length shots = Z.to_nat (totalFrames demo_config) /\
      frame_events evs
        = concat (zip_with (frame_calls demo_page demo_config)
                    (seqZ 0 (Z.of_nat (Z.to_nat (totalFrames demo_config)))) shots) /\
      map fa_simulationTime (md_frameAnnotations md) = map snd shots /\
      (forall g s t,
         (g, ("data:image/png;base64," +:+ s, t))
           ∈ zip (seqZ 0 (Z.of_nat (Z.to_nat (totalFrames demo_config)))) shots ->
         mkEvent (InFrame g)
           (WriteFile (frames_dir demo_config ++ [frame_filename g]) (FrameImage s)) AOk
           ∈ evs).
Proof.
  eexists _, _. split; [vm_compute; reflexivity|].
  eapply (run_saves_each_capture quiet_env demo_page "index.html" demo_config []).
  vm_compute; reflexivity.
Defined.

(** X9.  A completed run annotates every frame once, in order.  The
    annotation of frame g names an intervention exactly when some
    intervention of the configuration is scheduled at g, and then it names
    the first such intervention in the order of config.interventions,
    whether or not that intervention was applied. *)
Theorem run_annotation_names_first_scheduled env page html config history md w' :
  run_job env page html config history = (Done md, w') ->
  map frameIndex (md_frameAnnotations md)
    = seqZ 0 (Z.of_nat (Z.to_nat (totalFrames config))) /\
  Forall (fun a =>
      match intervention a with
      | Some r =>
          (exists iv, default [] (interventions config) !! r = Some iv /\
                      frame iv = frameIndex a) /\
          (forall r' iv', r' < r ->
             default [] (interventions config) !! r' = Some iv' ->
             frame iv' <> frameIndex a)
      | None =>
          forall r iv, default [] (interventions config) !! r = Some iv ->
                       frame iv <> frameIndex a
      end) (md_frameAnnotations md).
Proof.
  unfold run_job. intros H.
  apply run_shots in H as (evs & shots & Hlog & Hlen & Hev & Hannots). simpl in *.
  set (objs := default [] (interventions config)) in *.
  rewrite Hannots.
  assert (Hl : length (seqZ 0 (Z.of_nat (Z.to_nat (totalFrames config)))) = length shots)
    by (rewrite length_seqZ; lia).
  revert Hl. generalize (seqZ 0 (Z.of_nat (Z.to_nat (totalFrames config)))).
  clear. induction shots as [|shot shots IH]; intros [|g gs] Hl; try done.
  simpl in *. destruct (IH gs ltac:(lia)) as [IH1 IH2]. split; [by f_equal|].
  constructor; [|done]. simpl. apply find_at_frame_first.
Qed.

Lemma run_annotation_names_first_scheduled_witness :
  exists md w',
    run_job quiet_env demo_page "index.html" demo_config [] = (Done md, w') /\
    map frameIndex (md_frameAnnotations md)
      = seqZ 0 (Z.of_nat (Z.to_nat (totalFrames demo_config))) /\
    Forall (fun a =>
        match intervention a with
        | Some r =>
            (exists iv, default [] (interventions demo_config) !! r = Some iv /\
                        frame iv = frameIndex a) /\
            (forall r' iv', r' < r ->
               default [] (interventions demo_config) !! r' = Some iv' ->
               frame iv' <> frameIndex a)
        | None =>
            forall r iv, default [] (interventions demo_config) !! r = Some iv ->
                         frame iv <> frameIndex a
        end) (md_frameAnnotations md).
Proof.
  eexists _, _. split; [vm_compute; reflexivity|].
  eapply (run_annotation_names_first_scheduled quiet_env demo_page "index.html" demo_config []).
  vm_compute; reflexivity.
Defined.

(** ** An intervention scheduled before frame 0 *)

Lemma apply_due_blocked env page f r0 rest iv (w : World (list Intervention)) :
  st w !! r0 = Some iv -> frame iv <> f ->
  apply_due env page f (r0 :: rest) w = (Done (r0 :: rest), w).
Proof.
  intros Hiv Hf. simpl. unfold bind, get. simpl. rewrite Hiv.
  by destruct (Z.eqb_spec (frame iv) f).
Qed.

Lemma capture_frames_blocked env page config dir sorted r0 rest iv k :
  forall f annots w r w',
  st w !! r0 = Some iv -> (frame iv < f)%Z ->
  capture_frames env page config dir sorted k f (r0 :: rest) annots w = (r, w') ->
  exists evs, log w' = log w ++ evs /\
    Forall (fun e => is_frame_event e = true) evs /\ st w' = st w.
Proof.
  induction k as [|k IH]; intros f annots w r w' Hiv Hlt H.
  - inversion H; subst. exists []. by rewrite app_nil_r.
  - remember (r0 :: rest) as pending eqn:Hp. simpl in H.
    apply bind_inv in H as [(a & w1 & Ha & H)|(e & Ha & ->)]; subst pending;
      rewrite (apply_due_blocked _ _ _ _ _ iv) in Ha by (done || lia); [|discriminate].
    injection Ha as <- <-.
    unfold saveFrame, perform_unit, perform_str, perform_num in H.
    apply bind_inv in H as [(a1 & w1 & Hp & H)|(e & Hp & ->)];
      apply perform_inv in Hp as (ans1 & -> & _);
      [|eexists [_]; simpl; split; [reflexivity|]; split; [by repeat constructor|done]].
    apply bind_inv in H as [(a2 & w2 & Hp & H)|(e & Hp & ->)];
      apply perform_inv in Hp as (ans2 & -> & _);
      [|eexists [_; _]; simpl; rewrite <- !app_assoc; split; [reflexivity|];
        split; [by repeat constructor|done]].
    apply bind_inv in H as [(a3 & w3 & Hp & H)|(e & Hp & ->)];
      apply perform_inv in Hp as (ans3 & -> & _);
      [|eexists [_; _; _]; simpl; rewrite <- !app_assoc; split; [reflexivity|];
        split; [by repeat constructor|done]].
    apply bind_inv in H as [(a4 & w4 & Hp & H)|(e & Hp & ->)];
      apply perform_inv in Hp as (ans4 & -> & _);
      [|eexists [_; _; _; _]; simpl; rewrite <- !app_assoc; split; [reflexivity|];
        split; [by repeat constructor|done]].
    unfold bind at 1, get in H. simpl in H.
    apply IH in H as (evs & Hlog & Hall & Hst); [|done|lia]. simpl in *.
    eexists (_ :: _ :: _ :: _ :: evs). rewrite Hlog, <- !app_assoc. simpl.
    split; [reflexivity|]. split; [by repeat constructor|done].
Qed.

(** The sorted copy starts with an intervention of the least frame. *)
Lemma sorted_refs_head objs j iv :
  objs !! j = Some iv ->
  exists r0 rest iv0, sorted_refs objs = r0 :: rest /\ objs !! r0 = Some iv0 /\
    (frame iv0 <= frame iv)%Z.
Proof.
  intros Hj.
  assert (Hin : j ∈ sorted_refs objs).
  { apply elem_of_sorted_refs. by eapply lookup_lt_Some. }
  pose proof (sorted_refs_stable objs) as Hs.
  destruct (sorted_refs objs) as [|r0 rest] eqn:E; [by apply elem_of_nil in Hin|].
  assert (Hr0 : r0 < length objs).
  { apply elem_of_sorted_refs. rewrite E. by left. }
  apply lookup_lt_is_Some in Hr0 as [iv0 Hiv0].
  exists r0, rest, iv0. split; [done|]. split; [done|].
  apply elem_of_cons in Hin as [-> | Hin]; [by simplify_eq|].
  apply StronglySorted_inv in Hs as [_ Hall]. rewrite Forall_forall in Hall.
  specialize (Hall j Hin). unfold frame_then_index, frame_of in Hall.
  rewrite Hiv0, Hj in Hall. simpl in Hall. lia.
Qed.

(** X10.  When some intervention of the configuration has a negative frame,
    the run applies no intervention at all, however it ends: nothing is
    evaluated on behalf of any intervention, no object of
    config.interventions is written, and the metadata of a completed run
    lists the interventions exactly as the configuration gave them. *)
Theorem run_blocked_by_negative_frame env page html config history r w' :
  Exists (fun iv => (frame iv < 0)%Z) (default [] (interventions config)) ->
  run_job env page html config history = (r, w') ->
  exists evs, log w' = history ++ evs /\
    (forall e f i, e ∈ evs -> ev_site e <> InIntervention f i) /\
    st w' = default [] (interventions config) /\
    (forall md, r = Done md ->
       md_interventions md = default [] (interventions config)).
Proof.
  unfold run_job. set (objs := default [] (interventions config)).
  intros Hneg H.
  apply Exists_exists in Hneg as (iv & Hiv & Hlt).
  apply list_elem_of_lookup in Hiv as [j Hj].
  destruct (sorted_refs_head _ _ _ Hj) as (r0 & rest & iv0 & Hsorted & Hiv0 & Hle).
  assert (Hmd : forall md, r = Done md -> md_interventions md = objs).
  { intros md ->. apply run_done in H as
      (pre & w0 & annots & w1 & eo & et & _ & Hst0 & _ & Hloop & _ & _ & _ & _ & Hmd & _).
    simpl in *. rewrite Hsorted in Hloop at 2.
    eapply capture_frames_blocked in Hloop as (_ & _ & _ & Hst);
      [|by rewrite Hst0|lia].
    by rewrite Hmd, Hst, Hst0. }
  apply run_phases in H as (pre & w0 & Hpre & Hst0 & Hsetup & Hcases). simpl in *.
  assert (Hsite : forall site (l : list Event), (forall f i, site <> InIntervention f i) ->
            Forall (fun e => ev_site e = site) l ->
            forall e f i, e ∈ l -> ev_site e <> InIntervention f i).
  { intros site l Hs Hl e f i He. rewrite Forall_forall in Hl. rewrite (Hl e He). apply Hs. }
  assert (Hframe : forall l : list Event, Forall (fun e => is_frame_event e = true) l ->
            forall e f i, e ∈ l -> ev_site e <> InIntervention f i).
  { intros l Hl e f i He. rewrite Forall_forall in Hl. specialize (Hl e He).
    unfold is_frame_event in Hl. intros Hs. by rewrite Hs in Hl. }
  destruct Hcases as [[-> _]|[(msg & Hloop & _)|(annots & w1 & post & Hloop & Hpost & Hst1 & Hm)]].
  - exists pre. split; [done|]. split; [|by split]. by apply (Hsite InSetup).
  - rewrite Hsorted in Hloop at 2.
    eapply capture_frames_blocked in Hloop as (evs & Hlog & Hall & Hst);
      [|by rewrite Hst0|lia].
    exists (pre ++ evs). split; [by rewrite Hlog, Hpre, app_assoc|].
    split; [|split; [by rewrite Hst, Hst0|done]].
    intros e f i He. apply elem_of_app in He as [He|He];
      [by apply (Hsite InSetup pre)|by apply (Hframe evs)].
  - rewrite Hsorted in Hloop at 2.
    eapply capture_frames_blocked in Hloop as (evs & Hlog & Hall & Hst);
      [|by rewrite Hst0|lia].
    exists (pre ++ evs ++ post). split; [by rewrite Hpost, Hlog, Hpre, <- !app_assoc|].
    split; [|split; [by rewrite Hst1, Hst, Hst0|done]].
    intros e f i He. apply elem_of_app in He as [He|He]; [by apply (Hsite InSetup pre)|].
    apply elem_of_app in He as [He|He];
      [by apply (Hframe evs)|by apply (Hsite InMetadata post)].
Qed.

Lemma run_blocked_by_negative_frame_witness :
  exists r w',
    run_job quiet_env demo_page "index.html" early_config [] = (r, w') /\
    exists evs, log w' = [] ++ evs /\
      (forall e f i, e ∈ evs -> ev_site e <> InIntervention f i) /\
      st w' = default [] (interventions early_config) /\
      (forall md, r = Done md ->
         md_interventions md = default [] (interventions early_config)).
Proof.
  eexists _, _. split; [vm_compute; reflexivity|].
  eapply (run_blocked_by_negative_frame quiet_env demo_page "index.html" early_config []);
    [|vm_compute; reflexivity].
  apply Exists_cons_tl, Exists_cons_hd. simpl. lia.
Defined.

(** ** What a run touches *)

#[export] Instance confined_stable page dir :
  Stable (fun _ => confined page dir) any_state.
Proof. by split. Qed.






(** ** The books of the scheduler *)

Lemma books_refl job_id s : books job_id 0 0 0 s s.
Proof.
  split; [done|]. split; [|simpl; lia].
  intros job Hjob. exists job. split; [done|]. split; [done|]. split; [done|]. lia.
Qed.

Lemma books_trans job_id a b c a' b' c' x y z s1 s2 s3 :
  books job_id a b c s1 s2 -> books job_id a' b' c' s2 s3 ->
  x = (a + a')%Z -> y = (b + b')%Z -> z = (c + c')%Z ->
  books job_id x y z s1 s3.
Proof.
  intros (Ho1 & Hj1 & Hc1 & Hf1 & Ht1) (Ho2 & Hj2 & Hc2 & Hf2 & Ht2) -> -> ->.
  split. { intros k Hk. by rewrite Ho2, Ho1. }
  split; [|lia].
  intros job Hjob. destruct (Hj1 job Hjob) as (job1 & Hjob1 & Hi1 & Hg1 & Hr1).
  destruct (Hj2 job1 Hjob1) as (job2 & Hjob2 & Hi2 & Hg2 & Hr2).
  exists job2. split; [done|]. split; [congruence|]. split; [congruence|]. lia.
Qed.

Lemma books_with_job job_id f dr s :
  (forall job, js_id (f job) = js_id job /\ js_config (f job) = js_config job /\
               retryCount (f job) = (retryCount job + dr)%Z) ->
  books job_id dr 0 0 s (with_job job_id f s).
Proof.
  intros Hf. split. { intros k Hk. simpl. by rewrite lookup_alter_ne. }
  split; [|simpl; lia].
  intros job Hjob. exists (f job). simpl. rewrite lookup_alter_eq, Hjob.
  split; [done|]. apply Hf.
Qed.

Lemma books_completed job_id t s :
  books job_id 0 1 0 s (count_completed (with_job job_id (mark_completed t) s)).
Proof.
  eapply (books_trans _ 0 0 0 0 1 0 _ _ _ _ (with_job job_id (mark_completed t) s));
    [apply books_with_job| |reflexivity..].
  - intros job. simpl. repeat split; lia.
  - split; [by intros; simpl|]. split; [|simpl; lia].
    intros job Hjob. exists job. simpl. repeat split; [done|lia].
Qed.

Lemma books_note job_id msg s : books job_id 1 0 0 s (with_job job_id (note_failure msg) s).
Proof. apply books_with_job. intros job. simpl. repeat split. Qed.

Lemma books_failed job_id msg t s :
  books job_id 1 0 1 s
    (count_failed (with_job job_id (mark_failed t) (with_job job_id (note_failure msg) s))).
Proof.
  eapply (books_trans _ 1 0 0 0 0 1); [apply books_note| |reflexivity..].
  eapply (books_trans _ 0 0 0 0 0 1 _ _ _ _
            (with_job job_id (mark_failed t) (with_job job_id (note_failure msg) s)));
    [apply books_with_job| |reflexivity..].
  - intros job. simpl. repeat split; lia.
  - split; [by intros; simpl|]. split; [|simpl; lia].
    intros job Hjob. exists job. simpl. repeat split; [done|lia].
Qed.

Lemma count_returned_app l1 l2 :
  count_returned (l1 ++ l2) = count_returned l1 + count_returned l2.
Proof. unfold count_returned. by rewrite List.filter_app, length_app. Qed.

Lemma sleeps_app l1 l2 : sleeps (l1 ++ l2) = sleeps l1 ++ sleeps l2.
Proof. apply omap_app. Qed.

Lemma attempt_once_books env html config attempt w r w' :
  attempt_once env html config attempt w = (r, w') ->
  exists evs, log w' = log w ++ evs /\ count_attempts evs = 1 /\ sleeps evs = [] /\
    ((count_returned evs = 0 /\ st w' = st w /\ exists msg, r = Throw msg) \/
     (count_returned evs = 1 /\
      exists t, st w' = count_completed (with_job (id config) (mark_completed t) (st w)))).
Proof.
  unfold attempt_once, bind, try_finally, perform_page, perform_metadata, perform_unit,
    perform, now, modify, ret.
  destruct (env_fails env (log w) AcquirePage) as [msg|] eqn:Hacq; simpl.
  { intros [= <- <-]. eexists [_]. simpl. split; [done|]. split; [done|]. split; [done|].
    left. eauto. }
  set (page := env_page env (log w)).
  set (l1 := log w ++ [mkEvent (InAttempt attempt) AcquirePage (APage page)]).
  destruct (env_fails env l1 (RunSimulation page html config)) as [msg|] eqn:Hrun; simpl.
  - set (l2 := l1 ++ [_]).
    destruct (env_fails env l2 (ReleasePage page)) as [msg'|] eqn:Hrel; simpl;
      intros [= <- <-]; eexists [_; _; _]; simpl; subst l2 l1; rewrite <- !app_assoc; simpl;
      (split; [done|]); (split; [done|]); (split; [done|]); left; eauto.
  - set (l2 := l1 ++ [_]).
    destruct (env_fails env l2 (ReleasePage page)) as [msg'|] eqn:Hrel; simpl;
      intros [= <- <-]; eexists [_; _; _]; simpl; subst l2 l1; rewrite <- !app_assoc; simpl;
      (split; [done|]); (split; [done|]); (split; [done|]); right; eauto.
Qed.

Lemma on_failure_books env maxRetries config attempt msg w r w' :
  on_failure env maxRetries config attempt msg w = (r, w') ->
  r = Done tt /\
  exists evs, log w' = log w ++ evs /\ count_attempts evs = 0 /\ count_returned evs = 0 /\
    if (attempt <? maxRetries)%Z
    then sleeps evs = [(1000 * (attempt + 1))%Z] /\
         st w' = with_job (id config) (note_failure msg) (st w)
    else sleeps evs = [] /\
         exists t, st w' = count_failed (with_job (id config) (mark_failed t)
                                           (with_job (id config) (note_failure msg) (st w))).
Proof.
  unfold on_failure. unfold bind at 1, modify at 1. simpl.
  destruct (attempt <? maxRetries)%Z.
  - unfold sleep. simpl. intros [= <- <-]. split; [done|]. by eexists [_].
  - unfold bind, now, modify, try_catch, perform_unit, perform, get, ret, throw. simpl.
    destruct (env_fails env (log w) (Mkdir (outputDir config))) as [m1|] eqn:Hmk; simpl.
    { intros [= <- <-]. split; [done|]. eexists [_]. simpl.
      split; [done|]. split; [done|]. split; [done|]. split; [done|]. eauto. }
    match goal with |- context [match ?x with Some _ => _ | None => _ end] =>
      destruct x as [job|] end; simpl.
    + match goal with |- context [env_fails env ?l (WriteFile ?f ?d)] =>
        destruct (env_fails env l (WriteFile f d)) as [m2|] eqn:Hwr end; simpl;
        intros [= <- <-]; (split; [done|]); eexists [_; _]; simpl; rewrite <- app_assoc;
        (split; [done|]); (split; [done|]); (split; [done|]); (split; [done|]); eauto.
    + intros [= <- <-]. split; [done|]. eexists [_]. simpl.
      split; [done|]. split; [done|]. split; [done|]. split; [done|]. eauto.
Qed.

Lemma attempts_books env html maxRetries config k : forall attempt w job o w',
  (attempt + Z.of_nat k = maxRetries + 1)%Z ->
  jobs (st w) !! id config = Some job ->
  attempts env html maxRetries config k attempt w = (Done o, w') ->
  exists evs,
    log w' = log w ++ evs /\
    books (id config)
      (Z.of_nat (count_attempts evs) - match o with Some _ => 1 | None => 0 end)
      (Z.of_nat (count_returned evs))
      (match o with Some _ => 0 | None => match k with O => 0 | S _ => 1 end end)
      (st w) (st w') /\
    sleeps evs = map (fun a => 1000 * (a + 1))%Z
                   (seqZ attempt (Z.of_nat (count_attempts evs) - 1)) /\
    match o with
    | Some _ =>
        1 <= count_attempts evs <= k /\ 1 <= count_returned evs /\
        forall job', jobs (st w') !! id config = Some job' -> status job' = Completed
    | None =>
        count_attempts evs = k /\
        (0 < k -> forall job', jobs (st w') !! id config = Some job' ->
                  status job' = Failed /\ is_Some (error job') /\ is_Some (endTime job'))
    end.
Proof.
  induction k as [|k IH]; intros attempt w job o w' Hk Hjob H.
  - injection H as <- <-. exists []. rewrite app_nil_r. split; [done|].
    split; [apply books_refl|]. split; [done|]. split; [done|]. lia.
  - simpl in H. unfold bind at 1 in H. unfold try_catch in H. unfold bind at 1 in H.
    destruct (attempt_once env html config attempt w) as [r1 w1] eqn:Hrun1.
    apply attempt_once_books in Hrun1 as (evs1 & Hlog1 & Hatt1 & Hsl1 & Hst1).
    destruct r1 as [md|msg].
    + (* the attempt returned *)
      simpl in H. injection H as <- <-.
      destruct Hst1 as [(_ & _ & ? & ?)|(Hret1 & t & Hst1)]; [discriminate|].
      exists evs1. split; [done|]. rewrite Hatt1, Hret1, Hsl1, Hst1.
      split; [apply books_completed|]. split; [done|]. split; [lia|]. split; [lia|].
      intros job'. simpl. rewrite lookup_alter_eq, Hjob. by intros [= <-].
    + (* the attempt threw: the catch block, then the next iteration *)
      destruct (on_failure env maxRetries config attempt msg w1) as [r2 w2] eqn:Hrun2.
      unfold bind at 1 in H. rewrite Hrun2 in H.
      apply on_failure_books in Hrun2 as (-> & evs2 & Hlog2 & Hatt2 & Hret2 & Hbranch).
      simpl in H.
      assert (Hb1 : exists c1, books (id config) 0 c1 0 (st w) (st w1) /\
                               c1 = Z.of_nat (count_returned evs1)).
      { destruct Hst1 as [(-> & -> & _)|(-> & t & ->)].
        - exists 0%Z. split; [apply books_refl|done].
        - exists 1%Z. split; [apply books_completed|done]. }
      destruct Hb1 as (c1 & Hb1 & ->).
      destruct (Z.ltb_spec attempt maxRetries) as [Hlt|Hge].
      * (* attempts remain: the timer *)
        destruct Hbranch as (Hsl2 & Hst2).
        assert (Hb2 : books (id config) 1 (Z.of_nat (count_returned evs1)) 0 (st w) (st w2)).
        { rewrite Hst2. eapply books_trans; [exact Hb1|apply books_note|lia..]. }
        destruct Hb2 as (Ho2 & Hj2 & Hc2 & Hf2 & Ht2).
        destruct (Hj2 job Hjob) as (job2 & Hjob2 & _).
        destruct (IH (attempt + 1)%Z w2 job2 o w') as (evs3 & Hlog3 & Hb3 & Hsl3 & Ho);
          [lia|done|done|].
        assert (Hn3 : 1 <= count_attempts evs3) by (destruct o; lia).
        exists (evs1 ++ evs2 ++ evs3).
        split; [by rewrite Hlog3, Hlog2, Hlog1, <- !app_assoc|].
        rewrite !count_attempts_app, !count_returned_app, !sleeps_app,
          Hatt1, Hatt2, Hret2, Hsl1, Hsl2, Hsl3.
        split.
        { eapply books_trans; [exact (conj Ho2 (conj Hj2 (conj Hc2 (conj Hf2 Ht2))))
                              |exact Hb3|..]; destruct o, k; lia. }
        split.
        { replace (Z.of_nat (1 + (0 + count_attempts evs3)) - 1)%Z
            with (Z.of_nat (count_attempts evs3)) by lia.
          rewrite (seqZ_cons attempt) by lia. simpl.
          by replace (Z.succ attempt) with (attempt + 1)%Z by lia. }
        destruct o as [md|]; [destruct Ho as (Ha & Hr & Hs); split; [lia|split; [lia|done]]|].
        destruct Ho as (Ha & Hs). split; [lia|]. intros _. apply Hs. lia.
      * (* this was the last attempt *)
        assert (k = 0) as -> by lia. simpl in H. injection H as <- <-.
        destruct Hbranch as (Hsl2 & t & Hst2).
        exists (evs1 ++ evs2). split; [by rewrite Hlog2, Hlog1, <- !app_assoc|].
        rewrite !count_attempts_app, !count_returned_app, !sleeps_app,
          Hatt1, Hatt2, Hret2, Hsl1, Hsl2.
        split.
        { rewrite Hst2. eapply books_trans; [exact Hb1|apply books_failed|lia..]. }
        split; [done|]. split; [done|]. intros _ job'. rewrite Hst2. simpl.
        rewrite !lookup_alter_eq.
        destruct (jobs (st w1) !! id config) as [j1|]; simpl; [|done].
        intros [= <-]. simpl. split; [done|]. split; eauto.
Qed.

(** X12.  What the retry wrapper of a registered job leaves in the books
    (maxRetries >= 0).  Only the job's own entry is written: it ends
    completed when the wrapper returns metadata and failed when it returns
    null, and its retryCount has grown by the number of attempts that threw.
    failedCount grows by one exactly when null is returned.  completedCount
    grows by one for every run that returned its metadata, also when the
    release that followed was rejected and the attempt was retried, so a job
    that ends failed may have been counted as completed as well. *)
Theorem runWithRetry_bookkeeping env html maxRetries config w job o w' :
  (0 <= maxRetries)%Z ->
  jobs (st w) !! id config = Some job ->
  runWithRetry env html maxRetries config w = (Done o, w') ->
  exists evs job',
    log w' = log w ++ evs /\
    jobs (st w') = <[id config := job']> (jobs (st w)) /\
    js_id job' = js_id job /\ js_config job' = js_config job /\
    status job' = match o with Some _ => Completed | None => Failed end /\
    retryCount job'
      = (retryCount job + Z.of_nat (count_attempts evs)
         - match o with Some _ => 1 | None => 0 end)%Z /\
    (o = None -> Z.of_nat (count_attempts evs) = (maxRetries + 1)%Z /\
                 is_Some (error job')) /\
    completedCount (st w')
      = (completedCount (st w) + Z.of_nat (count_returned evs))%Z /\
    (is_Some o -> 1 <= count_returned evs) /\
    failedCount (st w')
      = (failedCount (st w) + match o with Some _ => 0 | None => 1 end)%Z /\
    orch_startTime (st w') = orch_startTime (st w).
Proof.
  intros Hmax Hjob H. unfold runWithRetry in H.
  unfold bind at 1, get in H. simpl in H. rewrite Hjob in H.
  unfold bind at 1, now in H. simpl in H.
  unfold bind at 1, modify in H. simpl in H.
  set (t := env_clock env (log w)) in *.
  set (w1 := mkWorld (with_job (id config) (mark_running t) (st w)) (log w)) in *.
  assert (Hjob1 : jobs (st w1) !! id config = Some (mark_running t job)).
  { simpl. by rewrite lookup_alter_eq, Hjob. }
  destruct (attempts_books env html maxRetries config (Z.to_nat (maxRetries + 1)) 0%Z w1 _ o w'
              ltac:(lia) Hjob1 H)
    as (evs & Hlog & (Ho & Hj & Hc & Hf & Ht) & _ & Hout).
  destruct (Hj _ Hjob1) as (job' & Hjob' & Hid & Hcfg & Hretry).
  assert (Hk : 0 < Z.to_nat (maxRetries + 1)) by lia.
  exists evs, job'. split; [done|]. split.
  { apply map_eq. intros k. destruct (decide (k = id config)) as [->|Hne].
    - by rewrite lookup_insert_eq.
    - rewrite lookup_insert_ne, Ho by done. simpl. by rewrite lookup_alter_ne. }
  split; [done|]. split; [done|]. split.
  { destruct o; [by apply Hout|]. destruct Hout as [_ Hs]. by apply (Hs Hk). }
  split; [simpl in Hretry; lia|]. split.
  { intros ->. destruct Hout as [Ha Hs]. split; [lia|]. by apply (Hs Hk). }
  split; [exact Hc|]. split.
  { intros [md ->]. apply Hout. }
  split; [|exact Ht]. rewrite Hf. simpl. destruct o; [done|].
  by destruct (Z.to_nat (maxRetries + 1)); [lia|].
Qed.

Lemma runWithRetry_bookkeeping_witness :
  exists o w',
    runWithRetry leaky_env "index.html" 2%Z demo_config demo_orchestrator = (Done o, w') /\
    exists evs job',
      log w' = log demo_orchestrator ++ evs /\
      jobs (st w') = <[id demo_config := job']> (jobs (st demo_orchestrator)) /\
      js_id job' = js_id (pending_job demo_config) /\
      js_config job' = js_config (pending_job demo_config) /\
      status job' = match o with Some _ => Completed | None => Failed end /\
      retryCount job'
        = (retryCount (pending_job demo_config) + Z.of_nat (count_attempts evs)
           - match o with Some _ => 1 | None => 0 end)%Z /\
      (o = None -> Z.of_nat (count_attempts evs) = (2 + 1)%Z /\ is_Some (error job')) /\
      completedCount (st w')
        = (completedCount (st demo_orchestrator) + Z.of_nat (count_returned evs))%Z /\
      (is_Some o -> 1 <= count_returned evs) /\
      failedCount (st w')
        = (failedCount (st demo_orchestrator) + match o with Some _ => 0 | None => 1 end)%Z /\
      orch_startTime (st w') = orch_startTime (st demo_orchestrator).
Proof.
  eexists _, _. split; [vm_compute; reflexivity|].
  eapply (runWithRetry_bookkeeping leaky_env "index.html" 2%Z demo_config demo_orchestrator);
    [lia|vm_compute; reflexivity|vm_compute; reflexivity].
Defined.

Lemma attempts_backoff env html maxRetries config k : forall attempt w job o w',
  (attempt + Z.of_nat (S k) = maxRetries + 1)%Z ->
  jobs (st w) !! id config = Some job ->
  attempts env html maxRetries config (S k) attempt w = (Done o, w') ->
  exists failed final tail,
    log w' = log w ++ backoff_log attempt failed ++ final ++ tail /\
    length failed <= k /\
    (forall i b, failed !! i = Some b ->
       failed_attempt html config (attempt + Z.of_nat i)%Z b) /\
    match o with
    | Some md =>
        (exists page, final = attempt_events html config
                                (attempt + Z.of_nat (length failed))%Z page (AMetadata md) AOk) /\
        tail = []
    | None =>
        length failed = k /\
        failed_attempt html config (attempt + Z.of_nat (length failed))%Z final /\
        exists n, persisted env config n tail
    end.
Proof.
  induction k as [|k IH]; intros attempt w job o w' Hk Hjob H.
  - (* the last attempt allowed *)
    simpl in H.
    destruct (attempt_once_paths env html config attempt w)
      as (r1 & w1 & evs1 & Hrun1 & Hlog1 & Hkeep & Hpaths).
    unfold bind at 1 in H. unfold try_catch in H. unfold bind at 1 in H.
    rewrite Hrun1 in H. destruct r1 as [md|msg].
    + simpl in H. injection H as <- <-.
      destruct Hpaths as [(msg & _ & ?)|(page & a1 & a2 & -> & Hr)]; [discriminate|].
      destruct Hr as [(md' & [= <-] & -> & ->)|(msg & ? & _)]; [|discriminate].
      exists [], (attempt_events html config attempt page (AMetadata md) AOk), [].
      rewrite Z.add_0_r. split; [simpl; by rewrite ?app_nil_r|]. split; [done|].
      split; [by intros i b [=]|]. split; [by exists page|done].
    + destruct (Hkeep job Hjob) as (job1 & Hjob1 & Hc1).
      destruct (on_failure_spec env maxRetries config attempt msg w1 job1 Hjob1)
        as (w2 & evs2 & job2 & Hrun2 & Hlog2 & Hjob2 & Hc2 & Hbranch).
      unfold bind at 1 in H. rewrite Hrun2 in H. simpl in H. injection H as <- <-.
      destruct (Z.ltb_spec attempt maxRetries) as [Hlt|Hge]; [lia|].
      exists [], evs1, evs2. simpl. rewrite Z.add_0_r.
      split; [by rewrite Hlog2, Hlog1, <- app_assoc|]. split; [done|].
      split; [by intros i b [=]|]. split; [done|]. split; [|eauto].
      destruct Hpaths as [(m & -> & _)|(page & a1 & a2 & -> & Hr)]; [left; eauto|].
      right. destruct Hr as [(md' & ? & _)|(m & _ & Hr)]; [discriminate|].
      by exists page, a1, a2, m.
  - (* an attempt that may be retried *)
    remember (S k) as k1 eqn:Hk1. simpl in H.
    destruct (attempt_once_paths env html config attempt w)
      as (r1 & w1 & evs1 & Hrun1 & Hlog1 & Hkeep & Hpaths).
    unfold bind at 1 in H. unfold try_catch in H. unfold bind at 1 in H.
    rewrite Hrun1 in H. destruct r1 as [md|msg].
    + simpl in H. injection H as <- <-.
      destruct Hpaths as [(msg & _ & ?)|(page & a1 & a2 & -> & Hr)]; [discriminate|].
      destruct Hr as [(md' & [= <-] & -> & ->)|(msg & ? & _)]; [|discriminate].
      exists [], (attempt_events html config attempt page (AMetadata md) AOk), [].
      rewrite Z.add_0_r. split; [simpl; by rewrite ?app_nil_r|]. split; [simpl; lia|].
      split; [by intros i b [=]|]. split; [by exists page|done].
    + destruct (Hkeep job Hjob) as (job1 & Hjob1 & Hc1).
      destruct (on_failure_spec env maxRetries config attempt msg w1 job1 Hjob1)
        as (w2 & evs2 & job2 & Hrun2 & Hlog2 & Hjob2 & Hc2 & Hbranch).
      unfold bind at 1 in H. rewrite Hrun2 in H. simpl in H.
      destruct (Z.ltb_spec attempt maxRetries) as [Hlt|Hge]; [|lia].
      subst evs2 k1.
      apply (IH _ _ job2) in H as (failed & final & tail & Hlog3 & Hlen & Hfailed & Ho);
        [|lia|done].
      assert (Hb1 : failed_attempt html config attempt evs1).
      { destruct Hpaths as [(m & -> & _)|(page & a1 & a2 & -> & Hr)]; [left; eauto|].
        right. destruct Hr as [(md' & ? & _)|(m & _ & Hr)]; [discriminate|].
        by exists page, a1, a2, m. }
      exists (evs1 :: failed), final, tail. split.
      { rewrite Hlog3, Hlog2, Hlog1. simpl. unfold backoff_timer.
        by rewrite <- !app_assoc. }
      split; [simpl; lia|]. split.
      { intros [|i] b Hi; simpl in Hi.
        - injection Hi as <-. by rewrite Z.add_0_r.
        - replace (attempt + Z.of_nat (S i))%Z with (attempt + 1 + Z.of_nat i)%Z by lia.
          by apply Hfailed. }
      simpl length.
      replace (attempt + Z.of_nat (S (length failed)))%Z
        with (attempt + 1 + Z.of_nat (length failed))%Z by lia.
      destruct o as [md|]; [done|].
      destruct Ho as (Hl & Hf & Hp). split; [lia|]. done.
Qed.

Lemma sleeps_failed_attempt html config k b :
  failed_attempt html config k b -> sleeps b = [].
Proof. by intros [(msg & ->)|(page & a1 & a2 & msg & -> & _)]. Qed.

Lemma sleeps_persisted env config n tail : persisted env config n tail -> sleeps tail = [].
Proof. by intros (site & [(msg & ->)|(e & a & -> & _)] & _). Qed.

Lemma sleeps_backoff_log html config failed : forall k,
  (forall i b, failed !! i = Some b -> failed_attempt html config (k + Z.of_nat i)%Z b) ->
  sleeps (backoff_log k failed)
  = map (fun a => 1000 * (a + 1))%Z (seqZ k (Z.of_nat (length failed))).
Proof.
  induction failed as [|b failed IH]; intros k Hall; [done|].
  simpl backoff_log. rewrite sleeps_app.
  change (sleeps (backoff_timer k :: backoff_log (k + 1)%Z failed))
    with ((1000 * (k + 1))%Z :: sleeps (backoff_log (k + 1)%Z failed)).
  rewrite (sleeps_failed_attempt html config k b).
  2:{ specialize (Hall 0 b eq_refl). by rewrite Z.add_0_r in Hall. }
  rewrite IH.
  2:{ intros i b' Hi. specialize (Hall (S i) b' Hi).
      by replace (k + 1 + Z.of_nat i)%Z with (k + Z.of_nat (S i))%Z by lia. }
  simpl length. rewrite Nat2Z.inj_succ, (seqZ_cons k) by lia.
  rewrite Z.pred_succ. by replace (Z.succ k) with (k + 1)%Z by lia.
Qed.

(** X13.  The waits of the retry wrapper of a registered job
    (maxRetries >= 0), placed in its log.  The log is made of the attempts
    in turn, numbered from 0.  An attempt that threw and is not the last one
    allowed is followed at once by one timer, of 1000 * (k + 1) ms after
    attempt k, and the next attempt begins right after that timer.  The
    last attempt made either returned the metadata, and ends the log, or was
    attempt number maxRetries and threw: no timer follows it, only the calls
    that save the error record.  So the timers of a job are 1000, 2000, ...
    in this order, one per attempt that was retried. *)
Theorem runWithRetry_backoff env html maxRetries config w job o w' :
  (0 <= maxRetries)%Z ->
  jobs (st w) !! id config = Some job ->
  runWithRetry env html maxRetries config w = (Done o, w') ->
  exists failed final tail,
    log w' = log w ++ backoff_log 0%Z failed ++ final ++ tail /\
    (Z.of_nat (length failed) <= maxRetries)%Z /\
    (forall i b, failed !! i = Some b -> failed_attempt html config (Z.of_nat i) b) /\
    sleeps (backoff_log 0%Z failed ++ final ++ tail)
      = map (fun k => 1000 * (k + 1))%Z (seqZ 0 (Z.of_nat (length failed))) /\
    match o with
    | Some md =>
        (exists page,
           final = attempt_events html config (Z.of_nat (length failed)) page
                     (AMetadata md) AOk) /\
        tail = []
    | None =>
        Z.of_nat (length failed) = maxRetries /\
        failed_attempt html config maxRetries final /\
        exists n, persisted env config n tail
    end.
Proof.
  intros Hmax Hjob H. unfold runWithRetry in H.
  unfold bind at 1, get in H. simpl in H. rewrite Hjob in H.
  unfold bind at 1, now in H. simpl in H.
  unfold bind at 1, modify in H. simpl in H.
  set (t := env_clock env (log w)) in *.
  set (w1 := mkWorld (with_job (id config) (mark_running t) (st w)) (log w)) in *.
  assert (Hjob1 : jobs (st w1) !! id config = Some (mark_running t job)).
  { simpl. by rewrite lookup_alter_eq, Hjob. }
  assert (Hk : Z.to_nat (maxRetries + 1) = S (Z.to_nat maxRetries)) by lia.
  rewrite Hk in H.
  eapply (attempts_backoff env html maxRetries config) in H
    as (failed & final & tail & Hlog & Hlen & Hfailed & Ho); [|lia|exact Hjob1].
  exists failed, final, tail. split; [done|]. split; [lia|]. split; [done|].
  assert (Hsl : sleeps (backoff_log 0%Z failed ++ final ++ tail)
                = map (fun k => 1000 * (k + 1))%Z (seqZ 0 (Z.of_nat (length failed)))).
  { rewrite !sleeps_app, (sleeps_backoff_log html config) by done.
    destruct o as [md|].
    - destruct Ho as [[page ->] ->]. by rewrite app_nil_r.
    - destruct Ho as (_ & Hf & n & Hp).
      by rewrite (sleeps_failed_attempt _ _ _ _ Hf), (sleeps_persisted _ _ _ _ Hp),
           app_nil_r. }
  split; [exact Hsl|].
  destruct o as [md|]; simpl in Ho; [done|].
  destruct Ho as (Hl & Hf & Hp). split; [lia|]. split; [|done].
  by replace maxRetries with (0 + Z.of_nat (length failed))%Z by lia.
Qed.

Lemma runWithRetry_backoff_witness :
  exists o w',
    runWithRetry failing_env "index.html" 2%Z demo_config demo_orchestrator = (Done o, w') /\
    exists failed final tail,
      log w' = log demo_orchestrator ++ backoff_log 0%Z failed ++ final ++ tail /\
      (Z.of_nat (length failed) <= 2)%Z /\
      (forall i b, failed !! i = Some b ->
         failed_attempt "index.html" demo_config (Z.of_nat i) b) /\
      sleeps (backoff_log 0%Z failed ++ final ++ tail)
        = map (fun k => 1000 * (k + 1))%Z (seqZ 0 (Z.of_nat (length failed))) /\
      match o with
      | Some md =>
          (exists page,
             final = attempt_events "index.html" demo_config (Z.of_nat (length failed)) page
                       (AMetadata md) AOk) /\
          tail = []
      | None =>
          Z.of_nat (length failed) = 2%Z /\
          failed_attempt "index.html" demo_config 2%Z final /\
          exists n, persisted failing_env demo_config n tail
      end.
Proof.
  eexists _, _. split; [vm_compute; reflexivity|].
  eapply (runWithRetry_backoff failing_env "index.html" 2%Z demo_config demo_orchestrator);
    [lia|vm_compute; reflexivity|vm_compute; reflexivity].
Defined.


(** ** The books of a batch *)

Lemma runWithRetry_attempts env html maxRetries config w job r w' :
  jobs (st w) !! id config = Some job ->
  runWithRetry env html maxRetries config w = (r, w') ->
  attempts env html maxRetries config (Z.to_nat (maxRetries + 1)) 0%Z
    (mkWorld (with_job (id config) (mark_running (env_clock env (log w))) (st w)) (log w))
    = (r, w') /\
  jobs (with_job (id config) (mark_running (env_clock env (log w))) (st w)) !! id config
    = Some (mark_running (env_clock env (log w)) job).
Proof.
  intros Hjob H. unfold runWithRetry in H.
  unfold bind at 1, get in H. simpl in H. rewrite Hjob in H.
  unfold bind at 1, now in H. simpl in H.
  unfold bind at 1, modify in H. simpl in H.
  split; [done|]. simpl. by rewrite lookup_alter_eq, Hjob.
Qed.

Lemma runWithRetry_counts env html maxRetries config w o w' :
  (0 <= maxRetries)%Z ->
  is_Some (jobs (st w) !! id config) ->
  runWithRetry env html maxRetries config w = (Done o, w') ->
  exists evs,
    log w' = log w ++ evs /\
    completedCount (st w') = (completedCount (st w) + Z.of_nat (count_returned evs))%Z /\
    failedCount (st w')
      = (failedCount (st w) + match o with Some _ => 0 | None => 1 end)%Z /\
    (is_Some o -> 1 <= count_returned evs) /\
    (forall k, is_Some (jobs (st w) !! k) -> is_Some (jobs (st w') !! k)).
Proof.
  intros Hmax [job Hjob] H.
  pose proof (runWithRetry_emits env html maxRetries config _ _ _ H)
    as (_ & _ & _ & Hkept & _).
  destruct (runWithRetry_attempts _ _ _ _ _ _ _ _ Hjob H) as [Ha Hjob1].
  eapply (attempts_books env html maxRetries config) in Ha
    as (evs & Hlog & (_ & _ & Hc & Hf & _) & _ & Hout); [|lia|exact Hjob1].
  exists evs. split; [done|]. split; [done|]. split.
  { rewrite Hf. simpl. destruct o; [done|].
    by destruct (Z.to_nat (maxRetries + 1)) eqn:E; [lia|]. }
  split; [|done]. intros [md ->]. apply Hout.
Qed.

(** ** Defaults *)

Lemma assoc_app k l1 l2 : assoc k (l1 ++ l2) = or_else (assoc k l1) (assoc k l2).
Proof.
  induction l1 as [|[k' v] l1 IH]; simpl; [done|].
  by destruct (decide (k = k')).
Qed.

Lemma assoc_filter_absent d c k :
  assoc k d = None ->
  assoc k (filter (fun kv => assoc (fst kv) d = None) c) = assoc k c.
Proof.
  intros Hkd. induction c as [|[k' v] c IH]; simpl; [done|].
  destruct (decide (k = k')) as [<-|Hne].
  - rewrite filter_cons_True by done. simpl. by rewrite decide_True.
  - destruct (decide (assoc k' d = None)).
    + rewrite filter_cons_True by done. simpl. by rewrite decide_False.
    + by rewrite filter_cons_False.
Qed.

Lemma assoc_spread d c k : assoc k (spread d c) = or_else (assoc k c) (assoc k d).
Proof.
  unfold spread. rewrite assoc_app.
  assert (Hd : assoc k (map (fun kv => (fst kv, default (snd kv) (assoc (fst kv) c))) d)
               = match assoc k d with
                 | Some v => Some (default v (assoc k c))
                 | None => None
                 end).
  { induction d as [|[k' v] d IH]; simpl; [done|].
    destruct (decide (k = k')) as [->|Hne]; [done|exact IH]. }
  rewrite Hd. destruct (assoc k d) as [v|] eqn:Hkd; simpl.
  - by destruct (assoc k c).
  - rewrite assoc_filter_absent by done. by destruct (assoc k c).
Qed.

(** X15.  Merging a job with the defaults of the batch, key by key: the
    merged options give a key the value the job's own options give it, and
    where the job's options lack the key, the value of the defaults'
    options; a key neither has is absent.  Without defaults the job is
    taken as it is.  This holds whichever optional keys the job carries
    with the value [undefined]. *)
Theorem mergeWithDefaults_option_lookup job d k :
  mergeWithDefaults job None = spec_config job /\
  assoc k (default [] (options (mergeWithDefaults job (Some d))))
    = or_else (assoc k (default [] (options (spec_config job))))
              (assoc k (default [] (pc_options d))).
Proof. split; [done|]. simpl. apply assoc_spread. Qed.


(** ** What a run leaves on disk *)

Lemma file_writes_app l1 l2 : file_writes (l1 ++ l2) = file_writes l1 ++ file_writes l2.
Proof. apply omap_app. Qed.

Lemma file_writes_interventions objs page f evs :
  Forall (intervention_event objs page f) evs -> file_writes evs = [].
Proof.
  induction 1 as [|e evs (ref & sc & _ & Hc & _) _ IH]; [done|].
  unfold file_writes in *. simpl. by rewrite Hc.
Qed.

Lemma capture_frames_writes env page config sorted k :
  forall f pending annots w r w',
  capture_frames env page config (frames_dir config) sorted k f pending annots w = (r, w') ->
  exists evs m tail,
    log w' = log w ++ evs /\ m <= k /\
    file_writes evs
      = map (fun g => (frame_path config g, AOk)) (seqZ f (Z.of_nat m)) ++ tail /\
    (forall a, r = Done a -> m = k /\ tail = []) /\
    (forall msg, r = Throw msg ->
       tail = [] \/
       (m < k /\ rejected_write (frame_path config (f + Z.of_nat m)%Z) msg evs tail)).
Proof.
  induction k as [|k IH]; intros f pending annots w r w' H.
  - injection H as <- <-. exists [], 0, []. rewrite app_nil_r.
    split; [done|]. split; [done|]. split; [done|]. split; [done|]. by intros ? [=].
  - simpl in H.
    apply bind_inv in H as [(pending' & w1 & Ha & H)|(e & Ha & ->)];
      apply apply_due_safe in Ha as (evs1 & Hlog1 & Hall1 & _);
      apply file_writes_interventions in Hall1;
      [|exists evs1, 0, []; split; [done|]; split; [lia|]; split; [done|];
        split; [by intros ? [=]|by left]].
    unfold saveFrame, perform_unit, perform_str, perform_num in H.
    apply bind_inv in H as [(a1 & w2 & Hp & H)|(e & Hp & ->)];
      apply perform_inv in Hp as (ans1 & -> & _);
      [|exists (evs1 ++ [mkEvent (InFrame f)
                          (Evaluate page [StepN (timestepsPerFrame config); Render]) ans1]),
               0, [];
        simpl; rewrite Hlog1, <- app_assoc, file_writes_app, Hall1;
        split; [done|]; split; [lia|]; split; [done|]; split; [by intros ? [=]|by left]].
    apply bind_inv in H as [(a2 & w3 & Hp & H)|(e & Hp & ->)];
      apply perform_inv in Hp as (ans2 & -> & _);
      [|eexists (evs1 ++ [_; _]), 0, [];
        simpl; rewrite Hlog1, <- !app_assoc, file_writes_app, Hall1;
        split; [done|]; split; [lia|]; split; [done|]; split; [by intros ? [=]|by left]].
    apply bind_inv in H as [(a3 & w4 & Hp & H)|(e & Hp & ->)];
      apply perform_inv in Hp as (ans3 & -> & [(_ & Hr & ->)|(m & _ & Hr & ->)]);
      try discriminate Hr.
    2:{ injection Hr as <-.
        eexists (evs1 ++ [_; _; _]), 0, [_].
        simpl; rewrite Hlog1, <- !app_assoc, file_writes_app, Hall1.
        split; [done|]. split; [lia|]. split; [done|]. split; [by intros ? [=]|].
        intros msg [= <-]. right. split; [lia|]. split.
        - unfold frame_path. by rewrite Z.add_0_r.
        - eexists _, _. rewrite last_app. simpl. unfold frame_path.
          by rewrite Z.add_0_r. }
    clear Hr.
    apply bind_inv in H as [(a4 & w5 & Hp & H)|(e & Hp & ->)];
      apply perform_inv in Hp as (ans4 & -> & _);
      [|eexists (evs1 ++ [_; _; _; _]), 1, [];
        simpl; rewrite Hlog1, <- !app_assoc, file_writes_app, Hall1;
        split; [done|]; split; [lia|]; split; [done|]; split; [by intros ? [=]|by left]].
    unfold bind at 1, get in H. simpl in H.
    apply IH in H as (evs2 & m & tail & Hlog2 & Hm & Hwr & Hdone & Hthrow). simpl in Hlog2.
    eexists (evs1 ++ [_; _; _; _] ++ evs2), (S m), tail. split.
    { rewrite Hlog2, Hlog1, <- !app_assoc. simpl. reflexivity. }
    split; [lia|]. split.
    { rewrite !file_writes_app, Hall1, Hwr. simpl.
      rewrite Nat2Z.inj_succ, (seqZ_cons f) by lia.
      rewrite Z.pred_succ. by replace (Z.succ f) with (f + 1)%Z by lia. }
    split.
    { intros a ->. destruct (Hdone a eq_refl) as [-> ->]. done. }
    intros msg ->. destruct (Hthrow msg eq_refl) as [->|(Hlt & -> & site & d & Hlast)];
      [by left|right].
    split; [lia|]. split.
    { by replace (f + Z.of_nat (S m))%Z with (f + 1 + Z.of_nat m)%Z by lia. }
    exists site, d. rewrite !last_app, Hlast.
    by replace (f + Z.of_nat (S m))%Z with (f + 1 + Z.of_nat m)%Z by lia.
Qed.

(** The calls before the frame loop write no file; then comes the loop, and
    after it the collection and the writing of the metadata. *)
Lemma run_split env page html config w r w' :
  run env page html config w = (r, w') ->
  exists pre w0,
    log w0 = log w ++ pre /\ st w0 = st w /\ file_writes pre = [] /\
    ((w' = w0 /\ exists msg, r = Throw msg) \/
     exists r1 w1,
       capture_frames env page config (frames_dir config) (sorted_refs (st w))
         (Z.to_nat (totalFrames config)) 0%Z (sorted_refs (st w)) [] w0 = (r1, w1) /\
       match r1 with
       | Throw msg => r = Throw msg /\ w' = w1
       | Done annots =>
           (metadata <- collectMetadata env page config annots ;;
            perform_unit env InMetadata
              (WriteFile (outputDir config ++ ["metadata.json"]) (MetadataDoc metadata)) ;;;
            ret metadata) w1 = (r, w')
       end).
Proof.
  intros H. unfold run, perform_unit in H.
  assert (Hstep : forall (c : Call) (k : unit -> M (list Intervention) SimulationMetadata)
                         (w1 : World (list Intervention)) pre,
            log w1 = log w ++ pre -> st w1 = st w -> file_writes pre = [] ->
            (forall p d, c <> WriteFile p d) ->
            bind (perform env InSetup c (fun _ => tt) (fun _ => AOk)) k w1 = (r, w') ->
            (exists pre', log w' = log w ++ pre' /\ st w' = st w /\ file_writes pre' = [] /\
                          exists msg, r = Throw msg) \/
            (exists w2 pre', log w2 = log w ++ pre' /\ st w2 = st w /\ file_writes pre' = [] /\
                             k tt w2 = (r, w'))).
  { intros c k w1 pre Hl Hs Hp Hc Hb.
    assert (Hw : forall a, file_writes (pre ++ [mkEvent InSetup c a]) = []).
    { intros a. rewrite file_writes_app, Hp. unfold file_writes. simpl.
      destruct c; try done. by destruct (Hc file d). }
    apply bind_inv in Hb as [([] & w2 & Hpf & Hb)|(e & Hpf & ->)];
      apply perform_inv in Hpf as (a & -> & _).
    - right. exists (mkWorld (st w1) (log w1 ++ [mkEvent InSetup c a])),
                    (pre ++ [mkEvent InSetup c a]).
      split; [simpl; by rewrite Hl, <- app_assoc|].
      split; [done|]. split; [apply Hw|exact Hb].
    - left. exists (pre ++ [mkEvent InSetup c a]). simpl. rewrite Hl, <- app_assoc.
      split; [done|]. split; [done|]. split; [apply Hw|eauto]. }
  assert (Hl0 : log w = log w ++ []) by (by rewrite app_nil_r).
  eapply Hstep in H; [|exact Hl0|done|done|done].
  destruct H as [(pre & Hl & Hs & Hp & Hr)|(w1 & pre1 & Hl1 & Hs1 & Hp1 & H)];
    [by exists pre, w'; repeat (split; [done|]); left|].
  eapply Hstep in H; [|exact Hl1|done|done|done].
  destruct H as [(pre & Hl & Hs & Hp & Hr)|(w2 & pre2 & Hl2 & Hs2 & Hp2 & H)];
    [by exists pre, w'; repeat (split; [done|]); left|].
  eapply Hstep in H; [|exact Hl2|done|done|done].
  destruct H as [(pre & Hl & Hs & Hp & Hr)|(w3 & pre3 & Hl3 & Hs3 & Hp3 & H)];
    [by exists pre, w'; repeat (split; [done|]); left|].
  assert (Hseed : exists w4 pre4, log w4 = log w ++ pre4 /\ st w4 = st w /\
            file_writes pre4 = [] /\
            ((w' = w4 /\ exists msg, r = Throw msg) \/
             (match options config with
              | None | Some [] => ret tt
              | Some opts =>
                  perform env InSetup
                    (Evaluate page
                       (map (fun kv => SetOption (fst kv) (snd kv)) opts ++ [UpdateProblem]))
                    (fun _ => tt) (fun _ => AOk)
              end ;;;
              perform env InSetup (Evaluate page [Reset]) (fun _ => tt) (fun _ => AOk) ;;;
              objs <- get ;;
              frameAnnotations <-
                capture_frames env page config (frames_dir config) (sorted_refs objs)
                  (Z.to_nat (totalFrames config)) 0%Z (sorted_refs objs) [] ;;
              metadata <- collectMetadata env page config frameAnnotations ;;
              perform env InMetadata
                (WriteFile (outputDir config ++ ["metadata.json"]) (MetadataDoc metadata))
                (fun _ => tt) (fun _ => AOk) ;;;
              ret metadata) w4 = (r, w'))).
  { destruct (randomSeed config) as [seed|].
    - eapply Hstep in H; [|exact Hl3|done|done|done].
      destruct H as [(pre & Hl & Hs & Hp & Hr)|(w4 & pre4 & Hl4 & Hs4 & Hp4 & H)].
      + exists w', pre. repeat (split; [done|]). by left.
      + exists w4, pre4. repeat (split; [done|]). by right.
    - exists w3, pre3. repeat (split; [done|]). by right. }
  clear H. destruct Hseed as (w4 & pre4 & Hl4 & Hs4 & Hp4 & [[-> Hr]|H]);
    [by exists pre4, w4; repeat (split; [done|]); left|].
  assert (Hopt : exists w5 pre5, log w5 = log w ++ pre5 /\ st w5 = st w /\
            file_writes pre5 = [] /\
            ((w' = w5 /\ exists msg, r = Throw msg) \/
             (perform env InSetup (Evaluate page [Reset]) (fun _ => tt) (fun _ => AOk) ;;;
              objs <- get ;;
              frameAnnotations <-
                capture_frames env page config (frames_dir config) (sorted_refs objs)
                  (Z.to_nat (totalFrames config)) 0%Z (sorted_refs objs) [] ;;
              metadata <- collectMetadata env page config frameAnnotations ;;
              perform env InMetadata
                (WriteFile (outputDir config ++ ["metadata.json"]) (MetadataDoc metadata))
                (fun _ => tt) (fun _ => AOk) ;;;
              ret metadata) w5 = (r, w'))).
  { destruct (options config) as [[|kv opts]|].
    - exists w4, pre4. repeat (split; [done|]). by right.
    - eapply Hstep in H; [|exact Hl4|done|done|done].
      destruct H as [(pre & Hl & Hs & Hp & Hr)|(w5 & pre5 & Hl5 & Hs5 & Hp5 & H)].
      + exists w', pre. repeat (split; [done|]). by left.
      + exists w5, pre5. repeat (split; [done|]). by right.
    - exists w4, pre4. repeat (split; [done|]). by right. }
  clear H. destruct Hopt as (w5 & pre5 & Hl5 & Hs5 & Hp5 & [[-> Hr]|H]);
    [by exists pre5, w5; repeat (split; [done|]); left|].
  eapply Hstep in H; [|exact Hl5|done|done|done].
  destruct H as [(pre & Hl & Hs & Hp & Hr)|(w6 & pre6 & Hl6 & Hs6 & Hp6 & H)];
    [by exists pre, w'; repeat (split; [done|]); left|].
  unfold bind at 1, get in H. simpl in H. rewrite Hs6 in H.
  exists pre6, w6. repeat (split; [done|]). right.
  apply bind_inv in H as [(annots & w7 & Hloop & H)|(e & Hloop & ->)].
  - by exists (Done annots), w7.
  - by exists (Throw e), w'.
Qed.

Lemma run_tail_writes env page config annots (w : World (list Intervention)) r w' :
  (metadata <- collectMetadata env page config annots ;;
   perform_unit env InMetadata
     (WriteFile (outputDir config ++ ["metadata.json"]) (MetadataDoc metadata)) ;;;
   ret metadata) w = (r, w') ->
  exists evs tail,
    log w' = log w ++ evs /\
    file_writes evs = tail /\
    (forall md, r = Done md ->
       tail = [(outputDir config ++ ["metadata.json"], AOk)] /\
       last evs = Some (metadata_written config md)) /\
    (forall msg, r = Throw msg ->
       tail = [] \/
       rejected_write (outputDir config ++ ["metadata.json"]) msg evs tail).
Proof.
  unfold collectMetadata, perform_unit, perform_options, perform_num.
  intros H.
  apply bind_inv in H as [(md & w1 & Hc & H)|(e & Hc & ->)].
  - inv_done Hc.
    apply perform_done in Hm as (_ & _ & ->).
    apply perform_done in Hm0 as (_ & _ & ->).
    inversion Hm1; subst; clear Hm1. inversion Hm2; subst; clear Hm2.
    inversion Hc; subst; clear Hc. simpl in *.
    apply bind_inv in H as [([] & w2 & Hp & H)|(e & Hp & ->)];
      apply perform_inv in Hp as (answ & -> & [(_ & Hr & ->)|(rej & _ & Hr & ->)]);
      try discriminate Hr.
    + injection H as <- <-. eexists [_; _; _], _. simpl. rewrite <- !app_assoc. simpl.
      split; [reflexivity|]. split; [reflexivity|]. split; [|by intros ? [=]].
      by intros md [= <-].
    + injection Hr as <-. eexists [_; _; _], _. simpl. rewrite <- !app_assoc. simpl.
      split; [reflexivity|]. split; [reflexivity|]. split; [by intros ? [=]|].
      intros msg [= <-]. right. split; [done|]. by eexists _, _.
  - apply bind_inv in Hc as [(o & w1 & Hp & Hc)|(e1 & Hp & [= <-])];
      apply perform_inv in Hp as (a1 & -> & _);
      [|eexists [_], []; split; [done|]; split; [done|];
        split; [by intros ? [=]|by left]].
    apply bind_inv in Hc as [(t & w2 & Hp & Hc)|(e2 & Hp & [= <-])];
      apply perform_inv in Hp as (a2 & -> & _);
      [|eexists [_; _], []; simpl; rewrite <- !app_assoc;
        split; [done|]; split; [done|]; split; [by intros ? [=]|by left]].
    unfold bind at 1, now in Hc. simpl in Hc.
    unfold bind at 1, get in Hc. simpl in Hc. discriminate Hc.
Qed.

(** X17.  The files a run passes to [writeFile], however it ends.  In the
    order of the calls they are the frame files of the frames 0 .. m-1 for
    some m <= totalFrames, each written normally, followed by at most one
    more call.  When the run returns, m = totalFrames and that call is the
    write of metadata.json, answered normally, the last call of the run.
    When the run throws, there is either no further write, or the one
    further write was rejected with the error the run throws and was its
    last call: the write of the file of frame m, or, after all frames, the
    write of metadata.json.  So a run that throws has made no write of
    metadata.json that went through, and no run writes any other file. *)
Theorem run_written_files env page html config history r w' :
  run_job env page html config history = (r, w') ->
  exists evs m tail,
    log w' = history ++ evs /\
    m <= Z.to_nat (totalFrames config) /\
    file_writes evs
      = map (fun g => (frame_path config g, AOk)) (seqZ 0 (Z.of_nat m)) ++ tail /\
    (forall md, r = Done md ->
       m = Z.to_nat (totalFrames config) /\
       tail = [(outputDir config ++ ["metadata.json"], AOk)] /\
       last evs = Some (metadata_written config md)) /\
    (forall msg, r = Throw msg ->
       tail = [] \/
       (m < Z.to_nat (totalFrames config) /\
        rejected_write (frame_path config (Z.of_nat m)) msg evs tail) \/
       (m = Z.to_nat (totalFrames config) /\
        rejected_write (outputDir config ++ ["metadata.json"]) msg evs tail)).
Proof.
  unfold run_job. intros H.
  apply run_split in H as (pre & w0 & Hpre & _ & Hwpre & Hcases). simpl in *.
  assert (Hlast : forall (l1 l2 : list Event) p msg tail,
            rejected_write p msg l2 tail -> rejected_write p msg (l1 ++ l2) tail).
  { intros l1 l2 p msg tail (-> & site & d & Hl). split; [done|].
    exists site, d. by rewrite last_app, Hl. }
  destruct Hcases as [(-> & msg & ->)|(r1 & w1 & Hloop & Hrest)].
  { exists pre, 0, []. split; [done|]. split; [lia|]. split; [by rewrite Hwpre|].
    split; [by intros md [=]|by left]. }
  apply capture_frames_writes in Hloop as (evs & m & tail & Hlog & Hm & Hw & Hdone & Hthrow).
  destruct r1 as [annots|msg].
  - destruct (Hdone annots eq_refl) as [-> ->]. rewrite app_nil_r in Hw.
    apply run_tail_writes in Hrest as (post & tail & Hpost & Hwpost & Hret & Hrej).
    exists (pre ++ evs ++ post), (Z.to_nat (totalFrames config)), tail.
    split; [by rewrite Hpost, Hlog, Hpre, <- !app_assoc|]. split; [done|]. split.
    { rewrite !file_writes_app, Hwpre, Hw, Hwpost. reflexivity. }
    split.
    + intros md ->. destruct (Hret md eq_refl) as [-> Hl]. split; [done|]. split; [done|].
      by rewrite !last_app, Hl.
    + intros msg ->. destruct (Hrej msg eq_refl) as [->|Hr]; [by left|].
      right. right. split; [done|]. rewrite app_assoc. by apply Hlast.
  - destruct Hrest as [-> ->]. exists (pre ++ evs), m, tail.
    split; [by rewrite Hlog, Hpre, <- !app_assoc|]. split; [done|]. split.
    { rewrite !file_writes_app, Hwpre, Hw. reflexivity. }
    split; [by intros md [=]|].
    intros ? [= <-]. destruct (Hthrow msg eq_refl) as [->|[Hlt Hr]]; [by left|].
    right. left. split; [done|]. apply Hlast. by rewrite Z.add_0_l in Hr.
Qed.

Lemma run_written_files_witness :
  exists r w',
    run_job full_disk_env demo_page "index.html" demo_config [] = (r, w') /\
    exists evs m tail,
      log w' = [] ++ evs /\
      m <= Z.to_nat (totalFrames demo_config) /\
      file_writes evs
        = map (fun g => (frame_path demo_config g, AOk)) (seqZ 0 (Z.of_nat m)) ++ tail /\
      (forall md, r = Done md ->
         m = Z.to_nat (totalFrames demo_config) /\
         tail = [(outputDir demo_config ++ ["metadata.json"], AOk)] /\
         last evs = Some (metadata_written demo_config md)) /\
      (forall msg, r = Throw msg ->
         tail = [] \/
         (m < Z.to_nat (totalFrames demo_config) /\
          rejected_write (frame_path demo_config (Z.of_nat m)) msg evs tail) \/
         (m = Z.to_nat (totalFrames demo_config) /\
          rejected_write (outputDir demo_config ++ ["metadata.json"]) msg evs tail)).
Proof.
  eexists _, _. split; [vm_compute; reflexivity|].
  eapply (run_written_files full_disk_env demo_page "index.html" demo_config []).
  vm_compute; reflexivity.
Defined.


(** ** Releases at the threshold, whatever their outcome *)

Lemma releasePage_outcome env config page w r w' c :
  simCountPerBrowser (st w) !! page_browser page = Some c ->
  page_browser page < next_browser (st w) ->
  releasePage env config page w = (r, w') ->
  if (maxSims config <=? c + 1)%Z
  then match r with
       | Done _ => recycled config page w w'
       | Throw msg => abandoned config page msg w w'
       end
  else stays page c w w' /\ (forall u, r = Done u -> kept page c w w').
Proof.
  intros Hc Hlt.
  unfold releasePage, restartBrowser, launchBrowser, createPage, bind, try_catch,
    perform_unit, perform, modify, get, ret. simpl.
  unfold number in *. rewrite Hc. simpl.
  destruct (maxSims config <=? c + 1)%Z; case_env; intros [= <- <-];
    unfold recycled, abandoned, stays, kept; simpl.
  all: try (split; [split; [done|]; split; [done|]; split; [done|];
                    rewrite <- ?app_assoc, drop_app_length; reflexivity|];
            first [ by intros ? [=]
                  | intros ? _; split; [done|]; split; [done|]; split; [done|]; split;
                    [eexists; split; [|reflexivity]; done|];
                    rewrite <- ?app_assoc, drop_app_length; reflexivity ]).
  all: try ((split; [rewrite lookup_insert_ne by (unfold Browser in *; lia);
                     apply lookup_delete_eq|]);
            (split; [apply lookup_insert_eq|]); (split; [done|]); (split; [done|]);
            eexists _, _; rewrite <- !app_assoc; reflexivity).
  all: try (split; [first [apply lookup_delete_eq
                          |rewrite lookup_insert_ne by (unfold Browser in *; lia);
                           apply lookup_delete_eq]|];
            split; [done|];
            eexists _, _, _; rewrite <- ?app_assoc; simpl;
            split; [reflexivity|]; first [left; done | right; split; [|done]; (by left) || (by right)]).
Qed.

Lemma reachable_rtc env config s s' :
  reachable env config s -> rtc (pool_step env config) s s' -> reachable env config s'.
Proof.
  intros Hr Hs. induction Hs as [|s1 s2 s3 Hstep _ IH]; [done|].
  apply IH. by eapply reach_step.
Qed.

Lemma lease_cycle_reachable env config w b w' :
  reachable env config (mkSys w [] []) ->
  lease_cycle env config w = Some (b, w') ->
  reachable env config (mkSys w' [] []).
Proof.
  intros Hr H. unfold lease_cycle in H.
  destruct (acquirePage_poll (st w)) as [| |page pool'] eqn:Hacq; try discriminate.
  destruct (releasePage env config page (mkWorld pool' (log w))) as [[[]|msg] w1] eqn:Hrel;
    [|discriminate].
  injection H as _ <-.
  assert (Hheld : reachable env config (mkSys (mkWorld pool' (log w)) [] [page])).
  { eapply reach_step; [exact Hr|].
    by apply (step_acquire env config (mkSys w [] [])). }
  eapply reachable_rtc; [exact Hheld|].
  assert (Hin : page ∈ sys_leased (mkSys (mkWorld pool' (log w)) [] [page])) by (simpl; by left).
  pose proof (releasePage_steps env config (mkSys (mkWorld pool' (log w)) [] [page])
                page _ _ eq_refl Hin Hrel) as Hsteps.
  simpl in Hsteps. unfold remove_page in Hsteps.
  rewrite filter_cons_False, filter_nil in Hsteps by (by intros []). exact Hsteps.
Qed.

Lemma after_leases_reachable env config n : forall w,
  reachable env config (mkSys w [] []) ->
  reachable env config (mkSys (after_leases env config n w) [] []).
Proof.
  induction n as [|n IH]; intros w Hr; simpl; [done|].
  destruct (lease_cycle env config w) as [[b w']|] eqn:E; [|done].
  apply IH. by eapply lease_cycle_reachable.
Qed.

Lemma holding_reachable env config w :
  reachable env config (mkSys w [] []) -> reachable env config (holding w).
Proof.
  intros Hr. unfold holding.
  destruct (acquirePage_poll (st w)) as [| |page pool'] eqn:E; try done.
  eapply reach_step; [exact Hr|].
  by apply (step_acquire env config (mkSys w [] [])).
Qed.

(** C4 (amended).  With a configured threshold [T >= 1], in every state the
    pool can reach, a release of a page that a caller holds finds the lease
    counter of the page's browser at some [c] with [0 <= c < T].  The
    release tears the browser down and attempts to launch a replacement
    exactly when it brings the counter to [T] ([c + 1 = T]): if the release
    returns, the browser has been replaced by a freshly launched one,
    counted from 0, whose first page is available; if it throws, the old
    browser is gone and no page has come back.  A release that leaves the
    counter below [T] keeps the browser and closes or launches nothing,
    whether it returns or throws.  No counter is ever stored at [T] or
    above, so no recycling comes late.  In Scenario C (threshold 2, pool
    size 1, five jobs one after the other) the releases that recycle are the
    2nd and the 4th. *)
Theorem releasePage_recycles_at_threshold env config T s page r w' :
  maxSimsPerBrowser config = Some T -> (1 <= T)%Z ->
  reachable env config s ->
  page ∈ sys_leased s ->
  releasePage env config page (sys_world s) = (r, w') ->
  (exists c,
     simCountPerBrowser (st (sys_world s)) !! page_browser page = Some c /\
     (0 <= c < T)%Z /\
     ((c + 1 = T)%Z ->
      (forall u, r = Done u -> recycled config page (sys_world s) w') /\
      (forall msg, r = Throw msg -> abandoned config page msg (sys_world s) w')) /\
     ((c + 1 < T)%Z ->
      stays page c (sys_world s) w' /\
      (forall u, r = Done u -> kept page c (sys_world s) w'))) /\
  (forall b c, simCountPerBrowser (st (sys_world s)) !! b = Some c -> (0 <= c < T)%Z) /\
  recycled_leases quiet_env (pool_config 1%Z (Some 2%Z)) 5 1
    (started_pool (pool_config 1%Z (Some 2%Z))) = [2; 4].
Proof.
  intros Hcfg HT Hreach Hin Hrel.
  assert (Hmax : maxSims config = T).
  { unfold maxSims. rewrite Hcfg. destruct (Z.eqb_spec T 0); [lia|done]. }
  assert (HT' : (1 <= maxSims config)%Z) by lia.
  destruct (reachable_counted _ _ _ HT' Hreach) as [Hc Hl _ Hf].
  assert (Hb : is_Some (simCountPerBrowser (st (sys_world s)) !! page_browser page)).
  { apply Hl. unfold live_browsers. apply elem_of_app. left.
    apply list_elem_of_fmap. by exists page. }
  pose proof (Hf _ Hb) as Hlt. destruct Hb as [c Hb]. pose proof (Hc _ _ Hb) as Hcb.
  pose proof (releasePage_outcome _ _ _ _ _ _ _ Hb Hlt Hrel) as Heff.
  split; [|split; [by rewrite <- Hmax|by vm_compute]].
  exists c. split; [done|]. split; [lia|]. split; intros Hcmp.
  - destruct (maxSims config <=? c + 1)%Z eqn:E; [|apply Z.leb_gt in E; lia].
    split; [by intros u ->|by intros msg ->].
  - destruct (maxSims config <=? c + 1)%Z eqn:E; [|done]. apply Z.leb_le in E. lia.
Qed.

Lemma releasePage_recycles_at_threshold_witness :
  exists r w',
    releasePage quiet_env (pool_config 1%Z (Some 2%Z)) (mkPage 0 0)
      (sys_world (holding (after_leases quiet_env (pool_config 1%Z (Some 2%Z)) 1
                             (started_pool (pool_config 1%Z (Some 2%Z)))))) = (r, w') /\
    (exists c,
       simCountPerBrowser
         (st (sys_world (holding (after_leases quiet_env (pool_config 1%Z (Some 2%Z)) 1
                                    (started_pool (pool_config 1%Z (Some 2%Z)))))))
         !! page_browser (mkPage 0 0) = Some c /\
       (0 <= c < 2)%Z /\
       ((c + 1 = 2)%Z ->
        (forall u, r = Done u ->
           recycled (pool_config 1%Z (Some 2%Z)) (mkPage 0 0)
             (sys_world (holding (after_leases quiet_env (pool_config 1%Z (Some 2%Z)) 1
                                    (started_pool (pool_config 1%Z (Some 2%Z)))))) w') /\
        (forall msg, r = Throw msg ->
           abandoned (pool_config 1%Z (Some 2%Z)) (mkPage 0 0) msg
             (sys_world (holding (after_leases quiet_env (pool_config 1%Z (Some 2%Z)) 1
                                    (started_pool (pool_config 1%Z (Some 2%Z)))))) w')) /\
       ((c + 1 < 2)%Z ->
        stays (mkPage 0 0) c
          (sys_world (holding (after_leases quiet_env (pool_config 1%Z (Some 2%Z)) 1
                                 (started_pool (pool_config 1%Z (Some 2%Z)))))) w' /\
        (forall u, r = Done u ->
           kept (mkPage 0 0) c
             (sys_world (holding (after_leases quiet_env (pool_config 1%Z (Some 2%Z)) 1
                                    (started_pool (pool_config 1%Z (Some 2%Z)))))) w'))) /\
    simCountPerBrowser
      (st (sys_world (holding (after_leases quiet_env (pool_config 1%Z (Some 2%Z)) 1
                                 (started_pool (pool_config 1%Z (Some 2%Z)))))))
      !! page_browser (mkPage 0 0) = Some 1%Z /\
    r = Done tt.
Proof.
  eexists _, _. split; [vm_compute; reflexivity|].
  refine (conj _ (conj _ _)); [|vm_compute; reflexivity|reflexivity].
  eapply proj1.
  eapply (releasePage_recycles_at_threshold quiet_env (pool_config 1%Z (Some 2%Z)) 2%Z
            (holding (after_leases quiet_env (pool_config 1%Z (Some 2%Z)) 1
                        (started_pool (pool_config 1%Z (Some 2%Z))))) (mkPage 0 0)).
  - reflexivity.
  - lia.
  - apply holding_reachable, after_leases_reachable, started_pool_reachable.
  - vm_compute. constructor.
  - vm_compute. reflexivity.
Defined.

(** C4 as the specification states it fails: on a pool of one browser with threshold
    1, in an environment where no browser can be launched once the pool is
    set up, the first release brings the counter to the threshold and tears
    the browser down, but the launch of the replacement is rejected: the
    release throws and the pool is left with no browser and no page. *)
Lemma releasePage_recycle_not_replaced :
  exists w',
    reachable no_relaunch (pool_config 1%Z (Some 1%Z)) (leased_out (pool_config 1%Z (Some 1%Z))) /\
    mkPage 0 0 ∈ sys_leased (leased_out (pool_config 1%Z (Some 1%Z))) /\
    simCountPerBrowser (st (sys_world (leased_out (pool_config 1%Z (Some 1%Z)))))
      !! page_browser (mkPage 0 0) = Some 0%Z /\
    releasePage no_relaunch (pool_config 1%Z (Some 1%Z)) (mkPage 0 0)
      (sys_world (leased_out (pool_config 1%Z (Some 1%Z)))) = (Throw "launch failed", w') /\
    browsers (st w') = [] /\ availablePages (st w') = [] /\
    ~ recycled (pool_config 1%Z (Some 1%Z)) (mkPage 0 0)
        (sys_world (leased_out (pool_config 1%Z (Some 1%Z)))) w'.
Proof.
  eexists. split.
  { change (leased_out (pool_config 1%Z (Some 1%Z)))
      with (holding (started_pool (pool_config 1%Z (Some 1%Z)))).
    apply holding_reachable.
    apply (reach_init no_relaunch (pool_config 1%Z (Some 1%Z)) []).
    vm_compute. reflexivity. }
  split; [vm_compute; constructor|]. split; [vm_compute; reflexivity|].
  split; [vm_compute; reflexivity|]. split; [vm_compute; reflexivity|].
  split; [vm_compute; reflexivity|].
  intros (_ & H & _). vm_compute in H. discriminate.
Qed.

(** C9 (amended).  When the configuration leaves [maxSimsPerBrowser] unset,
    or sets it to 0, the threshold every release compares against is 50: in
    every reachable state the counter of a held page's browser is below 50,
    a release that leaves it below 50 keeps the browser, closing and
    launching nothing whether it returns or throws, and the release that
    brings it to 50 tears the browser down and attempts to launch a
    replacement.  If that release returns, the browser has been restarted: a
    new one, counted from 0, has taken its place with its first page
    available.  If it throws, the old browser is gone and no page has come
    back.  Of 120 leases on a pool of one browser, the 50th and the 100th
    restart it. *)
Theorem releasePage_default_threshold env config s page r w' :
  maxSimsPerBrowser config = None \/ maxSimsPerBrowser config = Some 0%Z ->
  reachable env config s ->
  page ∈ sys_leased s ->
  releasePage env config page (sys_world s) = (r, w') ->
  maxSims config = 50%Z /\
  (exists c,
     simCountPerBrowser (st (sys_world s)) !! page_browser page = Some c /\
     (0 <= c < 50)%Z /\
     ((c + 1 = 50)%Z ->
      (forall u, r = Done u -> recycled config page (sys_world s) w') /\
      (forall msg, r = Throw msg -> abandoned config page msg (sys_world s) w')) /\
     ((c + 1 < 50)%Z ->
      stays page c (sys_world s) w' /\
      (forall u, r = Done u -> kept page c (sys_world s) w'))) /\
  recycled_leases quiet_env (pool_config 1%Z None) 120 1
    (started_pool (pool_config 1%Z None)) = [50; 100] /\
  recycled_leases quiet_env (pool_config 1%Z (Some 0%Z)) 120 1
    (started_pool (pool_config 1%Z (Some 0%Z))) = [50; 100].
Proof.
  intros Hcfg Hreach Hin Hrel.
  assert (Hmax : maxSims config = 50%Z).
  { unfold maxSims. by destruct Hcfg as [-> | ->]. }
  split; [done|]. split; [|apply default_threshold_scenario].
  assert (HT' : (1 <= maxSims config)%Z) by lia.
  destruct (reachable_counted _ _ _ HT' Hreach) as [Hc Hl _ Hf].
  assert (Hb : is_Some (simCountPerBrowser (st (sys_world s)) !! page_browser page)).
  { apply Hl. unfold live_browsers. apply elem_of_app. left.
    apply list_elem_of_fmap. by exists page. }
  pose proof (Hf _ Hb) as Hlt. destruct Hb as [c Hb]. pose proof (Hc _ _ Hb) as Hcb.
  pose proof (releasePage_outcome _ _ _ _ _ _ _ Hb Hlt Hrel) as Heff.
  exists c. split; [done|]. split; [lia|]. split; intros Hcmp.
  - destruct (maxSims config <=? c + 1)%Z eqn:E; [|apply Z.leb_gt in E; lia].
    split; [by intros u ->|by intros msg ->].
  - destruct (maxSims config <=? c + 1)%Z eqn:E; [|done]. apply Z.leb_le in E. lia.
Qed.

Lemma releasePage_default_threshold_witness :
  exists r w',
    releasePage quiet_env (pool_config 1%Z None) (mkPage 0 0)
      (sys_world (fiftieth_lease quiet_env)) = (r, w') /\
    r = Done tt /\
    simCountPerBrowser (st (sys_world (fiftieth_lease quiet_env)))
      !! page_browser (mkPage 0 0) = Some 49%Z /\
    maxSims (pool_config 1%Z None) = 50%Z /\
    (exists c,
       simCountPerBrowser (st (sys_world (fiftieth_lease quiet_env)))
         !! page_browser (mkPage 0 0) = Some c /\
       (0 <= c < 50)%Z /\
       ((c + 1 = 50)%Z ->
        (forall u, r = Done u ->
           recycled (pool_config 1%Z None) (mkPage 0 0)
             (sys_world (fiftieth_lease quiet_env)) w') /\
        (forall msg, r = Throw msg ->
           abandoned (pool_config 1%Z None) (mkPage 0 0) msg
             (sys_world (fiftieth_lease quiet_env)) w')) /\
       ((c + 1 < 50)%Z ->
        stays (mkPage 0 0) c (sys_world (fiftieth_lease quiet_env)) w' /\
        (forall u, r = Done u ->
           kept (mkPage 0 0) c (sys_world (fiftieth_lease quiet_env)) w'))) /\
    recycled_leases quiet_env (pool_config 1%Z None) 120 1
      (started_pool (pool_config 1%Z None)) = [50; 100] /\
    recycled_leases quiet_env (pool_config 1%Z (Some 0%Z)) 120 1
      (started_pool (pool_config 1%Z (Some 0%Z))) = [50; 100].
Proof.
  eexists _, _. split; [vm_compute; reflexivity|].
  refine (conj _ (conj _ _)); [reflexivity|vm_compute; reflexivity|].
  eapply (releasePage_default_threshold quiet_env (pool_config 1%Z None)
            (fiftieth_lease quiet_env) (mkPage 0 0)).
  - left. reflexivity.
  - apply holding_reachable, after_leases_reachable, started_pool_reachable.
  - vm_compute. constructor.
  - vm_compute. reflexivity.
Defined.

(** C9 as the specification states it fails: with the threshold left out, in an
    environment where no browser can be launched once the pool is set up,
    the 50th release of the page of a pool of one browser brings the counter
    from 49 to 50 and tears the browser down, but the launch of the
    replacement is rejected: the browser is not restarted, the release
    throws and the pool is left with no browser and no page. *)
Lemma releasePage_default_restart_fails :
  exists w',
    reachable no_relaunch (pool_config 1%Z None) (fiftieth_lease no_relaunch) /\
    mkPage 0 0 ∈ sys_leased (fiftieth_lease no_relaunch) /\
    simCountPerBrowser (st (sys_world (fiftieth_lease no_relaunch)))
      !! page_browser (mkPage 0 0) = Some 49%Z /\
    releasePage no_relaunch (pool_config 1%Z None) (mkPage 0 0)
      (sys_world (fiftieth_lease no_relaunch)) = (Throw "launch failed", w') /\
    browsers (st w') = [] /\ availablePages (st w') = [] /\
    ~ recycled (pool_config 1%Z None) (mkPage 0 0)
        (sys_world (fiftieth_lease no_relaunch)) w'.
Proof.
  eexists. split.
  { apply holding_reachable, after_leases_reachable.
    apply (reach_init no_relaunch (pool_config 1%Z None) []).
    vm_compute. reflexivity. }
  split; [vm_compute; constructor|]. split; [vm_compute; reflexivity|].
  split; [vm_compute; reflexivity|]. split; [vm_compute; reflexivity|].
  split; [vm_compute; reflexivity|].
  intros (_ & H & _). vm_compute in H. discriminate.
Qed.

(** ** The queue of a batch *)

Lemma retry_resume_emits env html maxRetries c K :
  emits only_error_writes jobs_kept (retry_resume env html maxRetries c K).
Proof.
  destruct K; simpl; unfold retry_catch, perform_page, perform_metadata, perform_unit;
    orc_emits.
Qed.

Lemma retry_begin_emits env maxRetries c :
  emits only_error_writes jobs_kept (retry_begin env maxRetries c).
Proof. unfold retry_begin. orc_emits. Qed.

Lemma task_ok_later html maxRetries c K evs new :
  task_ok html maxRetries c K evs -> task_ok html maxRetries c K (evs ++ new).
Proof.
  destruct K as [| | | | | |[md|]]; simpl; try done.
  - intros [? ?]. split; [done|]. by apply sublist_inserts_r.
  - intros [? H]. split; [done|]. intros md Hp. by apply sublist_inserts_r, H.
  - intros H Hm. destruct (H Hm) as (? & ? & a & Ha). repeat split; try done.
    exists a. apply elem_of_app. by left.
  - intros (a & p & H). exists a, p. by apply sublist_inserts_r.
  - intros H Hm. destruct (H Hm) as (a & Ha). exists a. apply elem_of_app. by left.
Qed.

Ltac conjs := repeat match goal with |- _ /\ _ => split end.

Lemma retry_catch_step env html maxRetries c k a msg w r w' evs :
  retry_catch env maxRetries c k a msg w = (r, w') ->
  in_loop maxRetries k a ->
  exists K',
    r = Done K' /\ log w' = log w /\
    task_ok html maxRetries c K' evs /\
    completedCount (st w') = completedCount (st w) /\
    holding_metadata K' = 0 /\
    ((0 <= maxRetries)%Z ->
     (failedCount (st w') = failedCount (st w) + Z.of_nat (failing K'))%Z).
Proof.
  unfold retry_catch, bind, modify, now, ret, in_loop. simpl. intros H Hloop.
  destruct (a <? maxRetries)%Z eqn:Hlt; simpl in H; injection H as <- <-; eexists;
    (split; [reflexivity|]); simpl; unfold in_loop.
  - apply Z.ltb_lt in Hlt. conjs; try lia; try reflexivity;
      intros Hm; destruct (Hloop Hm); lia.
  - apply Z.ltb_ge in Hlt. conjs; try lia; try reflexivity;
      intros Hm; destruct (Hloop Hm); simpl; lia.
Qed.

Lemma retry_resume_step env html maxRetries c K w r w' evs :
  retry_resume env html maxRetries c K w = (r, w') ->
  is_Some (jobs (st w) !! id c) ->
  (forall o, K <> Returned o) ->
  task_ok html maxRetries c K evs ->
  exists K' e,
    r = Done K' /\ log w' = log w ++ [e] /\
    task_ok html maxRetries c K' (evs ++ [e]) /\
    completedCount (st w') = (completedCount (st w) + Z.of_nat (count_returned [e]))%Z /\
    holding_metadata K' <= holding_metadata K + count_returned [e] /\
    ((0 <= maxRetries)%Z ->
     (failedCount (st w') + Z.of_nat (failing K)
      = failedCount (st w) + Z.of_nat (failing K'))%Z).
Proof.
  intros H [job Hjob] Hnot Hok.
  assert (Hcount : forall site call answer,
            count_returned [mkEvent site call answer]
            = match call, answer with RunSimulation _ _ _, AMetadata _ => 1 | _, _ => 0 end).
  { intros site call answer. unfold count_returned, is_returned. simpl.
    by destruct call, answer. }
  assert (Hnext : forall k a e,
            ((0 <= maxRetries)%Z -> k = 0 /\ a = maxRetries /\
               exists x, mkEvent (InAttempt maxRetries) (Mkdir (outputDir c)) x ∈ evs ++ [e]) ->
            task_ok html maxRetries c (next_attempt k (a + 1)%Z) (evs ++ [e]) /\
            ((0 <= maxRetries)%Z -> failing (next_attempt k (a + 1)%Z) = 1) /\
            holding_metadata (next_attempt k (a + 1)%Z) = 0).
  { intros k a e He. destruct k as [|k]; simpl.
    - split; [|done]. intros Hm. by destruct (He Hm) as (_ & _ & ?).
    - split; [|split; [|done]]; intros Hm; destruct (He Hm) as (? & _); lia. }
  destruct K as [k a|k a page|k a page pending|k a|k a|k a rec|o]; simpl in H, Hok.
  - unfold try_catch, bind, perform_page, perform, ret in H.
    simpl in H. destruct (env_fails env (log w) AcquirePage) eqn:E; simpl in H.
    + eapply (retry_catch_step _ html) in H as (K' & -> & Hl & Hk & Hc & Hh & Hf);
        [|exact Hok].
      simpl in Hl, Hc, Hf.
      eexists _, _. split; [reflexivity|]. split; [exact Hl|]. rewrite Hcount.
      conjs; try done; try lia. intros Hm. specialize (Hf Hm). simpl in *. lia.
    + injection H as <- <-. eexists _, _. split; [reflexivity|]. split; [reflexivity|].
      simpl. rewrite Hcount. conjs; try lia; try done.
      apply sublist_inserts_l. reflexivity.
  - unfold try_catch, bind, perform_metadata, perform, modify, now, ret in H.
    simpl in H. destruct Hok as [Hloop Hacq].
    destruct (env_fails env (log w) (RunSimulation page html c)) eqn:E; simpl in H;
      injection H as <- <-; eexists _, _; (split; [reflexivity|]);
      (split; [reflexivity|]); simpl; rewrite Hcount; conjs; try lia; try done.
    intros md [= <-].
    apply (sublist_app [mkEvent (InAttempt a) AcquirePage (APage page)] evs [_] [_]);
      [done|reflexivity].
  - unfold try_catch, bind, perform_unit, perform, ret, throw in H.
    simpl in H. destruct Hok as [Hloop Hrun].
    destruct (env_fails env (log w) (ReleasePage page)) eqn:E; simpl in H.
    + eapply (retry_catch_step _ html) in H as (K' & -> & Hl & Hk & Hc & Hh & Hf);
        [|exact Hloop].
      simpl in Hl, Hc, Hf.
      eexists _, _. split; [reflexivity|]. split; [exact Hl|]. rewrite Hcount.
      conjs; try done; try lia. intros Hm. specialize (Hf Hm).
      destruct pending; simpl in *; lia.
    + destruct pending as [md|msg]; simpl in H.
      * injection H as <- <-. eexists _, _. split; [reflexivity|]. split; [reflexivity|].
        simpl. rewrite Hcount. conjs; try lia; try done.
        exists a, page.
        apply (sublist_app [_; _] evs [_] [_]); [by apply Hrun|reflexivity].
      * eapply (retry_catch_step _ html) in H as (K' & -> & Hl & Hk & Hc & Hh & Hf);
          [|exact Hloop].
        simpl in Hl, Hc, Hf.
      eexists _, _. split; [reflexivity|]. split; [exact Hl|]. rewrite Hcount.
        conjs; try done; try lia. intros Hm. specialize (Hf Hm). simpl in *. lia.
  - unfold bind, sleep, ret in H. simpl in H. injection H as <- <-.
    destruct Hok as [Hloop Hlt].
    eexists _, _. split; [reflexivity|]. split; [reflexivity|]. simpl. rewrite Hcount.
    unfold in_loop in *. destruct k as [|k]; simpl.
    + conjs; try lia; intros Hm; destruct (Hloop Hm); specialize (Hlt Hm); lia.
    + conjs; try lia; intros Hm; destruct (Hloop Hm); lia.
  - unfold try_catch, bind, perform_unit, perform, get, now, ret, throw in H.
    simpl in H.
    destruct (env_fails env (log w) (Mkdir (outputDir c))) eqn:E; simpl in H.
    + injection H as <- <-.
      destruct (Hnext k a (mkEvent (InAttempt a) (Mkdir (outputDir c)) (ARejected s)))
        as (Hk & Hf & Hh).
      { intros Hm. destruct (Hok Hm) as [-> ->]. conjs; try done.
        eexists. apply elem_of_app. right. apply list_elem_of_singleton. reflexivity. }
      eexists _, _. split; [reflexivity|]. split; [reflexivity|]. simpl. rewrite Hcount.
      conjs; try done; try lia; intros Hm; rewrite (Hf Hm); lia.
    + rewrite Hjob in H. injection H as <- <-.
      eexists _, _. split; [reflexivity|]. split; [reflexivity|]. simpl. rewrite Hcount.
      conjs; try lia; try (intros Hm; destruct (Hok Hm); lia).
      intros Hm. destruct (Hok Hm) as [-> ->]. conjs; try done.
      eexists. apply elem_of_app. right. apply list_elem_of_singleton. reflexivity.
  - unfold try_catch, bind, perform_unit, perform, get, now, ret, throw in H.
    simpl in H.
    assert (Hfin : forall e,
              task_ok html maxRetries c (next_attempt k (a + 1)%Z) (evs ++ [e]) /\
              ((0 <= maxRetries)%Z -> failing (next_attempt k (a + 1)%Z) = 1) /\
              holding_metadata (next_attempt k (a + 1)%Z) = 0).
    { intros e. apply Hnext. intros Hm. destruct (Hok Hm) as (-> & -> & x & Hx).
      conjs; try done. exists x. apply elem_of_app. by left. }
    destruct (env_fails env (log w) (WriteFile _ _)) eqn:E; simpl in H;
      injection H as <- <-; eexists _, _; (split; [reflexivity|]);
      (split; [reflexivity|]); simpl; rewrite Hcount;
      match goal with |- task_ok _ _ _ _ (_ ++ [?e]) /\ _ =>
        destruct (Hfin e) as (Hk & Hf & Hh) end;
      conjs; try done; try lia; intros Hm; rewrite (Hf Hm); lia.
  - by destruct (Hnot o).
Qed.

Lemma retry_begin_step env html maxRetries c w r w' evs :
  retry_begin env maxRetries c w = (r, w') ->
  is_Some (jobs (st w) !! id c) ->
  exists K,
    r = Done K /\ log w' = log w /\
    task_ok html maxRetries c K evs /\
    completedCount (st w') = completedCount (st w) /\
    failedCount (st w') = failedCount (st w) /\
    holding_metadata K = 0 /\
    ((0 <= maxRetries)%Z -> failing K = 0).
Proof.
  intros H [job Hjob]. unfold retry_begin, bind, get, now, modify, ret in H. simpl in H.
  rewrite Hjob in H. injection H as <- <-. eexists. split; [reflexivity|].
  destruct (Z.to_nat (maxRetries + 1)) as [|k] eqn:Hk; simpl; conjs; try done; try lia.
  unfold in_loop. lia.
Qed.

Lemma sum_list_with_insert {A} (f : A -> nat) l i x y :
  l !! i = Some x ->
  sum_list_with f (<[i := y]> l) + f x = sum_list_with f l + f y.
Proof.
  revert i. induction l as [|z l IH]; intros [|i] H; simpl in *; try done.
  - injection H as ->. lia.
  - specialize (IH _ H). lia.
Qed.

Lemma sum_list_with_delete {A} (f : A -> nat) l i x :
  l !! i = Some x ->
  sum_list_with f (delete i l) + f x = sum_list_with f l.
Proof.
  revert i. induction l as [|z l IH]; intros [|i] H; simpl in *; try done.
  - injection H as ->. lia.
  - specialize (IH _ H). lia.
Qed.

Lemma queue_jobs_lookup config i j c :
  queue_jobs config !! i = Some (j, c) ->
  j = i /\ exists job, simulations config !! i = Some job /\
                       c = mergeWithDefaults job (defaults config).
Proof.
  unfold queue_jobs. rewrite list_lookup_imap.
  destruct (simulations config !! i) as [job|]; simpl; [|done].
  intros [= <- <-]. eauto.
Qed.

Lemma queue_init_inv html maxRetries concurrency config w1 :
  queue_inv html maxRetries concurrency config w1 (queue_init config w1) [] 0.
Proof.
  split; simpl; try done; try lia.
  - by rewrite app_nil_r.
  - unfold count_returned. simpl. lia.
Qed.

Lemma job_outcome_later html maxRetries evs new c o :
  job_outcome html maxRetries evs c o -> job_outcome html maxRetries (evs ++ new) c o.
Proof. apply (task_ok_later html maxRetries c (Returned o)). Qed.

Lemma queue_move_inv env html maxRetries concurrency config w1 mv s s' evs m :
  (forall i c, queue_jobs config !! i = Some (i, c) -> is_Some (jobs (st w1) !! id c)) ->
  queue_inv html maxRetries concurrency config w1 s evs m ->
  queue_move env html maxRetries concurrency mv s = Some s' ->
  exists evs' m', queue_inv html maxRetries concurrency config w1 s' evs' m'.
Proof.
  intros Hreg [Hlog Hwr Hkept Hrej Hwait Hst Hind Hbound Hres Hrun Hset Hcomp Hmeta Hfail]
    Hmove.
  pose proof Hkept as [Hkj _].
  destruct mv as [|i]; unfold queue_move in Hmove.
  - destruct (q_waiting s) as [|[j c] rest] eqn:Hw; [done|].
    destruct (decide (length (q_running s) < concurrency)) as [Hlt|]; [|done].
    assert (Hj : queue_jobs config !! m = Some (j, c)).
    { pose proof (lookup_drop (queue_jobs config) m 0) as Hd.
      rewrite <- Hwait, Nat.add_0_r in Hd. by rewrite <- Hd. }
    destruct (queue_jobs_lookup _ _ _ _ Hj) as [-> _].
    assert (Hlen : m < length (simulations config)).
    { apply lookup_lt_Some in Hj. unfold queue_jobs in Hj. by rewrite length_imap in Hj. }
    assert (Hrest : rest = drop (S m) (queue_jobs config)).
    { rewrite (drop_S _ _ _ Hj) in Hwait. by injection Hwait. }
    destruct (retry_begin env maxRetries c (q_world s)) as [r w'] eqn:Hb.
    destruct (retry_begin_emits env maxRetries c _ _ _ Hb) as (new & _ & _ & Hk).
    eapply (retry_begin_step _ html _ _ _ _ _ evs) in Hb
      as (K & -> & Hl & Hok & Hc1 & Hf1 & Hh & Hfl); [|by eapply Hkj, Hreg].
    injection Hmove as <-. exists evs, (S m). split; simpl.
    + by rewrite Hl.
    + done.
    + by apply (stable_trans (P := only_error_writes) _ _ _ Hkept).
    + done.
    + done.
    + lia.
    + change (0 :: seq 1 m) with (seq 0 (S m)). rewrite fmap_app, seq_S. simpl.
      rewrite <- Hind. rewrite <- !app_assoc. apply Permutation_app_head.
      apply Permutation_app_comm.
    + rewrite length_app. simpl. lia.
    + done.
    + apply Forall_app. split; [done|]. by constructor.
    + done.
    + by rewrite Hc1.
    + unfold tasks_with_metadata in *. rewrite sum_list_with_app. simpl. lia.
    + intros Hm. unfold failing_tasks in *. rewrite sum_list_with_app. simpl.
      rewrite Hf1, (Hfail Hm), (Hfl Hm). lia.
  - destruct (q_running s !! i) as [[j c K]|] eqn:Hi; [|done].
    cbn [task_state task_index task_config] in Hmove.
    pose proof (Forall_lookup_1 _ _ _ _ Hrun Hi) as [Hjc Hok]. simpl in Hjc, Hok.
    assert (Hcase : (exists o, K = Returned o) \/ (forall o, K <> Returned o)).
    { destruct K; eauto; right; intros; discriminate. }
    destruct Hcase as [[o ->]|Hnot].
    + injection Hmove as <-. exists evs, m. split; simpl; try done.
      * rewrite fmap_app. simpl. rewrite <- Hind.
        rewrite (delete_Permutation _ _ _ Hi) at 2. simpl.
        rewrite app_assoc. symmetry. apply Permutation_cons_append.
      * pose proof (length_delete (q_running s) i (mk_is_Some _ _ Hi)). lia.
      * rewrite omap_app, Hres. simpl. by destruct o.
      * by apply Forall_delete.
      * apply Forall_app. split; [done|]. constructor; [|done]. by exists c.
      * pose proof (sum_list_with_delete (fun t => holding_metadata (task_state t)) _ _ _ Hi)
          as Hd. unfold tasks_with_metadata in *. simpl in Hd.
        rewrite length_app. destruct o; simpl in *; lia.
      * intros Hm.
        pose proof (sum_list_with_delete (fun t => failing (task_state t)) _ _ _ Hi) as Hd.
        unfold failing_tasks, count_null in *. rewrite sum_list_with_app. simpl in *.
        rewrite (Hfail Hm). destruct o; simpl in *; lia.
    + assert (Hmv : match retry_resume env html maxRetries c K (q_world s) with
                    | (Done K', w) =>
                        Some {| q_world := w; q_waiting := q_waiting s;
                                q_running := <[i := mkTask j c K']> (q_running s);
                                q_results := q_results s; q_settled := q_settled s;
                                q_rejected := q_rejected s |}
                    | (Throw msg, w) =>
                        Some (queue_reject msg w
                                {| q_world := w; q_waiting := q_waiting s;
                                   q_running := delete i (q_running s);
                                   q_results := q_results s; q_settled := q_settled s;
                                   q_rejected := q_rejected s |})
                    end = Some s').
      { destruct K; try exact Hmove. by destruct (Hnot result). }
      clear Hmove.
      destruct (retry_resume env html maxRetries c K (q_world s)) as [r w'] eqn:Hr.
      destruct (retry_resume_emits env html maxRetries c K _ _ _ Hr) as (new & Hl0 & Hall & Hk).
      eapply (retry_resume_step _ _ _ _ _ _ _ _ evs) in Hr
        as (K' & e & -> & Hl & Hok' & Hc1 & Hh & Hf1);
        [|by eapply Hkj, Hreg|done|done].
      rewrite Hl in Hl0. apply app_inv_head in Hl0 as <-.
      injection Hmv as <-.
      exists (evs ++ [e]), m. split; simpl; try done.
      * by rewrite Hl, Hlog, <- app_assoc.
      * apply Forall_app. split; [done|].
        eapply Forall_impl; [exact Hall|]. intros x Hx. exact Hx.
      * by apply (stable_trans (P := only_error_writes) _ _ _ Hkept).
      * rewrite list_fmap_insert. simpl. rewrite list_insert_id; [done|].
        by rewrite list_lookup_fmap, Hi.
      * by rewrite length_insert.
      * apply Forall_insert; [|by split].
        eapply Forall_impl; [exact Hrun|]. intros t [? ?]. split; [done|].
        by apply task_ok_later.
      * eapply Forall_impl; [exact Hset|]. intros io (c0 & ? & ?). exists c0. split; [done|].
        by apply job_outcome_later.
      * rewrite Hc1, Hcomp, count_returned_app. lia.
      * pose proof (sum_list_with_insert (fun t => holding_metadata (task_state t))
                      _ _ _ (mkTask j c K') Hi) as Hd.
        unfold tasks_with_metadata in *. simpl in Hd. rewrite count_returned_app. lia.
      * intros Hm.
        pose proof (sum_list_with_insert (fun t => failing (task_state t))
                      _ _ _ (mkTask j c K') Hi) as Hd.
        unfold failing_tasks in *. simpl in Hd. specialize (Hf1 Hm). specialize (Hfail Hm).
        lia.
Qed.

Lemma run_schedule_inv env html maxRetries concurrency config w1 schedule :
  (forall i c, queue_jobs config !! i = Some (i, c) -> is_Some (jobs (st w1) !! id c)) ->
  forall s s' evs m,
    queue_inv html maxRetries concurrency config w1 s evs m ->
    run_schedule env html maxRetries concurrency schedule s = Some s' ->
    exists evs' m', queue_inv html maxRetries concurrency config w1 s' evs' m'.
Proof.
  intros Hreg. induction schedule as [|mv schedule IH]; intros s s' evs m Hinv H; simpl in H.
  - injection H as <-. eauto.
  - destruct (queue_move env html maxRetries concurrency mv s) as [s1|] eqn:Hmv; [|done].
    destruct (queue_move_inv _ _ _ _ _ _ _ _ _ _ _ Hreg Hinv Hmv) as (evs1 & m1 & Hinv1).
    by eapply IH.
Qed.

Lemma register_jobs_registers dflt sims : forall o,
  (forall k, is_Some (jobs o !! k) -> is_Some (jobs (register_jobs sims dflt o) !! k)) /\
  (forall job, job ∈ sims ->
     is_Some (jobs (register_jobs sims dflt o) !! id (mergeWithDefaults job dflt))).
Proof.
  unfold register_jobs. induction sims as [|c sims IH]; intros o; simpl.
  - split; [done|]. intros c Hc. by apply elem_of_nil in Hc.
  - destruct (IH (with_jobs (insert (id (mergeWithDefaults c dflt))
                               (pending_job (mergeWithDefaults c dflt))) o)) as [Hk Hc].
    split.
    + intros k Hin. apply Hk. simpl.
      destruct (decide (id (mergeWithDefaults c dflt) = k)) as [->|Hne].
      * rewrite lookup_insert_eq. by eexists.
      * by rewrite lookup_insert_ne.
    + intros c' Hc'. apply elem_of_cons in Hc' as [->|Hc']; [|by apply Hc].
      apply Hk. simpl. rewrite lookup_insert_eq. by eexists.
Qed.

Lemma register_jobs_counters dflt sims : forall o,
  completedCount (register_jobs sims dflt o) = completedCount o /\
  failedCount (register_jobs sims dflt o) = failedCount o.
Proof.
  unfold register_jobs. induction sims as [|c sims IH]; intros o; simpl; [done|].
  by rewrite !(proj1 (IH _)), !(proj2 (IH _)).
Qed.

(** The world in which [runBatch] hands its jobs to the queue. *)
Lemma batch_start_spec env config w r w1 :
  batch_start env config w = (r, w1) ->
  (exists msg, r = Throw msg /\
     log w1 = log w ++ [mkEvent InBatch (Mkdir (bc_outputDir config)) (ARejected msg)]) \/
  (r = Done tt /\
   log w1 = log w ++ [mkEvent InBatch (Mkdir (bc_outputDir config)) AOk] /\
   orch_startTime (st w1) = env_clock env (log w) /\
   completedCount (st w1) = 0%Z /\ failedCount (st w1) = 0%Z /\
   forall i c, queue_jobs config !! i = Some (i, c) -> is_Some (jobs (st w1) !! id c)).
Proof.
  unfold batch_start, bind, now, modify, perform_unit, perform. simpl.
  destruct (env_fails env (log w) (Mkdir (bc_outputDir config))) as [msg|];
    intros [= <- <-]; [left; eauto|right]. simpl.
  rewrite register_jobs_startTime, (proj1 (register_jobs_counters _ _ _)),
    (proj2 (register_jobs_counters _ _ _)). simpl.
  conjs; try done. intros i c Hi.
  apply queue_jobs_lookup in Hi as (_ & job & Hjob & ->).
  apply register_jobs_registers. by eapply list_elem_of_lookup_2.
Qed.

Lemma count_null_results (settled : list (nat * option SimulationMetadata)) :
  count_null settled + length (omap snd settled) = length settled.
Proof.
  unfold count_null. induction settled as [|[i [md|]] l IH]; [done|..].
  - change (sum_list_with (fun io => match snd io with None => 1 | Some _ => 0 end) l
            + S (length (omap snd l)) = S (length l)). lia.
  - change (S (sum_list_with (fun io => match snd io with None => 1 | Some _ => 0 end) l)
            + length (omap snd l) = S (length l)). lia.
Qed.

(** What the queue has come to when it is idle after a run of the batch. *)
Lemma queue_idle_inv html maxRetries concurrency config w1 s evs m :
  queue_inv html maxRetries concurrency config w1 s evs m ->
  queue_idle s = true ->
  q_waiting s = [] /\ q_running s = [] /\
  fst <$> q_settled s ≡ₚ seq 0 (length (simulations config)) /\
  Forall (fun io => exists job,
            simulations config !! fst io = Some job /\
            job_outcome html maxRetries evs (mergeWithDefaults job (defaults config)) (snd io))
         (q_settled s) /\
  length (q_results s) <= count_returned evs /\
  ((0 <= maxRetries)%Z ->
   (failedCount (st (q_world s)) + Z.of_nat (length (q_results s))
    = failedCount (st w1) + Z.of_nat (length (simulations config)))%Z).
Proof.
  intros [Hlog Hwr Hkept Hrej Hwait Hst Hind Hbound Hres Hrun Hset Hcomp Hmeta Hfail] Hidle.
  unfold queue_idle in Hidle.
  destruct (q_waiting s) eqn:Hw; [|done]. destruct (q_running s) eqn:Hr; [|done].
  rewrite ?Hr, ?Hw in *.
  assert (m = length (simulations config)) as ->.
  { assert (Hl : length (drop m (queue_jobs config)) = 0) by by rewrite <- Hwait.
    rewrite length_drop in Hl. unfold queue_jobs in Hl. rewrite length_imap in Hl. lia. }
  simpl in *. conjs; try done.
  - eapply Forall_impl; [exact Hset|]. intros [i o] (c & Hc & Ho). simpl in *.
    apply queue_jobs_lookup in Hc as (_ & job & Hjob & ->). eauto.
  - intros Hm. rewrite (Hfail Hm).
    assert (Hn : count_null (q_settled s) + length (q_results s) = length (q_settled s)).
    { rewrite Hres. apply count_null_results. }
    apply Permutation_length in Hind. rewrite length_fmap, length_seq in Hind. lia.
Qed.

Lemma write_index_spec env relative dirname config results w r w' :
  (write_index env relative dirname config results ;;; ret results) w = (r, w') ->
  exists a,
    log w' = log w ++ [mkEvent InBatch (WriteFile (bc_outputDir config ++ ["index.json"])
                                          (IndexDoc (batch_index env relative dirname config
                                                       results w))) a] /\
    st w' = st w /\
    ((r = Done results /\ a = AOk) \/ (exists msg, r = Throw msg /\ a = ARejected msg)).
Proof.
  unfold write_index, bind, now, get, perform_unit, perform, ret, batch_index. simpl.
  destruct (env_fails env (log w) _) as [msg|]; intros [= <- <-]; eexists; simpl.
  - split; [reflexivity|]. split; [reflexivity|]. right. eauto.
  - split; [reflexivity|]. split; [reflexivity|]. by left.
Qed.

(** A run of [runBatch]: either the creation of the output directory is
    rejected, or the schedule takes the queue from the jobs of the batch to
    idleness, and the index is written in the world the queue has left. *)
Lemma runBatch_run env html maxRetries relative dirname concurrency config schedule w r w' :
  runBatch env html maxRetries relative dirname concurrency config schedule w = Some (r, w') ->
  (exists msg, r = Throw msg /\
     log w' = log w ++ [mkEvent InBatch (Mkdir (bc_outputDir config)) (ARejected msg)]) \/
  (exists w1 s evs,
     batch_start env config w = (Done tt, w1) /\
     log w1 = log w ++ [mkEvent InBatch (Mkdir (bc_outputDir config)) AOk] /\
     orch_startTime (st w1) = env_clock env (log w) /\
     completedCount (st w1) = 0%Z /\ failedCount (st w1) = 0%Z /\
     run_schedule env html maxRetries concurrency schedule (queue_init config w1) = Some s /\
     queue_inv html maxRetries concurrency config w1 s evs (length (simulations config)) /\
     queue_idle s = true /\
     (write_index env relative dirname config (q_results s) ;;; ret (q_results s)) (q_world s)
       = (r, w')).
Proof.
  unfold runBatch. destruct (batch_start env config w) as [r0 w1] eqn:Hb.
  destruct (batch_start_spec _ _ _ _ _ Hb) as [(msg & -> & Hl)|(-> & Hl & Ht & Hc & Hf & Hreg)].
  - intros [= <- <-]. left. eauto.
  - destruct (run_schedule env html maxRetries concurrency schedule (queue_init config w1))
      as [s|] eqn:Hs; [|done].
    destruct (run_schedule_inv _ _ _ _ _ _ _ Hreg _ _ _ _
                (queue_init_inv html maxRetries concurrency config w1) Hs)
      as (evs & m & Hinv).
    rewrite (qi_rejected _ _ _ _ _ _ _ _ Hinv).
    destruct (queue_idle s) eqn:Hidle; [|done]. intros [= H]. right.
    assert (m = length (simulations config)) as ->.
    { pose proof (qi_waiting _ _ _ _ _ _ _ _ Hinv) as Hw.
      pose proof (qi_started _ _ _ _ _ _ _ _ Hinv) as Hst.
      unfold queue_idle in Hidle. destruct (q_waiting s); [|done].
      assert (Hl0 : length (drop m (queue_jobs config)) = 0) by by rewrite <- Hw.
      rewrite length_drop in Hl0. unfold queue_jobs in Hl0. rewrite length_imap in Hl0. lia. }
    exists w1, s, evs. by conjs.
Qed.

(** ** The index of a batch *)




(** ** The figures of the index *)

(** X14.  The figures of index.json (maxRetries >= 0), whatever the order
    in which the jobs of the queue went on.  runBatch starts its counters
    from zero, so whatever earlier batches left, the index it writes
    satisfies failed + number of entries = total_simulations: every job is
    either listed or counted as failed.  completed is the number of runs of
    the batch that returned their metadata; it is at least the number of
    entries and exceeds it when such a run was followed by a rejected
    release. *)
Theorem runBatch_index_accounts
    env html maxRetries relative dirname concurrency config schedule w results w' :
  (0 <= maxRetries)%Z ->
  runBatch env html maxRetries relative dirname concurrency config schedule w
    = Some (Done results, w') ->
  exists evs ix,
    log w' = log w ++ evs ++ [index_written config ix] /\
    (ix_failed ix + Z.of_nat (length (ix_simulations ix)) = ix_total_simulations ix)%Z /\
    length (ix_simulations ix) = length results /\
    ix_completed ix = Z.of_nat (count_returned evs) /\
    (Z.of_nat (length (ix_simulations ix)) <= ix_completed ix)%Z /\
    completedCount (st w') = ix_completed ix /\
    failedCount (st w') = ix_failed ix.
Proof.
  intros Hmax H.
  apply runBatch_run in H
    as [(msg & [=] & _)|(w1 & s & evs & Hb & Hl1 & Ht & Hc0 & Hf0 & Hs & Hinv & Hidle & Hw)].
  apply write_index_spec in Hw as (a & Hl & Hst & [[[= ->] ->]|(msg & [=] & _)]).
  destruct (queue_idle_inv _ _ _ _ _ _ _ _ Hinv Hidle) as (_ & _ & _ & _ & Hle & Hfail).
  specialize (Hfail Hmax).
  pose proof (qi_completed _ _ _ _ _ _ _ _ Hinv) as Hcomp.
  pose proof (qi_log _ _ _ _ _ _ _ _ Hinv) as Hlog.
  exists (mkEvent InBatch (Mkdir (bc_outputDir config)) AOk :: evs),
    (batch_index env relative dirname config (q_results s) (q_world s)).
  split.
  { rewrite Hl, Hlog, Hl1. rewrite <- !app_assoc. reflexivity. }
  simpl. rewrite length_map, Hst.
  change (count_returned (mkEvent InBatch (Mkdir (bc_outputDir config)) AOk :: evs))
    with (count_returned evs).
  conjs; lia.
Qed.

Lemma runBatch_index_accounts_witness :
  exists results w',
    runBatch leaky_env "index.html" 1%Z demo_relative demo_dirname 2 pair_batch
      (pair_schedule 9) (mkWorld new_orchestrator []) = Some (Done results, w') /\
    exists evs ix,
      log w' = [] ++ evs ++ [index_written pair_batch ix] /\
      (ix_failed ix + Z.of_nat (length (ix_simulations ix)) = ix_total_simulations ix)%Z /\
      length (ix_simulations ix) = length results /\
      ix_completed ix = Z.of_nat (count_returned evs) /\
      (Z.of_nat (length (ix_simulations ix)) <= ix_completed ix)%Z /\
      completedCount (st w') = ix_completed ix /\
      failedCount (st w') = ix_failed ix.
Proof.
  eexists _, _. split; [vm_compute; reflexivity|].
  eapply (runBatch_index_accounts leaky_env "index.html" 1%Z demo_relative demo_dirname 2
            pair_batch (pair_schedule 9) (mkWorld new_orchestrator []));
    [lia|vm_compute; reflexivity].
Defined.

(** ** How a batch can fail *)

(** X16.  runBatch rejects only over its own two files, whatever the order
    in which the jobs of the queue went on.  When it throws, either the
    creation of the batch's output directory was rejected, and then no job
    was started at all, or the queue was run until it was idle, every job
    having resolved once, and the write of index.json was rejected as the
    last call; in both cases the error is that rejection.  No failure of a
    job makes runBatch throw. *)
Theorem runBatch_rejects_only_on_its_own_files
    env html maxRetries relative dirname concurrency config schedule w msg w' :
  runBatch env html maxRetries relative dirname concurrency config schedule w
    = Some (Throw msg, w') ->
  log w' = log w ++ [mkEvent InBatch (Mkdir (bc_outputDir config)) (ARejected msg)] \/
  exists evs ix w1 s,
    log w' = log w ++ (mkEvent InBatch (Mkdir (bc_outputDir config)) AOk :: evs)
               ++ [mkEvent InBatch
                     (WriteFile (bc_outputDir config ++ ["index.json"]) (IndexDoc ix))
                     (ARejected msg)] /\
    index_writes config evs = [] /\
    batch_start env config w = (Done tt, w1) /\
    run_schedule env html maxRetries concurrency schedule (queue_init config w1) = Some s /\
    q_waiting s = [] /\ q_running s = [] /\
    fst <$> q_settled s ≡ₚ seq 0 (length (simulations config)) /\
    Forall (fun io => exists job,
              simulations config !! fst io = Some job /\
              job_outcome html maxRetries evs
                (mergeWithDefaults job (defaults config)) (snd io))
           (q_settled s).
Proof.
  intros H.
  apply runBatch_run in H
    as [(msg' & [= <-] & Hl)|(w1 & s & evs & Hb & Hl1 & _ & _ & _ & Hs & Hinv & Hidle & Hw)];
    [by left|right].
  apply write_index_spec in Hw as (a & Hl & Hst & [[[=] _]|(msg' & [= <-] & ->)]).
  destruct (queue_idle_inv _ _ _ _ _ _ _ _ Hinv Hidle) as (Hwait & Hrun & Hperm & Hout & _).
  pose proof (qi_log _ _ _ _ _ _ _ _ Hinv) as Hlog.
  pose proof (qi_writes _ _ _ _ _ _ _ _ Hinv) as Hwr.
  exists evs, (batch_index env relative dirname config (q_results s) (q_world s)), w1, s.
  split.
  { rewrite Hl, Hlog, Hl1. rewrite <- !app_assoc. reflexivity. }
  split; [by eapply index_writes_none|]. done.
Qed.

Lemma runBatch_rejects_only_on_its_own_files_witness :
  exists msg w',
    runBatch no_index_env "index.html" 3%Z demo_relative demo_dirname 2 pair_batch
      (pair_schedule 3) (mkWorld new_orchestrator []) = Some (Throw msg, w') /\
    (log w' = [] ++ [mkEvent InBatch (Mkdir (bc_outputDir pair_batch)) (ARejected msg)] \/
     exists evs ix w1 s,
       log w' = [] ++ (mkEvent InBatch (Mkdir (bc_outputDir pair_batch)) AOk :: evs)
                  ++ [mkEvent InBatch
                        (WriteFile (bc_outputDir pair_batch ++ ["index.json"]) (IndexDoc ix))
                        (ARejected msg)] /\
       index_writes pair_batch evs = [] /\
       batch_start no_index_env pair_batch (mkWorld new_orchestrator []) = (Done tt, w1) /\
       run_schedule no_index_env "index.html" 3%Z 2 (pair_schedule 3)
         (queue_init pair_batch w1) = Some s /\
       q_waiting s = [] /\ q_running s = [] /\
       fst <$> q_settled s ≡ₚ seq 0 (length (simulations pair_batch)) /\
       Forall (fun io => exists job,
                 simulations pair_batch !! fst io = Some job /\
                 job_outcome "index.html" 3%Z evs
                   (mergeWithDefaults job (defaults pair_batch)) (snd io))
              (q_settled s)).
Proof.
  eexists _, _. split; [vm_compute; reflexivity|].
  eapply (runBatch_rejects_only_on_its_own_files no_index_env "index.html" 3%Z
            demo_relative demo_dirname 2 pair_batch (pair_schedule 3)
            (mkWorld new_orchestrator [])).
  vm_compute; reflexivity.
Defined.

(** ** The retry wrapper between its awaits and the wrapper run on its own *)

Lemma retry_drive_returned env html maxRetries fuel c o w :
  retry_drive env html maxRetries fuel c (Returned o) w = (Done o, w).
Proof. by destruct fuel. Qed.

Lemma retry_drive_resume env html maxRetries fuel c K w :
  (forall o, K <> Returned o) ->
  retry_drive env html maxRetries (S fuel) c K w
  = (K' <- retry_resume env html maxRetries c K ;; retry_drive env html maxRetries fuel c K') w.
Proof. intros Hnot. destruct K; try reflexivity. by destruct (Hnot result). Qed.

Local Arguments retry_drive : simpl never.
Local Arguments attempts : simpl never.

Ltac drive_step :=
  match goal with
  | |- context [retry_drive _ _ _ _ _ (Returned _) _] => rewrite retry_drive_returned
  | |- context [retry_drive _ _ _ (S _) _ _ _] =>
      rewrite retry_drive_resume by (intros ?; discriminate);
      unfold bind at 1; unfold retry_resume, retry_catch, try_catch, bind, perform_page,
        perform_metadata, perform_unit, perform, sleep, modify, get, now, ret, throw; simpl
  | |- context [env_fails ?e ?l ?c] => destruct (env_fails e l c) eqn:?; simpl
  | |- context [(?a <? ?b)%Z] => destruct (a <? b)%Z eqn:?; simpl
  | |- context [alter ?f ?i ?m !! ?i] => destruct (alter f i m !! i) eqn:?; simpl
  end.

Lemma attempts_drive env html maxRetries c k : forall attempt fuel w,
  5 * k <= fuel ->
  retry_drive env html maxRetries fuel c (next_attempt k attempt) w
  = attempts env html maxRetries c k attempt w.
Proof.
  induction k as [|k IH]; intros attempt fuel w Hfuel; [by destruct fuel|].
  destruct fuel as [|[|[|[|[|fuel]]]]]; try lia.
  change (attempts env html maxRetries c (S k) attempt w)
    with ((r <- try_catch
             (metadata <- attempt_once env html c attempt ;; ret (Some metadata))
             (fun msg => on_failure env maxRetries c attempt msg ;;; ret None) ;;
           match r with
           | Some metadata => ret (Some metadata)
           | None => attempts env html maxRetries c k (attempt + 1)%Z
           end) w).
  unfold attempt_once, on_failure, try_catch, try_finally, bind,
    perform_page, perform_metadata, perform_unit, perform, sleep, modify, get, now, ret, throw.
  simpl. repeat drive_step; try reflexivity; try (apply IH; lia).
Qed.

(** A wrapper run from its call to its end with no other task in between
    is [runWithRetry]. *)
Lemma runWithRetry_drive env html maxRetries c w :
  runWithRetry env html maxRetries c w
  = (K <- retry_begin env maxRetries c ;;
     retry_drive env html maxRetries (5 * Z.to_nat (maxRetries + 1)) c K) w.
Proof.
  unfold runWithRetry, retry_begin, bind, get, now, modify, ret, throw. simpl.
  destruct (jobs (st w) !! id c); [|done]. symmetry. by apply attempts_drive.
Qed.

Lemma run_schedule_app env html maxRetries concurrency l1 l2 : forall s,
  run_schedule env html maxRetries concurrency (l1 ++ l2) s
  = match run_schedule env html maxRetries concurrency l1 s with
    | Some s1 => run_schedule env html maxRetries concurrency l2 s1
    | None => None
    end.
Proof.
  induction l1 as [|mv l1 IH]; intros s; simpl; [done|].
  by destruct (queue_move env html maxRetries concurrency mv s).
Qed.

Local Arguments retry_resume : simpl never.

(** The one running task goes on until its wrapper has returned, and
    settles. *)
Lemma drive_schedule env html maxRetries concurrency c j rest fuel :
  forall K w o w' results settled,
    retry_drive env html maxRetries fuel c K w = (Done o, w') ->
    exists n,
      run_schedule env html maxRetries concurrency (replicate n (Continue 0))
        {| q_world := w; q_waiting := rest; q_running := [mkTask j c K];
           q_results := results; q_settled := settled; q_rejected := None |}
      = Some {| q_world := w'; q_waiting := rest; q_running := [];
                q_results := results ++ option_list o;
                q_settled := settled ++ [(j, o)]; q_rejected := None |}.
Proof.
  induction fuel as [|fuel IH]; intros K w o w' results settled H.
  - destruct K; try discriminate H. injection H as <- <-. by exists 1.
  - assert (Hcase : (exists o', K = Returned o') \/ (forall o', K <> Returned o')).
    { destruct K; eauto; right; intros; discriminate. }
    destruct Hcase as [[o' ->]|Hnot].
    { rewrite retry_drive_returned in H. injection H as <- <-. by exists 1. }
    rewrite retry_drive_resume in H by done.
    apply bind_done in H as (K' & w1 & Hr & H).
    destruct (IH _ _ _ _ results settled H) as (n & Hn).
    exists (S n). simpl. rewrite <- Hn.
    destruct K as [| | |k a| | |o'']; simpl; try (by rewrite Hr);
      [by cbv [retry_resume bind sleep ret] in Hr; injection Hr as <- <-
      |by destruct (Hnot o'')].
Qed.

(** Whatever the environment does, a batch has a run for any bound of at
    least one task: the one in which each job runs to its end before the
    next is started. *)
Lemma runBatch_has_run env html maxRetries relative dirname concurrency config w :
  1 <= concurrency ->
  exists schedule r w',
    runBatch env html maxRetries relative dirname concurrency config schedule w
    = Some (r, w').
Proof.
  intros Hcon. unfold runBatch.
  destruct (batch_start env config w) as [r0 w1] eqn:Hb.
  destruct (batch_start_spec _ _ _ _ _ Hb) as [(msg & -> & _)|(-> & _ & _ & _ & _ & Hreg)].
  { exists [], (Throw msg), w1. done. }
  assert (Hfifo : forall waiting w2 results settled,
            (forall j c, (j, c) ∈ waiting -> is_Some (jobs (st w2) !! id c)) ->
            exists schedule s,
              run_schedule env html maxRetries concurrency schedule
                {| q_world := w2; q_waiting := waiting; q_running := [];
                   q_results := results; q_settled := settled; q_rejected := None |}
              = Some s /\ q_rejected s = None /\ queue_idle s = true).
  { induction waiting as [|[j c] waiting IH]; intros w2 results settled Hin.
    - eexists [], _. done.
    - destruct (runWithRetry_returns env html maxRetries c w2)
        as (o & w3 & evs & Hrun & _ & _ & [Hkept _] & _).
      { apply (Hin j). by left. }
      rewrite runWithRetry_drive in Hrun.
      apply bind_done in Hrun as (K & w2' & Hbegin & Hdrive).
      destruct (drive_schedule env html maxRetries concurrency c j waiting _ _ _ _ _
                  results settled Hdrive) as (n & Hn).
      destruct (IH w3 (results ++ option_list o) (settled ++ [(j, o)]))
        as (schedule & s & Hs & Hrej & Hidle).
      { intros j' c' Hin'. apply Hkept, (Hin j'). by right. }
      exists (Start :: replicate n (Continue 0) ++ schedule), s.
      split; [|done]. simpl.
      rewrite decide_True by lia. rewrite Hbegin. simpl.
      by rewrite run_schedule_app, Hn. }
  destruct (Hfifo (queue_jobs config) w1 [] []) as (schedule & s & Hs & Hrej & Hidle).
  { intros j c Hin. apply list_elem_of_lookup in Hin as [i Hi].
    destruct (queue_jobs_lookup _ _ _ _ Hi) as [-> _]. by eapply Hreg. }
  exists schedule. unfold queue_init. rewrite Hs, Hrej, Hidle.
  eexists _, _. f_equal. apply surjective_pairing.
Qed.
